(** * Minnow prototype (DCP chat server): the frame codec and the server core

    A shallow embedding of [parser.py] and [server.py].  Python values are
    modelled as follows:
    - [bytes] is a list of bytes, [str] a list of Unicode code points;
    - a [dict] is an association list in insertion order with unique keys;
    - an exception is a value of [exn]; a computation that can raise returns
      a [result];
    - the builtins whose behaviour depends on Unicode tables or on the JSON
      grammar ([bytes.decode], [str.encode], [str.lower], [json.loads],
      [dict()] on a non-mapping) are fields of the classes [Text] and
      [Json]: every general theorem holds for all their implementations;
    - the server state is a [world]: the stores of users and sessions, the
      timers of the event loop, and for each session the calls made on its
      transport; the clock and [randint] are inputs of the functions that
      read them;
    - user.py, group.py, errors.py and storage.py are not part of the
      sources at hand: what the embedded code needs of [User], [Group] and
      the exception classes is modelled from the specification, and the
      handlers that need the credential store or group membership are a
      parameter [extern] of the dispatcher. *)

From Stdlib Require Import String Ascii ZArith NArith Bool QArith Lia List.
From Stdlib Require DecimalString.
From Stdlib Require Import ListDec.
From Stdlib.Strings Require Import Byte.
Import ListNotations.

Set Implicit Arguments.

#[local] Open Scope Z_scope.

(** ** Python values *)

Module Py.

Definition bytes := list byte.
Definition str := list N.

(** A [str] literal of the source. *)
Definition lit (s : string) : str :=
  map N_of_ascii (list_ascii_of_string s).

(** A [bytes] literal of the source. *)
Definition blit (s : string) : bytes := list_byte_of_string s.

Definition NUL : byte := x00.

Definition len {A} (l : list A) : Z := Z.of_nat (length l).

Fixpoint list_eqb {A} (eqb : A -> A -> bool) (l1 l2 : list A) : bool :=
  match l1, l2 with
  | [], [] => true
  | a :: r1, b :: r2 => eqb a b && list_eqb eqb r1 r2
  | _, _ => false
  end.

Definition str_eqb : str -> str -> bool := list_eqb N.eqb.
Definition bytes_eqb : bytes -> bytes -> bool := list_eqb Byte.eqb.

(** [x in l] for a list of strings. *)
Definition str_in (x : str) (l : list str) : bool := existsb (str_eqb x) l.

(** [l.startswith(p)] *)
Fixpoint startswith {A} (eqb : A -> A -> bool) (l p : list A) : bool :=
  match p, l with
  | [], _ => true
  | b :: p', a :: l' => eqb a b && startswith eqb l' p'
  | _ :: _, [] => false
  end.

(** [l.endswith(s)] *)
Definition endswith {A} (eqb : A -> A -> bool) (l s : list A) : bool :=
  startswith eqb (rev l) (rev s).

(** [l.split(sep)] for a separator of one byte: n separators give n+1
    tokens, empty ones included. *)
Fixpoint split (sep : byte) (l : bytes) : list bytes :=
  match l with
  | [] => [[]]
  | b :: r =>
      if Byte.eqb b sep then [] :: split sep r
      else match split sep r with
           | t :: ts => (b :: t) :: ts
           | [] => [[b]]
           end
  end.

(** [sep.join(l)] *)
Fixpoint join {A} (sep : list A) (l : list (list A)) : list A :=
  match l with
  | [] => []
  | [x] => x
  | x :: r => x ++ sep ++ join sep r
  end.

(** [s.replace(a, b)] for one-character [a] and [b]. *)
Definition replace (a b : N) (s : str) : str :=
  map (fun c => if N.eqb c a then b else c) s.

(** The first occurrence of [sep] in [l]: what precedes it and what
    follows it. *)
Fixpoint find_first {A} (eqb : A -> A -> bool) (sep l : list A)
  : option (list A * list A) :=
  if startswith eqb l sep then Some ([], skipn (length sep) l)
  else match l with
       | [] => None
       | a :: r =>
           match find_first eqb sep r with
           | Some (pre, post) => Some (a :: pre, post)
           | None => None
           end
       end.

(** [l.rpartition(sep)]: split at the last occurrence of [sep]; when there
    is none the result is (empty, empty, l). *)
Definition rpartition (sep l : bytes) : bytes * bytes * bytes :=
  match find_first Byte.eqb (rev sep) (rev l) with
  | Some (pre, post) => (rev post, sep, rev pre)
  | None => ([], [], l)
  end.

(** [int.from_bytes(b, 'big')] *)
Definition int_from_bytes (b : bytes) : Z :=
  fold_left (fun acc x => acc * 256 + Z.of_N (Byte.to_N x)) b 0.

Definition byte_of_Z (z : Z) : byte :=
  match Byte.of_N (Z.to_N z) with
  | Some b => b
  | None => x00
  end.

(** Exceptions, each with the message it was raised with. *)
Inductive exn :=
| ParserIncompleteError (msg : str)
| ParserSizeError (msg : str)
| ParserInvalidError (msg : str)
| ParserValueError (msg : str)
| TypeError (msg : str)
| NameError (msg : str)
| KeyError (msg : str)
| AttributeError (msg : str)
| OverflowError (msg : str)
| UserError (msg : str)
| GroupError (msg : str).

(** [str(e)] *)
Definition exn_str (e : exn) : str :=
  match e with
  | ParserIncompleteError m | ParserSizeError m | ParserInvalidError m
  | ParserValueError m | TypeError m | NameError m | KeyError m
  | AttributeError m
  | OverflowError m | UserError m | GroupError m => m
  end.

Inductive result (A : Type) :=
| Ok (a : A)
| Raise (e : exn).
Arguments Ok {A} a.
Arguments Raise {A} e.

Definition rbind {A B} (r : result A) (k : A -> result B) : result B :=
  match r with
  | Ok a => k a
  | Raise e => Raise e
  end.

(** [int.to_bytes(n, 2, 'big')] *)
Definition int_to_bytes2 (n : Z) : result bytes :=
  if (n <? 0) || (65535 <? n)
  then Raise (OverflowError (lit "int too big to convert"))
  else Ok [byte_of_Z (n / 256); byte_of_Z (n mod 256)].

(** The text builtins: [b.decode('utf-8', 'replace')],
    [s.encode('utf-8', 'replace')] and [s.lower()]. *)
Class Text := {
  decode : bytes -> str;
  encode : str -> bytes;
  lower : str -> str
}.

(** ** Dictionaries: association lists in insertion order *)

Definition dict (V : Type) := list (str * V).

Fixpoint dict_get {V} (k : str) (d : dict V) : option V :=
  match d with
  | [] => None
  | (k', v) :: r => if str_eqb k k' then Some v else dict_get k r
  end.

(** [d[k] = v]: an existing key keeps its position. *)
Fixpoint dict_set {V} (k : str) (v : V) (d : dict V) : dict V :=
  match d with
  | [] => [(k, v)]
  | (k', v') :: r =>
      if str_eqb k k' then (k', v) :: r else (k', v') :: dict_set k v r
  end.

Fixpoint dict_del {V} (k : str) (d : dict V) : dict V :=
  match d with
  | [] => []
  | (k', v') :: r => if str_eqb k k' then r else (k', v') :: dict_del k r
  end.

Definition dict_mem {V} (k : str) (d : dict V) : bool :=
  match dict_get k d with Some _ => true | None => false end.

(** [d.update(e)] *)
Definition dict_update {V} (d e : dict V) : dict V :=
  fold_left (fun acc kv => dict_set (fst kv) (snd kv) acc) e d.

End Py.
Import Py.

Declare Scope result_scope.
Delimit Scope result_scope with result.
Notation "x <- r ;; k" := (rbind r (fun x => k))
  (at level 61, r at next level, right associativity) : result_scope.
#[local] Open Scope result_scope.

(** The key/value part of a frame: each key has its list of values. *)
Definition kval := dict (list str).

(** [kval[k]] on a [defaultdict(list)]. *)
Definition kval_at (k : str) (d : kval) : list str :=
  match dict_get k d with Some vs => vs | None => [] end.

(** [kval[k].append(v)] on a [defaultdict(list)]. *)
Definition kval_append (k v : str) (d : kval) : kval :=
  dict_set k (kval_at k d ++ [v]) d.

(** ** parser.py *)

Definition MAXFRAME : Z := 1400.
Definition MAXTARGET : Z := 48.

(** The fields every frame has (class [BaseFrame]). *)
Record BaseFrame := mkFrame {
  source : str;
  target : str;
  command : str;
  fkval : kval
}.

(** Zipping one iterator with itself: consecutive items two by two. *)
Fixpoint pairs {A} (l : list A) : list (A * A) :=
  match l with
  | a :: b :: r => (a, b) :: pairs r
  | _ => []
  end.

Module Frame.

Definition terminator : bytes := [NUL; NUL].

Section WithText.
Context {T : Text}.

(** The tokens of a frame: [text[3:].split(b'\0')] without its last item
    when that one is empty. *)
Definition tokenise (text : bytes) : list bytes :=
  let toks := split NUL (skipn 3 text) in
  match last toks [] with
  | [] => removelast toks
  | _ => toks
  end.

(** The padding of an odd number of key and value tokens. *)
Definition pad (toks : list bytes) : list bytes :=
  if Nat.odd (length toks - 3) then toks ++ [blit "*"] else toks.

(** The loop over the key and value tokens. *)
Fixpoint fill_kval (kvs : list (bytes * bytes)) (acc : kval) : result kval :=
  match kvs with
  | [] => Ok acc
  | (k, v) :: r =>
      let k := lower (decode k) in
      let v := decode v in
      if str_in v (kval_at k acc)
      then Raise (ParserValueError (lit "Duplicate value not allowed"))
      else fill_kval r (kval_append k v acc)
  end.

Definition parse (text : bytes) : result BaseFrame :=
  if negb (endswith Byte.eqb text terminator) || (len text <? 10)
  then Raise (ParserIncompleteError (lit "Incomplete frame"))
  else
    let llen := int_from_bytes (firstn 2 text) in
    if llen >? MAXFRAME
    then Raise (ParserSizeError (lit "Frame is too large for the wire"))
    else
      let text := tokenise text in
      if len text <? 3
      then Raise (ParserInvalidError (lit "Invalid DCP frame"))
      else
        let source := lower (decode (nth 0 text [])) in
        let target := lower (decode (nth 1 text [])) in
        let command := lower (decode (nth 2 text [])) in
        kval <- (if len text >? 3
                 then fill_kval (pairs (skipn 3 (pad text))) []
                 else Ok []) ;;
        Ok (mkFrame source target command kval).

(** The sum over all keys and values of [len(k) + len(v2) + 2]. *)
Definition len_kv (kv : kval) : Z :=
  fold_right
    (fun '(k, v) s =>
       fold_right (fun v2 s2 => len k + len v2 + 2 + s2) 0 v + s)
    0 kv.

Definition _generic_len (source target command : str) (kv : kval) : Z :=
  let llen := 3 + len source + 1 + len target + 1 + len command + 1 + 2 in
  if len kv >? 0 then llen + (len_kv kv - 1) else llen.

Definition __len__ (f : BaseFrame) : Z :=
  _generic_len (source f) (target f) (command f) (fkval f).

(** The tokens [__bytes__] joins. *)
Definition items (f : BaseFrame) : list str :=
  [source f; target f; command f]
    ++ flat_map (fun '(k, v) => flat_map (fun v2 => [k; v2]) v) (fkval f)
    ++ [[0%N]].

Definition __bytes__ (f : BaseFrame) : result bytes :=
  if __len__ f >? MAXFRAME - 20
  then Raise (ParserSizeError (lit "Frame is too large"))
  else
    let frame := join [0%N] (items f) in
    llen <- int_to_bytes2 (len frame + 3) ;;
    Ok (llen ++ [NUL] ++ encode frame).

End WithText.
End Frame.

(** The values [json.loads] returns: None, bool, numbers (kept as their
    literal), str, list and dict with str keys. *)
#[local] Unset Elimination Schemes.
Inductive json :=
| JNull
| JBool (b : bool)
| JNum (literal : str)
| JStr (s : str)
| JArr (l : list json)
| JObj (d : list (str * json)).
#[local] Set Elimination Schemes.

(** [json.loads(text)], which returns the message of the exception when it
    raises one, and [dict(x)] for an [x] that is no mapping (a sequence of
    pairs; None when it raises). *)
Class Json := {
  json_loads : str -> str + json;
  dict_of_seq : json -> option (list (json * json))
}.

(** A frame of the JSON dialect: its header fields are whatever values the
    header object holds, its keys whatever [dict()] made of the second
    element. *)
Record JFrame := mkJFrame {
  jsource : json;
  jtarget : json;
  jcommand : json;
  jkval : list (json * list str)
}.

Module JSONFrame.

Definition terminator : bytes := [NUL].

(** [x[i]] for an integer index. *)
Definition getitem_int (x : json) (i : nat) : option json :=
  match x with
  | JArr l => nth_error l i
  | JStr s => option_map (fun c => JStr [c]) (nth_error s i)
  | _ => None
  end.

(** [x[k]] for a str key. *)
Definition getitem_key (x : json) (k : str) : option json :=
  match x with
  | JObj d => dict_get k d
  | _ => None
  end.

(** [len(x)] *)
Definition json_len (x : json) : option Z :=
  match x with
  | JArr l => Some (len l)
  | JStr s => Some (len s)
  | JObj d => Some (len d)
  | _ => None
  end.

(** A list of str, or None. *)
Definition as_str_list (x : json) : option (list str) :=
  match x with
  | JArr l =>
      fold_right
        (fun v acc =>
           match v, acc with
           | JStr s, Some r => Some (s :: r)
           | _, _ => None
           end)
        (Some []) l
  | _ => None
  end.

(** The validation loop over the items of the key/value dict. *)
Fixpoint check_kval (d : list (json * json)) : option (list (json * list str)) :=
  match d with
  | [] => Some []
  | (k, v) :: r =>
      match as_str_list v, check_kval r with
      | Some vs, Some r' => Some ((k, vs) :: r')
      | _, _ => None
      end
  end.

Section WithJson.
Context {T : Text} {J : Json}.

(** [defaultdict(list, x)] *)
Definition to_dict (x : json) : option (list (json * json)) :=
  match x with
  | JObj d => Some (map (fun '(k, v) => (JStr k, v)) d)
  | _ => dict_of_seq x
  end.

(** The first [try] block after the load: the header and its three
    fields. *)
Definition header_of (load : json) : option (json * json * json) :=
  match getitem_int load 0 with
  | Some header =>
      match getitem_key header (lit "source"),
            getitem_key header (lit "target"),
            getitem_key header (lit "command") with
      | Some s, Some t, Some c => Some (s, t, c)
      | _, _, _ => None
      end
  | None => None
  end.

(** The second [try] block: the key/value dict and its validation. *)
Definition kval_of (load : json) : option (list (json * list str)) :=
  match json_len load with
  | Some n =>
      match (if n >? 1 then getitem_int load 1 else Some (JObj [])) with
      | Some x =>
          match to_dict x with
          | Some d => check_kval d
          | None => None
          end
      | None => None
      end
  | None => None
  end.

Definition parse (text : bytes) : result JFrame :=
  if negb (endswith Byte.eqb text terminator) || (len text <? 10)
  then Raise (ParserIncompleteError (lit "Incomplete frame"))
  else if len text <? 20
  then Raise (ParserSizeError (lit "Frame is too small"))
  else if len text >? MAXFRAME
  then Raise (ParserSizeError (lit "Frame is too large"))
  else
    let text := decode text in
    match json_loads text with
    | inl msg => Raise (ParserSizeError msg)
    | inr load =>
        match header_of load with
        | None => Raise (ParserInvalidError (lit "Bad JSON frame header"))
        | Some (source, target, command) =>
            match kval_of load with
            | None =>
                Raise (ParserInvalidError (lit "Bad JSON frame key/values"))
            | Some kval => Ok (mkJFrame source target command kval)
            end
        end
    end.

End WithJson.
End JSONFrame.

(** ** config.py *)

Definition servname : str := lit "elizabethmyers.me.uk".
Definition servpass : option str := None.

(** ** server.py: the objects

    Users and sessions are objects that refer to each other, so they live
    in two stores and are referred to by their index: a [User] holds the
    index of its session, a session the index of its user. *)

Definition UNREG : Z := 1.
Definition SIGNON : Z := 2.

(** [str(n)] for an int. *)
Definition str_of_int (n : Z) : str :=
  lit (DecimalString.NilZero.string_of_int (Z.to_int n)).

(** The calls made on a session's transport, oldest first. *)
Inductive call :=
| Write (data : bytes)
| Close.

(** What a scheduled callback runs. *)
Inductive action :=
| PingTimeout (user : nat)
| ConnTimeout (proto : nat).

(** A handle returned by [loop.call_later]. *)
Record timer := mkTimer {
  delay : Q;
  act : action;
  cancelled : bool
}.

(** Modelled from the spec: group.py is absent; a group has a name and a
    set of properties, and [has_property] tests membership. *)
Record Group := mkGroup {
  group_name : str;
  group_properties : list str
}.

Definition Group_has_property (g : Group) (p : str) : bool :=
  str_in p (group_properties g).

(** Modelled from the spec: user.py is absent; a user has the attributes
    the spec lists ([timeout] is its pending-ping flag, clear at
    creation), [has_acl] tests membership in its ACL set and [send] hands
    the frame to its own session. *)
Record User := mkUser {
  user_proto : nat;
  user_name : str;
  user_gecos : str;
  user_acl : list str;
  user_properties : list str;
  user_options : list str;
  user_groups : list Group;
  user_timeout : bool
}.

Definition User_has_acl (u : User) (a : str) : bool :=
  str_in a (user_acl u).

(** The state of a [DCPProto]. *)
Record Proto := mkProto {
  buf : bytes;
  user : option nat;
  callbacks : dict nat;
  transport : list call
}.

(** The server, the objects it refers to and the event loop's timers. *)
Record world := mkWorld {
  name : str;
  motd : list (list str);
  users : dict nat;
  user_objs : list User;
  protos : list Proto;
  timers : list timer
}.

Definition no_user : User := mkUser 0 [] [] [] [] [] [] false.
Definition no_proto : Proto := mkProto [] None [] [].
Definition no_timer : timer := mkTimer 0 (ConnTimeout 0) true.

Definition the_user (w : world) (u : nat) : User := nth u (user_objs w) no_user.
Definition the_proto (w : world) (p : nat) : Proto := nth p (protos w) no_proto.

(** [l[i] = x] for an index in range. *)
Fixpoint set_nth {A} (i : nat) (x : A) (l : list A) : list A :=
  match l, i with
  | [], _ => []
  | _ :: r, O => x :: r
  | a :: r, S i' => a :: set_nth i' x r
  end.

Definition with_user (u : nat) (f : User -> User) (w : world) : world :=
  mkWorld (name w) (motd w) (users w)
          (set_nth u (f (the_user w u)) (user_objs w)) (protos w) (timers w).

Definition with_proto (p : nat) (f : Proto -> Proto) (w : world) : world :=
  mkWorld (name w) (motd w) (users w) (user_objs w)
          (set_nth p (f (the_proto w p)) (protos w)) (timers w).

Definition set_timeout (b : bool) (u : User) : User :=
  mkUser (user_proto u) (user_name u) (user_gecos u) (user_acl u)
         (user_properties u) (user_options u) (user_groups u) b.

Definition set_buf (b : bytes) (p : Proto) : Proto :=
  mkProto b (user p) (callbacks p) (transport p).

Definition set_user (u : option nat) (p : Proto) : Proto :=
  mkProto (buf p) u (callbacks p) (transport p).

Definition set_callbacks (c : dict nat) (p : Proto) : Proto :=
  mkProto (buf p) (user p) c (transport p).

Definition add_call (c : call) (p : Proto) : Proto :=
  mkProto (buf p) (user p) (callbacks p) (transport p ++ [c]).

(** ** Computations on the world

    A computation returns a value or raises, and in both cases leaves a
    world behind: what was written before an exception stays written. *)

Definition M (A : Type) := world -> result A * world.

Definition ret {A} (a : A) : M A := fun w => (Ok a, w).
Definition raise {A} (e : exn) : M A := fun w => (Raise e, w).

Definition bind {A B} (m : M A) (k : A -> M B) : M B :=
  fun w =>
    match m w with
    | (Ok a, w') => k a w'
    | (Raise e, w') => (Raise e, w')
    end.

(** [try: m except e: h e] *)
Definition try_except {A} (m : M A) (h : exn -> M A) : M A :=
  fun w =>
    match m w with
    | (Ok a, w') => (Ok a, w')
    | (Raise e, w') => h e w'
    end.

Definition gets {A} (f : world -> A) : M A := fun w => (Ok (f w), w).
Definition modify (f : world -> world) : M unit := fun w => (Ok tt, f w).
Definition lift {A} (r : result A) : M A := fun w => (r, w).

Declare Scope world_scope.
Delimit Scope world_scope with world.
Notation "x <- m ;; k" := (bind m (fun x => k))
  (at level 61, m at next level, right associativity) : world_scope.
Notation "m ;;; k" := (bind m (fun _ => k))
  (at level 61, right associativity) : world_scope.

Definition add_timer (t : timer) (w : world) : world :=
  mkWorld (name w) (motd w) (users w) (user_objs w) (protos w)
          (timers w ++ [t]).

(** [loop.call_later(delay, act)] *)
Definition call_later (d : Q) (a : action) : M nat :=
  fun w => (Ok (length (timers w)), add_timer (mkTimer d a false) w).

(** [cb.cancel()] *)
Definition cancel (cb : nat) : M unit :=
  modify (fun w =>
    let t := nth cb (timers w) no_timer in
    mkWorld (name w) (motd w) (users w) (user_objs w) (protos w)
            (set_nth cb (mkTimer (delay t) (act t) true) (timers w))).

(** ** server.py: class DCPProto, sending *)

#[local] Open Scope world_scope.

(** What [send] accepts as source and target. *)
Inductive endpoint :=
| EUser (u : nat)
| EGroup (g : Group)
| EProto (p : nat)
| EServer
| ENone
| EOther (n : str).

(** A value passed for [fatal] or [extargs]. *)
Inductive arg :=
| ABool (b : bool)
| ANone
| ADict (d : kval).

Definition truthy (a : arg) : bool :=
  match a with
  | ABool b => b
  | ANone => false
  | ADict d => negb (Nat.eqb (length d) 0)
  end.

(** A value of a key of an outgoing frame: a str, or a Group object. *)
Inductive obj :=
| OStr (s : str)
| OGroup (g : Group).

(** The str values of a frame; a value that is no str makes [len()] or
    [join] in [Frame.__bytes__] raise. *)
Fixpoint strs_of (l : list obj) : result (list str) :=
  match l with
  | [] => Ok []
  | OStr s :: r => (r' <- strs_of r ;; Ok (s :: r'))%result
  | OGroup _ :: _ =>
      Raise (TypeError (lit "sequence item: expected str instance, Group found"))
  end.

Fixpoint kval_of_objs (d : dict (list obj)) : result kval :=
  match d with
  | [] => Ok []
  | (k, v) :: r =>
      (v' <- strs_of v ;; r' <- kval_of_objs r ;; Ok ((k, v') :: r'))%result
  end.

Module DCPProto.
Section WithText.
Context {T : Text}.

Definition _proto_name (target : endpoint) : M str :=
  match target with
  | EUser u => gets (fun w => user_name (the_user w u))
  | EGroup g => ret (group_name g)
  | EProto _ =>
      raise (AttributeError (lit "'DCPProto' object has no attribute 'name'"))
  | EServer => gets (fun w => lit "=" ++ name w)
  | ENone => ret (lit "*")
  | EOther n => ret (lit "&" ++ n)
  end.

(** [send] with a key/value dict whose values may hold any object. *)
Definition send_objs (self : nat) (source target : endpoint) (command : str)
    (kv : dict (list obj)) : M unit :=
  source <- _proto_name source ;;
  target <- _proto_name target ;;
  data <- lift (kv' <- kval_of_objs kv ;;
                Frame.__bytes__ (mkFrame source target command kv'))%result ;;
  modify (with_proto self (add_call (Write data))).

Definition send (self : nat) (source target : endpoint) (command : str)
    (kv : kval) : M unit :=
  source <- _proto_name source ;;
  target <- _proto_name target ;;
  data <- lift (Frame.__bytes__ (mkFrame source target command kv)) ;;
  modify (with_proto self (add_call (Write data))).

Definition error (self : nat) (command reason : str) (fatal extargs : arg)
  : M unit :=
  let kv : kval := [(lit "command", [command]); (lit "reason", [reason])] in
  kv <- (if truthy extargs
         then match extargs with
              | ADict d => ret (dict_update kv d)
              | _ => raise (TypeError (lit "'bool' object is not iterable"))
              end
         else ret kv) ;;
  u <- gets (fun w => user (the_proto w self)) ;;
  send self EServer (match u with Some u => EUser u | None => ENone end)
       (lit "error") kv ;;;
  if truthy fatal
  then modify (with_proto self (add_call Close))
  else ret tt.

End WithText.
End DCPProto.

(** Modelled from the spec: [User.send] of the absent user.py, the
    per-user outbound send, which goes through the user's own session. *)
Definition User_send {T : Text} (u : nat) (source target : endpoint)
    (command : str) (kv : kval) : M unit :=
  p <- gets (fun w => user_proto (the_user w u)) ;;
  DCPProto.send p source target command kv.

Definition User_send_objs {T : Text} (u : nat) (source target : endpoint)
    (command : str) (kv : dict (list obj)) : M unit :=
  p <- gets (fun w => user_proto (the_user w u)) ;;
  DCPProto.send_objs p source target command kv.

(** ** server.py: class DCPServer *)

(** The [cmd_] methods of [DCPServer]. *)
Inductive handler :=
| Signon
| Register
| Message
| Motd
| Whois
| GroupEnter
| GroupExit
| Pong.

Definition handlers : list handler :=
  [Signon; Register; Message; Motd; Whois;
   GroupEnter; GroupExit; Pong].

Definition handler_name (h : handler) : str :=
  match h with
  | Signon => lit "cmd_signon"
  | Register => lit "cmd_register"
  | Message => lit "cmd_message"
  | Motd => lit "cmd_motd"
  | Whois => lit "cmd_whois"
  | GroupEnter => lit "cmd_group_enter"
  | GroupExit => lit "cmd_group_exit"
  | Pong => lit "cmd_pong"
  end.

(** The return annotation of a handler. *)
Definition annotation (h : handler) : Z :=
  match h with
  | Signon | Register => UNREG
  | _ => SIGNON
  end.

(** [getattr(self, attr, None)] for an attribute name that starts with
    [cmd_]. *)
Definition getattr (attr : str) : option handler :=
  find (fun h => str_eqb attr (handler_name h)) handlers.

(** The first argument of a handler and of [DCPServer.error]: a user or
    a session. *)
Inductive dest :=
| DUser (u : nat)
| DProto (p : nat).

(** [iter(frame)]: class [Frame] defines [__len__] but neither
    [__iter__] nor [__getitem__]. *)
Definition iter (f : BaseFrame) : result (list BaseFrame) :=
  Raise (TypeError (lit "'Frame' object is not iterable")).

(** Modelled from the spec: errors.py is absent; the failure kinds of the
    codec are the subclasses of [ParserError]. *)
Definition is_ParserError (e : exn) : bool :=
  match e with
  | ParserIncompleteError _ | ParserSizeError _ | ParserInvalidError _
  | ParserValueError _ => true
  | _ => false
  end.

Definition is_UserError_or_GroupError (e : exn) : bool :=
  match e with
  | UserError _ | GroupError _ => true
  | _ => false
  end.

(** [for x in l: f x] *)
Fixpoint for_each {A} (l : list A) (f : A -> M unit) : M unit :=
  match l with
  | [] => ret tt
  | x :: r => f x ;;; for_each r f
  end.

(** [enumerate(l)] *)
Definition enumerate {A} (l : list A) : list (nat * A) :=
  combine (seq 0 (length l)) l.

(** Insertion of a str into a list sorted by code points. *)
Fixpoint str_leb (a b : str) : bool :=
  match a, b with
  | [], _ => true
  | _ :: _, [] => false
  | x :: a', y :: b' =>
      if (x <? y)%N then true
      else if (y <? x)%N then false
      else str_leb a' b'
  end.

Fixpoint insert_sorted (x : str) (l : list str) : list str :=
  match l with
  | [] => [x]
  | y :: r => if str_leb x y then x :: l else y :: insert_sorted x r
  end.

(** [sorted(l)] *)
Definition sorted (l : list str) : list str :=
  fold_right insert_sorted [] l.

Module DCPServer.
Section WithText.
Context {T : Text}.

(** The handlers whose collaborators (credential store, crypt, group
    membership) are outside this development. *)
Variable extern : handler -> dest -> BaseFrame -> M unit.

(** [error(dest, command, reason, fatal=True, extargs=None)] *)
Definition error (d : dest) (command reason : str) (fatal extargs : arg)
  : M unit :=
  proto <- match d with
           | DUser u => gets (fun w => user_proto (the_user w u))
           | DProto p => ret p
           end ;;
  DCPProto.error proto command reason fatal extargs.

Definition cmd_motd (u : nat) (line : BaseFrame) : M unit :=
  m <- gets motd ;;
  match m with
  | [] => User_send u EServer (EUser u) (lit "motd") []
  | _ =>
      let total := str_of_int (len m) in
      for_each (enumerate m) (fun '(i, block) =>
        let kv : kval :=
          [(lit "text", block);
           (lit "multipart", [lit "*"]);
           (lit "part", [str_of_int (Z.of_nat i + 1)]);
           (lit "total", [total])] in
        User_send u EServer (EUser u) (lit "motd") kv)
  end.

Definition cmd_pong (u : nat) (line : BaseFrame) : M unit :=
  modify (with_user u (set_timeout false)).

(** [ping_timeout(user)]; [now] is the value of [round(time.time())] and
    [r] the value of [randint(4500, 6000)] when they are called. *)
Definition ping_timeout (u : nat) (now r : Z) : M unit :=
  t <- gets (fun w => user_timeout (the_user w u)) ;;
  if t : bool
  then error (DUser u) (lit "ping") (lit "Ping timeout") (ABool true) ANone
  else
    User_send u EServer (EUser u) (lit "ping")
              [(lit "time", [str_of_int now])] ;;;
    modify (with_user u (set_timeout true)) ;;;
    let sched := Qmake r 100 in
    cb <- call_later sched (PingTimeout u) ;;
    p <- gets (fun w => user_proto (the_user w u)) ;;
    modify (with_proto p (fun pr =>
      set_callbacks (dict_set (lit "ping") cb (callbacks pr)) pr)).

(** The name [line] in [user_enter]: it is neither a parameter, nor a
    local, nor a global of server.py. *)
Definition line_in_user_enter : M BaseFrame :=
  raise (NameError (lit "name 'line' is not defined")).

(** [user_enter]; [now], [now'] and [r] are the values of the clock and of
    [randint] at the calls it makes. *)
Definition user_enter (proto : nat) (nm gecos : str)
    (acls properties options : list str) (now now' r : Z) : M unit :=
  u <- gets (fun w => length (user_objs w)) ;;
  modify (fun w =>
    mkWorld (name w) (motd w) (dict_set nm u (users w))
            (user_objs w ++ [mkUser proto nm gecos acls properties options
                                    [] false])
            (protos w) (timers w)) ;;;
  modify (with_proto proto (set_user (Some u))) ;;;
  cbs <- gets (fun w => callbacks (the_proto w proto)) ;;
  match dict_get (lit "signon") cbs with
  | None => raise (KeyError (lit "'signon'"))
  | Some cb =>
      cancel cb ;;;
      modify (with_proto proto (fun pr =>
        set_callbacks (dict_del (lit "signon") (callbacks pr)) pr)) ;;;
      nm' <- gets name ;;
      let kv : kval :=
        [(lit "name", [nm']);
         (lit "time", [str_of_int now]);
         (lit "version", [lit "Minnow prototype server"; lit "v0.1-prealpha"]);
         (lit "options", [])] in
      User_send u EServer (EUser u) (lit "signon") kv ;;;
      line <- line_in_user_enter ;;
      cmd_motd u line ;;;
      modify (with_user u (set_timeout false)) ;;;
      ping_timeout u now' r
  end.

Definition cmd_whois (u : nat) (line : BaseFrame) : M unit :=
  let target := target line in
  if str_eqb target (lit "*")
     || startswith N.eqb target (lit "=")
     || startswith N.eqb target (lit "#")
  then error (DUser u) (command line) (lit "No valid target") (ABool false)
             ANone
  else
    us <- gets users ;;
    match dict_get target us with
    | None =>
        error (DUser u) (command line) (lit "No such user") (ABool false)
              ANone
    | Some u =>
        usr <- gets (fun w => the_user w u) ;;
        let kv : dict (list obj) :=
          [(lit "handle", [OStr (user_name usr)]);
           (lit "gecos", [OStr (user_gecos usr)])] in
        let kv :=
          if User_has_acl usr (lit "user:auspex")
          then dict_set (lit "acl") (map OStr (sorted (user_acl usr))) kv
          else kv in
        let kv :=
          match user_groups usr with
          | [] => kv
          | gs =>
              dict_set (lit "groups")
                (map OGroup
                   (filter (fun g =>
                      negb (Group_has_property g (lit "private")
                            && negb (User_has_acl usr (lit "user:auspex"))))
                      gs))
                kv
          end in
        User_send_objs u EServer (EUser u) (lit "whois") kv
    end.

(** The call of a handler. *)
Definition call (h : handler) (d : dest) (line : BaseFrame) : M unit :=
  match h, d with
  | Motd, DUser u => cmd_motd u line
  | Whois, DUser u => cmd_whois u line
  | Pong, DUser u => cmd_pong u line
  | _, _ => extern h d line
  end.

(** The name [traceback] in [process]: server.py does not import it. *)
Definition traceback_print_exception (e : exn) : M unit :=
  raise (NameError (lit "name 'traceback' is not defined")).

(** The [try] statement around the call of a handler. *)
Definition guarded_call (h : handler) (d : dest) (line : BaseFrame)
  : M unit :=
  try_except (call h d line) (fun e =>
    if is_UserError_or_GroupError e
    then
      traceback_print_exception e ;;;
      error d (command line) (exn_str e) (ABool false) ANone
    else
      error d (command line)
            (lit "Internal server error (this isn't your fault)")
            (ABool true) ANone).

(** The body of the loop of [process]; the result tells whether the loop
    goes on (false after a [return]). *)
Definition process_line (proto : nat) (line : BaseFrame) : M bool :=
  let command' := replace 45%N 95%N (command line) in
  match getattr (lit "cmd_" ++ command') with
  | None =>
      error (DProto proto) (command line) (lit "No such command")
            (ABool false) ANone ;;;
      ret false
  | Some func =>
      let req := annotation func in
      pu <- gets (fun w => user (the_proto w proto)) ;;
      if negb (Z.land req SIGNON =? 0)
      then
        match pu with
        | None =>
            error (DProto proto) (command line)
                  (lit "You are not registered") (ABool false) ANone ;;;
            ret false
        | Some u => guarded_call func (DUser u) line ;;; ret true
        end
      else if negb (Z.land req UNREG =? 0)
      then
        match pu with
        | Some _ =>
            error (DProto proto) (command line)
                  (lit "This command is only usable before registration")
                  (ABool false) ANone ;;;
            ret false
        | None => guarded_call func (DProto proto) line ;;; ret true
        end
      else
        raise (NameError
                 (lit "local variable 'proto_or_user' referenced before assignment"))
  end.

Fixpoint process_lines (proto : nat) (lines : list BaseFrame) : M unit :=
  match lines with
  | [] => ret tt
  | line :: r =>
      go_on <- process_line proto line ;;
      if go_on : bool then process_lines proto r else ret tt
  end.

Definition process (proto : nat) (data : bytes) : M unit :=
  lines <- lift (frame <- Frame.parse data ;; iter frame)%result ;;
  process_lines proto lines.

(** [conn_timeout(proto)] *)
Definition conn_timeout (proto : nat) : M unit :=
  pu <- gets (fun w => user (the_proto w proto)) ;;
  match pu with
  | Some _ =>
      modify (with_proto proto (fun pr =>
        set_callbacks (dict_del (lit "signon") (callbacks pr)) pr))
  | None =>
      error (DProto proto) (lit "*") (lit "Timed out") (ABool true) ANone
  end.

End WithText.
End DCPServer.

(** ** server.py: class DCPProto, the callbacks of the event loop *)

Module DCPProtocol.
Section WithText.
Context {T : Text}.
Variable extern : handler -> dest -> BaseFrame -> M unit.

(** [DCPProto()] followed by [connection_made]: a new session with its
    signon timer. *)
Definition connection_made : M nat :=
  p <- gets (fun w => length (protos w)) ;;
  modify (fun w =>
    mkWorld (name w) (motd w) (users w) (user_objs w)
            (protos w ++ [mkProto [] None [] []]) (timers w)) ;;;
  cb <- call_later 60 (ConnTimeout p) ;;
  modify (with_proto p (fun pr =>
    set_callbacks (dict_set (lit "signon") cb (callbacks pr)) pr)) ;;;
  ret p.

(** The [try] statement of [data_received]. *)
Definition process_guarded (self : nat) (data : bytes) : M unit :=
  try_except (DCPServer.process extern self data) (fun e =>
    if is_ParserError e
    then
      DCPProto.error self (lit "*") (lit "Parser failure")
                     (ADict [(lit "reason", [exn_str e])]) (ABool false)
    else
      DCPProto.error self (lit "*")
                     (lit "Internal server error (This isn't your fault)")
                     (ABool true) ANone).

Definition data_received (self : nat) (data : bytes) : M unit :=
  b <- gets (fun w => buf (the_proto w self)) ;;
  let data := b ++ data in
  if negb (endswith Byte.eqb data [NUL; NUL])
  then
    let '(data, sep, rest) := rpartition [NUL; NUL] data in
    modify (with_proto self (set_buf rest)) ;;;
    match sep with
    | _ :: _ => process_guarded self (data ++ sep)
    | [] => modify (with_proto self (set_buf data))
    end
  else process_guarded self data.

End WithText.
End DCPProtocol.

(** ** Vocabulary of the statements *)

(** The key/value section of a binary frame as the parser reads it: the
    tokens after the command, padded, two by two, keys lowercased. *)
Definition decoded {T : Text} (kvs : list (bytes * bytes)) : list (str * str) :=
  map (fun '(k, v) => (lower (decode k), decode v)) kvs.

Definition kv_section {T : Text} (text : bytes) : list (str * str) :=
  decoded (pairs (skipn 3 (Frame.pad (Frame.tokenise text)))).

(** The length field of a binary frame. *)
Definition declared_len (text : bytes) : Z := int_from_bytes (firstn 2 text).

(** A pair the accumulator already holds. *)
Definition seen (acc : kval) (p : str * str) : Prop :=
  str_in (snd p) (kval_at (fst p) acc) = true.

(** The exception of the duplicate check. *)
Definition duplicate_error : exn :=
  ParserValueError (lit "Duplicate value not allowed").

(** The values [randint(a, b)] can return: every integer from [a] to [b],
    both included. *)
Definition randint_values (a b : Z) : list Z :=
  map (fun i => a + Z.of_nat i) (seq 0 (Z.to_nat (b - a + 1))).

(** ** The ASCII fragment of the text builtins

    On bytes and code points below 128, [decode] and [encode] are the
    identity and [lower] maps A-Z to a-z.  This instance is used only to
    run the codec and the server on ASCII inputs; a byte or code point
    outside that range is mapped to U+FFFD or to [?], which is what Python
    does for an invalid byte and for an unencodable character. *)

Definition ascii_decode (b : bytes) : str :=
  map (fun x => let n := Byte.to_N x in
                if (n <? 128)%N then n else 65533%N) b.

Definition ascii_encode (s : str) : bytes :=
  map (fun c => if (c <? 128)%N then byte_of_Z (Z.of_N c) else x3f) s.

Definition ascii_lower (s : str) : str :=
  map (fun c => if ((65 <=? c) && (c <=? 90))%N then (c + 32)%N else c) s.

#[export] Instance ascii_text : Text := {
  decode := ascii_decode;
  encode := ascii_encode;
  lower := ascii_lower
}.

(** [json.loads] on a text whose first character begins neither a JSON
    value nor JSON whitespace: the scanner fails at position 0 with this
    message.  The instance is used on such texts only, so [dict()] of a
    sequence is never reached. *)
#[export] Instance json_no_value : Json := {
  json_loads := fun _ =>
    inl (lit "Expecting value: line 1 column 1 (char 0)");
  dict_of_seq := fun _ => None
}.

(** ** Inputs of the examples *)

(** The bytes of a frame with the given length field and tokens: every
    token is followed by a NUL, and one more NUL ends the frame. *)
Definition wire (hi lo : byte) (toks : list bytes) : bytes :=
  [hi; lo; NUL] ++ flat_map (fun t => t ++ [NUL]) toks ++ [NUL].

(** A frame of 1413 bytes whose length field says 0. *)
Definition long_frame : bytes :=
  wire x00 x00 [blit "s"; blit "t"; blit "c"; blit "k"; repeat x61 1400].

(** A frame of 1402 bytes whose length field says 1402. *)
Definition honest_long_frame : bytes :=
  wire x05 x7a [blit "s"; blit "t"; blit "c"; blit "k"; repeat x61 1389].

(** A JSON text of 1401 bytes. *)
Definition long_json : bytes := repeat x20 1400 ++ [NUL].

(** The tokens s, t, c, the empty key with value [*], and the empty token
    the terminator leaves: padding repeats the pair. *)
Definition star_twice : bytes :=
  wire x00 x0d [blit "s"; blit "t"; blit "c"; []; blit "*"].

(** Key k with value v, twice. *)
Definition value_twice : bytes :=
  wire x00 x12 [blit "s"; blit "t"; blit "c";
                blit "k"; blit "v"; blit "K"; blit "v"].

(** Key k with value v: with the empty token the terminator leaves, three
    tokens follow the command. *)
Definition one_pair : bytes :=
  wire x00 x0e [blit "s"; blit "t"; blit "c"; blit "k"; blit "v"].

(** Key k and nothing after it: with the empty token the terminator
    leaves, two tokens follow the command. *)
Definition lone_key : bytes :=
  wire x00 x0c [blit "s"; blit "t"; blit "c"; blit "k"].

(** 28 bytes that are no JSON document. *)
Definition not_json : bytes := blit "?? this is no JSON document" ++ [NUL].

Definition pong_frame : BaseFrame :=
  mkFrame (lit "alice") (lit "*") (lit "pong") [].

Definition message_frame : BaseFrame :=
  mkFrame (lit "alice") (lit "bob") (lit "message")
          [(lit "body", [lit "hi"])].

(** The frame [DCPProto.error] builds. *)
Definition error_frame (w : world) (target command reason : str)
  : BaseFrame :=
  mkFrame (lit "=" ++ name w) target (lit "error")
          [(lit "command", [command]); (lit "reason", [reason])].

(** The frame [ping_timeout] sends. *)
Definition ping_frame (w : world) (target : str) (now : Z) : BaseFrame :=
  mkFrame (lit "=" ++ name w) target (lit "ping")
          [(lit "time", [str_of_int now])].

(** The frame [user_enter] sends first. *)
Definition signon_frame (w : world) (target : str) (now : Z) : BaseFrame :=
  mkFrame (lit "=" ++ name w) target (lit "signon")
          [(lit "name", [name w]);
           (lit "time", [str_of_int now]);
           (lit "version", [lit "Minnow prototype server"; lit "v0.1-prealpha"]);
           (lit "options", [])].

(** A server with a MOTD of one block and no session. *)
Definition fresh : world :=
  mkWorld servname [[lit "Welcome to minnow"]] [] [] [] [].

(** Two registered users, each on its own session: alice holds
    [user:auspex] and has a ping pending, bob holds no ACL. *)
Definition alice : User :=
  mkUser 0 (lit "alice") (lit "Alice") [lit "user:auspex"] [] [] [] true.

Definition bob : User :=
  mkUser 1 (lit "bob") (lit "Bob") [] [] [] [] false.

Definition two_users : world :=
  mkWorld servname [[lit "Welcome to minnow"]]
          [(lit "alice", 0%nat); (lit "bob", 1%nat)]
          [alice; bob]
          [mkProto [] (Some 0%nat) [(lit "ping", 0%nat)] [];
           mkProto [] (Some 1%nat) [(lit "ping", 1%nat)] []]
          [mkTimer (Qmake 4500 100) (PingTimeout 0) false;
           mkTimer (Qmake 6000 100) (PingTimeout 1) false].

(** The bytes of alice's pong. *)
Definition pong_bytes : bytes :=
  wire x00 x11 [blit "alice"; blit "*"; blit "pong"].

(** A frame of 10 bytes whose length field says 1500. *)
Definition declared_1500 : bytes :=
  wire x05 xdc [blit "a"; blit "b"; blit "c"].

(** alice asks about bob, bob asks about alice. *)
Definition whois_bob : BaseFrame :=
  mkFrame (lit "alice") (lit "bob") (lit "whois") [].

Definition whois_alice : BaseFrame :=
  mkFrame (lit "bob") (lit "alice") (lit "whois") [].

(** ** Vocabulary of the further properties *)

(** A key/value dict as the binary parser builds it: no key twice, and
    under every key at least one value and no value twice. *)
Definition kval_wf (kv : kval) : Prop :=
  NoDup (map fst kv)
  /\ Forall (fun e : str * list str => snd e <> [] /\ NoDup (snd e)) kv.

(** The values the pairs [ps] give to the key [k], in their order. *)
Definition values_of (k : str) (ps : list (str * str)) : list str :=
  map snd (filter (fun p => str_eqb (fst p) k) ps).

(** The number of NUL bytes. *)
Definition nul_count (l : bytes) : nat := count_occ Byte.byte_eq_dec l NUL.

(** The keys K and k with one value each. *)
Definition two_values : bytes :=
  wire x00 x14 [blit "s"; blit "t"; blit "c";
                blit "K"; blit "v1"; blit "k"; blit "v2"].

(** The frame [one_pair] with another header: a length field of 1400 and
    a byte that is no NUL after it. *)
Definition one_pair_odd_header : bytes :=
  x05 :: x78 :: xff :: skipn 3 one_pair.

(** The tokens of a frame that [__bytes__] joins before the final NUL. *)
Definition tokens_of (f : BaseFrame) : list str :=
  [source f; target f; command f]
    ++ flat_map (fun '(k, v) => flat_map (fun v2 => [k; v2]) v) (fkval f).

(** The key/value pairs of a dict, key by key. *)
Definition flat_pairs (kv : kval) : list (str * str) :=
  flat_map (fun e : str * list str => map (pair (fst e)) (snd e)) kv.

(** The encoded pair of a pair of strings. *)
Definition enc2 {T : Text} (p : str * str) : bytes * bytes :=
  (encode (fst p), encode (snd p)).

(** A pair that comes back from its encoding as it was. *)
Definition good {T : Text} (p : str * str) : Prop :=
  lower (decode (encode (fst p))) = fst p /\ decode (encode (snd p)) = snd p.

(** The target of the frames a session sends about itself: the name of
    its user, or the star while it has none. *)
Definition session_target (w : world) (p : nat) : str :=
  match user (the_proto w p) with
  | Some u => user_name (the_user w u)
  | None => lit "*"
  end.

(** The session an error for [d] is written to. *)
Definition dest_session (w : world) (d : dest) : nat :=
  match d with
  | DUser u => user_proto (the_user w u)
  | DProto p => p
  end.

(** The first argument [process] gives to the handler [func]: the user of
    the session for a handler that requires signon, the session itself for
    the others; None when the session is not in the state [func]
    requires. *)
Definition proto_or_user (func : handler) (w : world) (p : nat)
  : option dest :=
  match user (the_proto w p) with
  | Some u => if Z.eqb (annotation func) SIGNON then Some (DUser u) else None
  | None => if Z.eqb (annotation func) SIGNON then None else Some (DProto p)
  end.

(** Handlers for the examples: they do nothing, or raise [e]. *)
Definition idle_handlers : handler -> dest -> BaseFrame -> M unit :=
  fun _ _ _ => ret tt.

Definition failing_handlers (e : exn) : handler -> dest -> BaseFrame -> M unit :=
  fun _ _ _ => raise e.

(** Frames of alice: an unknown command, a signon, a message. *)
Definition frobnicate_line : BaseFrame :=
  mkFrame (lit "alice") (lit "*") (lit "frobnicate") [].

Definition signon_line : BaseFrame :=
  mkFrame (lit "alice") (lit "*") (lit "signon") [].

Definition group_enter_line : BaseFrame :=
  mkFrame (lit "alice") (lit "#lobby") (lit "group-enter") [].

(** A server with one session that has not signed on. *)
Definition one_session : world :=
  snd (DCPProtocol.connection_made fresh).

(** [l] holds [sep] somewhere. *)
Definition holds (sep l : bytes) : Prop :=
  exists a b, l = a ++ sep ++ b.

(** Bytes without a terminator, and bytes with one frame and the start of
    the next. *)
Definition half_frame : bytes := blit "half a frame" ++ [NUL].

Definition frame_and_a_half : bytes := pong_bytes ++ blit "half".

(** ** server.py: DCPServer.__init__, the message of the day *)

Section Motd.

(** [line.rstrip()] *)
Variable rstrip : str -> str.

(** What the loop makes of a line before it counts it: stripped, a blank
    in place of nothing, cut at 200 characters. *)
Definition motd_line (line : str) : str :=
  let line := rstrip line in
  let line := match line with [] => lit " " | _ => line end in
  if len line >? 200 then firstn 200 line else line.

(** The loop over the lines of motd.txt with its variables [curlen],
    [curframe] and [self.motd]; it ends with [self.motd.append(curframe)],
    also when it is left by [break]. *)
Fixpoint motd_loop (baselen : Z) (lines : list str) (curlen : Z)
    (curframe : list str) (motd : list (list str)) : list (list str) :=
  match lines with
  | [] => motd ++ [curframe]
  | [] :: _ => motd ++ [curframe]
  | line :: r =>
      let line := motd_line line in
      let llen := len line + 6 in
      let '(motd, curframe, curlen) :=
        if llen + curlen >? MAXFRAME
        then (motd ++ [curframe], [], baselen)
        else (motd, curframe, curlen) in
      motd_loop baselen r (curlen + llen) (curframe ++ [line]) motd
  end.

(** [self.motd] after [DCPServer(name)]; [file] is what iterating
    motd.txt yields, None when the file cannot be opened. *)
Definition load_motd (name : str) (file : option (list str))
  : list (list str) :=
  match file with
  | None => []
  | Some lines =>
      let baselen := len name + 128 in
      motd_loop baselen lines baselen [] []
  end.

(** [DCPServer(name)]: no user, no session. *)
Definition init (name : str) (file : option (list str)) : world :=
  mkWorld name (load_motd name file) [] [] [] [].

End Motd.

(** The items of [lines] before the first one that is the empty str,
    where the loop takes its [break]; iterating a file yields no such
    item, a blank line being its line end. *)
Fixpoint until_blank (lines : list str) : list str :=
  match lines with
  | [] => []
  | [] :: _ => []
  | line :: r => line :: until_blank r
  end.

(** What [__init__] counts for a block of lines. *)
Definition block_cost (block : list str) : Z :=
  fold_right (fun line s => len line + 6 + s) 0 block.

(** A block within the count, made of lines of 1 to 200 characters. *)
Definition block_ok (baselen : Z) (block : list str) : Prop :=
  baselen + block_cost block <= MAXFRAME
  /\ Forall (fun line => 1 <= len line <= 200) block.

(** The frame [cmd_motd] sends for block [i]. *)
Definition motd_kval (w : world) (ib : nat * list str) : kval :=
  [(lit "text", snd ib);
   (lit "multipart", [lit "*"]);
   (lit "part", [str_of_int (Z.of_nat (fst ib) + 1)]);
   (lit "total", [str_of_int (len (motd w))])].

Definition motd_frames (w : world) (target : str) : list BaseFrame :=
  match motd w with
  | [] => [mkFrame (lit "=" ++ name w) target (lit "motd") []]
  | m =>
      map (fun ib => mkFrame (lit "=" ++ name w) target (lit "motd")
                             (motd_kval w ib))
          (enumerate m)
  end.

(** [rstrip] for text whose only whitespace is the blank and the line
    feed. *)
Definition rstrip_ascii (s : str) : str :=
  rev ((fix drop (l : str) : str :=
          match l with
          | c :: r => if N.eqb c 32 || N.eqb c 10 then drop r else l
          | [] => []
          end) (rev s)).

(** A motd.txt of three lines, and a server that loaded it with alice
    signed on. *)
Definition motd_txt : list str :=
  [lit "Welcome to minnow  " ++ [10%N]; [10%N]; lit "Be kind"].

Definition motd_server : world :=
  mkWorld servname (load_motd rstrip_ascii servname (Some motd_txt))
          (users two_users) (user_objs two_users) (protos two_users)
          (timers two_users).

(** ** server.py: leaving *)

Section Leaving.

(** [Group.member_del(user, permanent=True)] of the absent group.py, and
    [repr] of a str. *)
Variable member_del : Group -> nat -> M unit.
Variable repr : str -> str.

(** [DCPServer.user_exit(user)] *)
Definition user_exit (user : option nat) : M unit :=
  match user with
  | None => ret tt
  | Some u =>
      nm <- gets (fun w => user_name (the_user w u)) ;;
      us <- gets users ;;
      match dict_get nm us with
      | None => raise (KeyError (repr nm))
      | Some _ =>
          modify (fun w =>
            mkWorld (name w) (motd w) (dict_del nm (users w)) (user_objs w)
                    (protos w) (timers w)) ;;;
          gs <- gets (fun w => user_groups (the_user w u)) ;;
          for_each gs (fun g => member_del g u) ;;;
          cbs <- gets (fun w =>
                   callbacks (the_proto w (user_proto (the_user w u)))) ;;
          for_each (map snd cbs) cancel
      end
  end.

(** [DCPProto.connection_lost(exc)] *)
Definition connection_lost (self : nat) : M unit :=
  u <- gets (fun w => user (the_proto w self)) ;;
  user_exit u.

End Leaving.

(** The timers after [cancel] has been called on each of [cbs]. *)
Definition cancel_all (cbs : list nat) (ts : list timer) : list timer :=
  fold_left
    (fun ts cb =>
       let t := nth cb ts no_timer in
       set_nth cb (mkTimer (delay t) (act t) true) ts)
    cbs ts.

(** [member_del] and [repr] for the examples: alice and bob are in no
    group, and their handles hold no quote. *)
Definition no_member_del : Group -> nat -> M unit := fun _ _ => ret tt.

Definition repr_plain (s : str) : str := lit "'" ++ s ++ lit "'".

(** The two users after bob's handle has been released. *)
Definition bob_gone : world :=
  mkWorld servname (motd two_users) [(lit "alice", 0%nat)]
          (user_objs two_users) (protos two_users) (timers two_users).

(** alice asks about a group, and about a handle nobody holds. *)
Definition whois_lobby : BaseFrame :=
  mkFrame (lit "alice") (lit "#lobby") (lit "whois") [].

Definition whois_carol : BaseFrame :=
  mkFrame (lit "alice") (lit "carol") (lit "whois") [].

(** A frame of alice whose command has 1315 characters and names no
    handler. *)
Definition long_command_line : BaseFrame :=
  mkFrame (lit "alice") (lit "*") (repeat 120%N 1315) [].

(** * Properties of the codec *)

Section Codec.
Context {T : Text}.

Lemma str_eqb_eq (a b : str) : str_eqb a b = true <-> a = b.
Proof.
  unfold str_eqb. revert b.
  induction a as [|x a IH]; intros [|y b]; simpl; split;
    try congruence; try reflexivity.
  - rewrite andb_true_iff, N.eqb_eq, IH. intros [-> ->]. reflexivity.
  - intros E. injection E as -> ->. rewrite N.eqb_refl.
    apply IH. reflexivity.
Qed.

Lemma str_eqb_refl (a : str) : str_eqb a a = true.
Proof. apply str_eqb_eq. reflexivity. Qed.

Lemma str_eqb_neq (a b : str) : str_eqb a b = false <-> a <> b.
Proof.
  rewrite <- str_eqb_eq. destruct (str_eqb a b); split; congruence.
Qed.

Lemma str_in_In (x : str) (l : list str) : str_in x l = true <-> In x l.
Proof.
  unfold str_in. rewrite existsb_exists. split.
  - intros (y & Hy & E). apply str_eqb_eq in E. subst. assumption.
  - intros H. exists x. split; [assumption | apply str_eqb_refl].
Qed.

Lemma dict_get_set {V} (k k' : str) (x : V) (d : dict V) :
  dict_get k' (dict_set k x d)
  = if str_eqb k' k then Some x else dict_get k' d.
Proof.
  induction d as [|[k0 v0] d IH]; simpl.
  - reflexivity.
  - destruct (str_eqb k k0) eqn:E; simpl.
    + apply str_eqb_eq in E. subst k0.
      destruct (str_eqb k' k); reflexivity.
    + destruct (str_eqb k' k0) eqn:E0.
      * apply str_eqb_eq in E0. subst k0.
        destruct (str_eqb k' k) eqn:E1; [|reflexivity].
        apply str_eqb_eq in E1. subst k'.
        rewrite str_eqb_refl in E. discriminate.
      * apply IH.
Qed.

Lemma kval_at_append (k k' v : str) (d : kval) :
  kval_at k' (kval_append k v d)
  = if str_eqb k' k then kval_at k d ++ [v] else kval_at k' d.
Proof.
  unfold kval_at at 1, kval_append. rewrite dict_get_set.
  destruct (str_eqb k' k); reflexivity.
Qed.

Lemma seen_append (k v : str) (acc : kval) (p : str * str) :
  seen (kval_append k v acc) p <-> p = (k, v) \/ seen acc p.
Proof.
  destruct p as [k' v']. unfold seen. simpl. rewrite kval_at_append.
  destruct (str_eqb k' k) eqn:E.
  - apply str_eqb_eq in E. subst k'. unfold str_in.
    rewrite existsb_app. simpl. rewrite orb_false_r, orb_true_iff.
    rewrite str_eqb_eq. split.
    + intros [H | ->]; [right | left]; auto.
    + intros [H | H]; [right | left]; congruence.
  - apply str_eqb_neq in E. split.
    + auto.
    + intros [H | H]; [congruence | assumption].
Qed.

Lemma pair_eq_dec (p q : str * str) : {p = q} + {p <> q}.
Proof. repeat decide equality. Qed.

Lemma fill_kval_cons (k v : bytes) (r : list (bytes * bytes)) (acc : kval) :
  Frame.fill_kval ((k, v) :: r) acc
  = if str_in (decode v) (kval_at (lower (decode k)) acc)
    then Raise duplicate_error
    else Frame.fill_kval r (kval_append (lower (decode k)) (decode v) acc).
Proof. reflexivity. Qed.

(** The loop stops with the duplicate error as soon as a pair comes a
    second time. *)
Lemma fill_kval_dup (kvs : list (bytes * bytes)) (acc : kval) :
  ~ NoDup (decoded kvs) \/ (exists p, In p (decoded kvs) /\ seen acc p) ->
  Frame.fill_kval kvs acc = Raise duplicate_error.
Proof.
  revert acc. induction kvs as [|[k v] r IH]; intros acc H.
  - destruct H as [H | (p & [] & _)]. exfalso. apply H. constructor.
  - rewrite fill_kval_cons.
    destruct (str_in (decode v) (kval_at (lower (decode k)) acc)) eqn:E;
      [reflexivity|].
    apply IH. set (p0 := (lower (decode k), decode v)).
    destruct H as [H | (p & Hin & Hs)].
    + destruct (in_dec pair_eq_dec p0 (decoded r)) as [Hin | Hnin].
      * right. exists p0. split; [assumption|].
        apply seen_append. left. reflexivity.
      * left. intros Hnd. apply H. simpl. constructor; assumption.
    + simpl in Hin. destruct Hin as [<- | Hin].
      * unfold seen in Hs. simpl in Hs. congruence.
      * right. exists p. split; [assumption|].
        apply seen_append. right. assumption.
Qed.

(** Without a repeated pair the loop runs to its end. *)
Lemma fill_kval_ok (kvs : list (bytes * bytes)) (acc : kval) :
  NoDup (decoded kvs) ->
  (forall p, In p (decoded kvs) -> ~ seen acc p) ->
  exists kv, Frame.fill_kval kvs acc = Ok kv.
Proof.
  revert acc. induction kvs as [|[k v] r IH]; intros acc Hnd Hfresh.
  - exists acc. reflexivity.
  - rewrite fill_kval_cons. simpl in Hnd. inversion Hnd as [|p0 l Hnin Hnd']. subst.
    destruct (str_in (decode v) (kval_at (lower (decode k)) acc)) eqn:E.
    + exfalso. apply (Hfresh (lower (decode k), decode v)).
      * left. reflexivity.
      * exact E.
    + apply IH; [assumption|].
      intros p Hin Hs. apply seen_append in Hs. destruct Hs as [-> | Hs].
      * contradiction.
      * apply (Hfresh p); [right; assumption | assumption].
Qed.

Lemma fill_kval_app (l1 l2 : list (bytes * bytes)) (acc : kval) :
  Frame.fill_kval (l1 ++ l2) acc
  = (kv <- Frame.fill_kval l1 acc ;; Frame.fill_kval l2 kv)%result.
Proof.
  revert acc. induction l1 as [|[k v] r IH]; intros acc.
  - reflexivity.
  - simpl app. rewrite !fill_kval_cons.
    destruct (str_in _ _); [reflexivity | apply IH].
Qed.

(** The only exception of the loop is the duplicate error. *)
Lemma fill_kval_raise (kvs : list (bytes * bytes)) (acc : kval) (e : exn) :
  Frame.fill_kval kvs acc = Raise e -> e = duplicate_error.
Proof.
  revert acc. induction kvs as [|[k v] r IH]; intros acc.
  - discriminate.
  - rewrite fill_kval_cons. destruct (str_in _ _).
    + congruence.
    + apply IH.
Qed.

Lemma parse_complete (text : bytes) :
  endswith Byte.eqb text Frame.terminator = true ->
  10 <= len text ->
  declared_len text <= MAXFRAME ->
  3 < len (Frame.tokenise text) ->
  Frame.parse text
  = (kv <- Frame.fill_kval
             (pairs (skipn 3 (Frame.pad (Frame.tokenise text)))) [] ;;
     Ok (mkFrame (lower (decode (nth 0 (Frame.tokenise text) [])))
                 (lower (decode (nth 1 (Frame.tokenise text) [])))
                 (lower (decode (nth 2 (Frame.tokenise text) [])))
                 kv))%result.
Proof.
  intros He Hl Hd Ht. unfold Frame.parse, declared_len in *.
  rewrite He. cbn [negb orb].
  destruct (Z.ltb_spec (len text) 10); [lia|].
  destruct (Z.gtb_spec (int_from_bytes (firstn 2 text)) MAXFRAME); [lia|].
  destruct (Z.ltb_spec (len (Frame.tokenise text)) 3); [lia|].
  destruct (Z.gtb_spec (len (Frame.tokenise text)) 3); [|lia].
  reflexivity.
Qed.

(** Every exception of the binary parser is one of the codec's. *)
Lemma parse_raises_parser_errors (text : bytes) (e : exn) :
  Frame.parse text = Raise e -> is_ParserError e = true.
Proof.
  unfold Frame.parse.
  destruct (negb _ || _); [intros [= <-]; reflexivity|].
  destruct (_ >? MAXFRAME); [intros [= <-]; reflexivity|].
  destruct (_ <? 3); [intros [= <-]; reflexivity|].
  destruct (_ >? 3); [|discriminate].
  destruct (Frame.fill_kval _ _) eqn:E; simpl; [discriminate|].
  intros [= <-]. apply fill_kval_raise in E. subst. reflexivity.
Qed.

Lemma length_pad (toks : list bytes) :
  (length toks <= length (Frame.pad toks) <= length toks + 1)%nat.
Proof.
  unfold Frame.pad. destruct (Nat.odd _).
  - rewrite length_app. simpl. lia.
  - lia.
Qed.

Lemma pairs_nonempty {A} (l : list A) :
  pairs l <> [] -> (2 <= length l)%nat.
Proof.
  destruct l as [|a [|b l]]; simpl; try congruence. intros _. lia.
Qed.

Lemma repeated_not_NoDup {A} (p : A) (l1 l2 l3 : list A) :
  ~ NoDup (l1 ++ p :: l2 ++ p :: l3).
Proof.
  intros H. apply NoDup_remove_2 in H. apply H.
  rewrite !in_app_iff. right. right. left. reflexivity.
Qed.

(** C7. A binary frame whose key/value section holds the same value twice
    under the same lowercased key does not parse: the parser raises one of
    the codec's errors, and for a frame that passes the completeness and
    size checks it is the duplicate-value error. *)
Theorem duplicate_value_fails_parse (text : bytes) (k v : str)
    (l1 l2 l3 : list (str * str)) :
  kv_section text = l1 ++ (k, v) :: l2 ++ (k, v) :: l3 ->
  (exists e, Frame.parse text = Raise e /\ is_ParserError e = true)
  /\ (endswith Byte.eqb text Frame.terminator = true ->
      10 <= len text ->
      declared_len text <= MAXFRAME ->
      Frame.parse text = Raise duplicate_error).
Proof.
  intros Hsec.
  assert (Hdup : ~ NoDup (kv_section text))
    by (rewrite Hsec; apply repeated_not_NoDup).
  assert (Hlen : 3 < len (Frame.tokenise text)).
  { unfold kv_section, decoded in Hsec.
    assert (Hne : pairs (skipn 3 (Frame.pad (Frame.tokenise text))) <> []).
    { intros E. rewrite E in Hsec. destruct l1; discriminate. }
    apply pairs_nonempty in Hne. rewrite length_skipn in Hne.
    pose proof (length_pad (Frame.tokenise text)). unfold len. lia. }
  assert (Hmain : endswith Byte.eqb text Frame.terminator = true ->
                  10 <= len text -> declared_len text <= MAXFRAME ->
                  Frame.parse text = Raise duplicate_error).
  { intros He Hl Hd. rewrite parse_complete by assumption.
    unfold kv_section in Hdup. rewrite fill_kval_dup by (left; exact Hdup).
    reflexivity. }
  split; [|exact Hmain].
  destruct (Frame.parse text) as [f|e] eqn:E.
  - exfalso.
    destruct (endswith Byte.eqb text Frame.terminator) eqn:He.
    + destruct (Z.ltb_spec (len text) 10) as [Hl|Hl].
      * unfold Frame.parse in E. rewrite He in E. cbn [negb orb] in E.
        destruct (Z.ltb_spec (len text) 10); [discriminate | lia].
      * destruct (Z.gtb_spec (declared_len text) MAXFRAME) as [Hd|Hd].
        -- unfold Frame.parse, declared_len in *. rewrite He in E.
           cbn [negb orb] in E.
           destruct (Z.ltb_spec (len text) 10); [discriminate|].
           destruct (Z.gtb_spec (int_from_bytes (firstn 2 text)) MAXFRAME);
             [discriminate | lia].
        -- discriminate (Hmain eq_refl Hl Hd).
    + unfold Frame.parse in E. rewrite He in E. discriminate.
  - exists e. split; [reflexivity|].
    apply parse_raises_parser_errors with text. exact E.
Qed.

End Codec.

Ltac by_compute :=
  vm_compute; first [reflexivity | discriminate | intro; discriminate].

Lemma duplicate_value_fails_parse_witness :
  kv_section value_twice
  = [] ++ (lit "k", lit "v") :: [] ++ (lit "k", lit "v") :: [([], lit "*")]
  /\ Frame.parse value_twice = Raise duplicate_error.
Proof.
  assert (H : kv_section value_twice
              = [] ++ (lit "k", lit "v") :: []
                   ++ (lit "k", lit "v") :: [([], lit "*")])
    by reflexivity.
  split; [exact H|].
  apply (proj2 (duplicate_value_fails_parse value_twice _ _ _ _ _ H));
    by_compute.
Defined.

(** ** The padding of an odd number of tokens *)

Section Padding.
Context {T : Text}.

Lemma pairs_app_even {A} (l1 l2 : list A) :
  Nat.even (length l1) = true -> pairs (l1 ++ l2) = pairs l1 ++ pairs l2.
Proof.
  intros H. apply Nat.even_spec in H. destruct H as [n Hn].
  revert l1 Hn. induction n as [|n IH]; intros l1 Hn.
  - destruct l1; [reflexivity | simpl in Hn; lia].
  - destruct l1 as [|a [|b l1]]; simpl in Hn; try lia.
    simpl. f_equal. apply IH. lia.
Qed.

Lemma pairs_snoc_odd {A} (l : list A) (x d : A) :
  Nat.odd (length l) = true ->
  pairs (l ++ [x]) = pairs (removelast l) ++ [(last l d, x)].
Proof.
  intros H.
  assert (Hne : l <> []) by (intros ->; discriminate).
  rewrite (app_removelast_last d Hne) at 1.
  rewrite <- app_assoc. simpl app.
  rewrite pairs_app_even; [reflexivity|].
  rewrite (app_removelast_last d Hne), length_app in H. simpl in H.
  rewrite Nat.add_1_r, Nat.odd_succ in H. exact H.
Qed.

Lemma last_skipn {A} (n : nat) (l : list A) (d : A) :
  (n < length l)%nat -> last (skipn n l) d = last l d.
Proof.
  revert l. induction n as [|n IH]; intros l H.
  - reflexivity.
  - destruct l as [|a l]; simpl in H; [lia|].
    simpl skipn. rewrite IH by lia.
    destruct l; [simpl in H; lia | reflexivity].
Qed.

Lemma pad_odd (toks : list bytes) :
  Nat.odd (length toks - 3) = true ->
  Frame.pad toks = toks ++ [blit "*"].
Proof. unfold Frame.pad. intros ->. reflexivity. Qed.

Lemma odd_residual_length (toks : list bytes) :
  Nat.odd (length toks - 3) = true -> (3 < length toks)%nat.
Proof.
  intros H. destruct (Nat.ltb_spec 3 (length toks)); [assumption|].
  replace (length toks - 3)%nat with 0%nat in H by lia. discriminate.
Qed.

(** The padded key/value tokens: the pairs before the last token, then the
    last token with the pad. *)
Lemma padded_pairs (toks : list bytes) :
  Nat.odd (length toks - 3) = true ->
  pairs (skipn 3 (Frame.pad toks))
  = pairs (removelast (skipn 3 toks)) ++ [(last toks [], blit "*")].
Proof.
  intros H. pose proof (odd_residual_length toks H) as Hl.
  rewrite pad_odd by assumption.
  rewrite skipn_app.
  replace (3 - length toks)%nat with 0%nat by lia. simpl (skipn 0 _).
  etransitivity.
  - apply pairs_snoc_odd with (d := []). rewrite length_skipn. exact H.
  - rewrite last_skipn by assumption. reflexivity.
Qed.

(** The padding on the parser's own count.  For a binary frame that passes
    the completeness and size checks and has, in the token list the parser
    holds, an odd number of tokens after the command, the parser pads the
    tokens with exactly one star.  When no key/value pair, the padded one
    included, comes twice, parsing succeeds and the star is the last value
    of the final key; otherwise the parser raises the duplicate-value
    error.  The parser's list holds the empty token the terminator leaves,
    so its count is odd when an even number of tokens was sent. *)
Lemma odd_tokens_padded_with_star (text : bytes) :
  endswith Byte.eqb text Frame.terminator = true ->
  10 <= len text ->
  declared_len text <= MAXFRAME ->
  Nat.odd (length (Frame.tokenise text) - 3) = true ->
  Frame.pad (Frame.tokenise text) = Frame.tokenise text ++ [blit "*"]
  /\ (NoDup (kv_section text) ->
      exists f vs,
        Frame.parse text = Ok f
        /\ kval_at (lower (decode (last (Frame.tokenise text) []))) (fkval f)
           = vs ++ [decode (blit "*")])
  /\ (~ NoDup (kv_section text) ->
      Frame.parse text = Raise duplicate_error).
Proof.
  intros He Hl Hd Hodd.
  pose proof (odd_residual_length _ Hodd) as Hlen.
  assert (Hp := parse_complete text He Hl Hd ltac:(unfold len; lia)).
  split; [apply pad_odd; assumption|]. split.
  - intros Hnd. unfold kv_section in Hnd.
    destruct (@fill_kval_ok T _ [] Hnd) as [kv Hkv].
    { intros p _ Hs. unfold seen in Hs. destruct p. discriminate. }
    rewrite Hp, Hkv. simpl rbind.
    eexists. exists (kval_at (lower (decode (last (Frame.tokenise text) [])))
                        (match Frame.fill_kval
                                 (pairs (removelast
                                           (skipn 3 (Frame.tokenise text))))
                                 [] with
                         | Ok kv' => kv'
                         | Raise _ => []
                         end)).
    split; [reflexivity|]. simpl fkval.
    rewrite padded_pairs, fill_kval_app in Hkv by assumption.
    destruct (Frame.fill_kval (pairs (removelast _)) []) as [kv'|e];
      unfold rbind in Hkv; [|discriminate].
    rewrite fill_kval_cons in Hkv. destruct (str_in _ _); [discriminate|].
    simpl in Hkv. injection Hkv as <-.
    rewrite kval_at_append, str_eqb_refl. reflexivity.
  - intros Hdup. rewrite Hp.
    unfold kv_section in Hdup. rewrite fill_kval_dup by (left; exact Hdup).
    reflexivity.
Qed.

End Padding.

Lemma odd_tokens_padded_with_star_witness :
  Nat.odd (length (Frame.tokenise one_pair) - 3) = true
  /\ Frame.pad (Frame.tokenise one_pair)
     = Frame.tokenise one_pair ++ [blit "*"]
  /\ exists f vs,
       Frame.parse one_pair = Ok f
       /\ kval_at (lower (decode (last (Frame.tokenise one_pair) [])))
                  (fkval f)
          = vs ++ [decode (blit "*")].
Proof.
  split; [reflexivity|].
  destruct (odd_tokens_padded_with_star one_pair)
    as (Hpad & Hok & _); try by_compute.
  split; [exact Hpad|]. apply Hok.
  assert (E : kv_section one_pair = [(lit "k", lit "v"); ([], lit "*")])
    by reflexivity.
  rewrite E. repeat constructor; simpl; intuition discriminate.
Defined.

(** Two frames.  In the first, three tokens follow the command in the
    parser's list; the pad repeats the pair the frame already holds, and
    parsing fails.  In the second, the key k is sent without a value; the
    parser counts two tokens after the command, does not pad, and k
    receives the empty value. *)
Lemma odd_tokens_parse_can_fail :
  (endswith Byte.eqb star_twice Frame.terminator = true
   /\ declared_len star_twice = len star_twice
   /\ Nat.odd (length (Frame.tokenise star_twice) - 3) = true
   /\ Frame.parse star_twice = Raise duplicate_error)
  /\ (declared_len lone_key = len lone_key
      /\ Frame.tokenise lone_key = [blit "s"; blit "t"; blit "c"; blit "k"; []]
      /\ Frame.pad (Frame.tokenise lone_key) = Frame.tokenise lone_key
      /\ Frame.parse lone_key
         = Ok (mkFrame (lit "s") (lit "t") (lit "c") [(lit "k", [[]])])).
Proof. repeat split; reflexivity. Qed.

(** ** Sizes *)

Section Sizes.
Context {T : Text} {J : Json}.

(** What the two decoders do with a byte string longer than 1400 bytes
    that ends with the terminator of its dialect: the JSON decoder raises
    the size error; the binary decoder raises it exactly when the length
    field of the frame, its first two bytes, says more than 1400.  The
    binary decoder never looks at the number of bytes it was given. *)
Lemma oversize_input_size_error (text : bytes) :
  1400 < len text ->
  (endswith Byte.eqb text JSONFrame.terminator = true ->
   JSONFrame.parse text = Raise (ParserSizeError (lit "Frame is too large")))
  /\ (endswith Byte.eqb text Frame.terminator = true ->
      ((exists m, Frame.parse text = Raise (ParserSizeError m))
       <-> MAXFRAME < declared_len text)).
Proof.
  intros Hlen. split.
  - intros He. unfold JSONFrame.parse. rewrite He. cbn [negb orb].
    destruct (Z.ltb_spec (len text) 10); [lia|].
    destruct (Z.ltb_spec (len text) 20); [lia|].
    destruct (Z.gtb_spec (len text) MAXFRAME); [reflexivity|].
    unfold MAXFRAME in *. lia.
  - intros He. unfold Frame.parse, declared_len. rewrite He.
    cbn [negb orb].
    destruct (Z.ltb_spec (len text) 10); [lia|].
    destruct (Z.gtb_spec (int_from_bytes (firstn 2 text)) MAXFRAME)
      as [Hd|Hd].
    + split; [intros _; lia | intros _; eexists; reflexivity].
    + split; [|lia]. intros [m Hm]. exfalso.
      destruct (_ <? 3); [discriminate|].
      destruct (_ >? 3); [|discriminate].
      destruct (Frame.fill_kval _ _) eqn:E; simpl in Hm; [discriminate|].
      apply fill_kval_raise in E. subst. discriminate.
Qed.

(** C10. A byte string that ends with the NUL of the JSON dialect, is
    between 20 and 1400 bytes long and is rejected by the JSON loader
    makes the JSON decoder raise the size error with the loader's message,
    not the invalid-frame error. *)
Theorem invalid_json_is_size_error (text : bytes) (msg : str) :
  endswith Byte.eqb text JSONFrame.terminator = true ->
  20 <= len text <= 1400 ->
  json_loads (decode text) = inl msg ->
  JSONFrame.parse text = Raise (ParserSizeError msg)
  /\ forall m, JSONFrame.parse text <> Raise (ParserInvalidError m).
Proof.
  intros He Hl Hj.
  assert (E : JSONFrame.parse text = Raise (ParserSizeError msg)).
  { unfold JSONFrame.parse. rewrite He. cbn [negb orb].
    destruct (Z.ltb_spec (len text) 10); [lia|].
    destruct (Z.ltb_spec (len text) 20); [lia|].
    destruct (Z.gtb_spec (len text) MAXFRAME); [unfold MAXFRAME in *; lia|].
    rewrite Hj. reflexivity. }
  split; [exact E|]. intros m. rewrite E. discriminate.
Qed.

End Sizes.

Lemma oversize_input_size_error_witness :
  1400 < len honest_long_frame
  /\ (exists m, Frame.parse honest_long_frame = Raise (ParserSizeError m))
  /\ JSONFrame.parse long_json
     = Raise (ParserSizeError (lit "Frame is too large")).
Proof.
  split; [by_compute|]. split.
  - apply (proj2 (oversize_input_size_error honest_long_frame
                    ltac:(by_compute))); by_compute.
  - apply (proj1 (oversize_input_size_error long_json ltac:(by_compute))).
    by_compute.
Defined.

(** C6. A binary frame of 1413 bytes whose length field says 0 ends with
    the terminator and is decoded without any error: the binary decoder
    compares the length field with 1400, not the length of what it was
    given.  The JSON decoder refuses a text of 1401 bytes, and the binary
    encoder refuses the very frame the decoder returned. *)
Theorem long_frame_is_decoded :
  1400 < len long_frame
  /\ endswith Byte.eqb long_frame Frame.terminator = true
  /\ declared_len long_frame = 0
  /\ Frame.parse long_frame
     = Ok (mkFrame (lit "s") (lit "t") (lit "c")
                   [(lit "k", [repeat 97%N 1400]); ([], [lit "*"])])
  /\ JSONFrame.parse long_json
     = Raise (ParserSizeError (lit "Frame is too large"))
  /\ Frame.__bytes__
       (mkFrame (lit "s") (lit "t") (lit "c")
                [(lit "k", [repeat 97%N 1400]); ([], [lit "*"])])
     = Raise (ParserSizeError (lit "Frame is too large")).
Proof. repeat split; by_compute. Qed.

Lemma invalid_json_is_size_error_witness :
  endswith Byte.eqb not_json JSONFrame.terminator = true
  /\ 20 <= len not_json <= 1400
  /\ JSONFrame.parse not_json
     = Raise (ParserSizeError
                (lit "Expecting value: line 1 column 1 (char 0)")).
Proof.
  assert (He : endswith Byte.eqb not_json JSONFrame.terminator = true)
    by reflexivity.
  assert (Hl : 20 <= len not_json <= 1400) by (split; by_compute).
  split; [exact He|]. split; [exact Hl|].
  apply (@invalid_json_is_size_error ascii_text json_no_value not_json
           (lit "Expecting value: line 1 column 1 (char 0)") He Hl eq_refl).
Defined.

(** ** The token the terminator leaves *)

Section Terminator.
Context {T : Text}.

Lemma startswith_app (l p : bytes) :
  startswith Byte.eqb l p = true -> exists r, l = p ++ r.
Proof.
  revert l. induction p as [|b p IH]; intros l H.
  - exists l. reflexivity.
  - destruct l as [|a l]; simpl in H; [discriminate|].
    apply andb_true_iff in H. destruct H as [Hab H].
    apply Byte.byte_dec_bl in Hab. subst a.
    destruct (IH l H) as [r ->]. exists r. reflexivity.
Qed.

Lemma endswith_app (l s : bytes) :
  endswith Byte.eqb l s = true -> exists r, l = r ++ s.
Proof.
  unfold endswith. intros H. apply startswith_app in H.
  destruct H as [r Hr]. exists (rev r).
  rewrite <- (rev_involutive l), Hr, rev_app_distr, rev_involutive.
  reflexivity.
Qed.

Lemma split_nonempty (sep : byte) (l : bytes) : split sep l <> [].
Proof.
  destruct l as [|b l]; simpl; [discriminate|].
  destruct (Byte.eqb b sep); [discriminate|].
  destruct (split sep l); discriminate.
Qed.

Lemma split_snoc_sep (sep : byte) (l : bytes) :
  split sep (l ++ [sep]) = split sep l ++ [[]].
Proof.
  induction l as [|b l IH]; simpl.
  - rewrite (Byte.byte_dec_lb eq_refl). reflexivity.
  - destruct (Byte.eqb b sep); [rewrite IH; reflexivity|].
    rewrite IH. pose proof (split_nonempty sep l) as Hne.
    destruct (split sep l); [contradiction | reflexivity].
Qed.

(** A complete frame ends in two NUL bytes, which [split] turns into two
    empty tokens; [tokenise] drops one of them, so its last token is the
    other. *)
Lemma tokenise_ends_empty (text : bytes) :
  endswith Byte.eqb text Frame.terminator = true ->
  10 <= len text ->
  exists toks, Frame.tokenise text = toks ++ [[]].
Proof.
  intros He Hl. apply endswith_app in He. destruct He as [r ->].
  unfold len in Hl. rewrite length_app in Hl. simpl in Hl.
  unfold Frame.tokenise, Frame.terminator.
  rewrite skipn_app. replace (3 - length r)%nat with 0%nat by lia.
  simpl (skipn 0 _).
  change [NUL; NUL] with ([NUL] ++ [NUL]).
  rewrite app_assoc, !split_snoc_sep.
  rewrite last_last, removelast_last.
  exists (split NUL (skipn 3 r)). reflexivity.
Qed.

Lemma kval_append_nonempty (k v : str) (acc : kval) : kval_append k v acc <> [].
Proof.
  unfold kval_append. destruct acc as [|[k0 v0] acc]; simpl;
    [discriminate|]. destruct (str_eqb k k0); discriminate.
Qed.

Lemma fill_kval_nonempty (kvs : list (bytes * bytes)) (acc kv : kval) :
  Frame.fill_kval kvs acc = Ok kv -> kvs <> [] \/ acc <> [] -> kv <> [].
Proof.
  revert acc. induction kvs as [|[k v] r IH]; intros acc H Hne.
  - injection H as <-. destruct Hne; congruence.
  - rewrite fill_kval_cons in H. destruct (str_in _ _); [discriminate|].
    apply IH in H; [assumption|]. right. apply kval_append_nonempty.
Qed.

(** A decoded frame whose command token is not empty never has an empty
    key/value part: the token the terminator leaves is read as a key or a
    value. *)
Lemma decoded_kval_nonempty (text : bytes) (f : BaseFrame) :
  Frame.parse text = Ok f ->
  nth 2 (Frame.tokenise text) [] <> [] ->
  fkval f <> [].
Proof.
  intros Hp Hc.
  assert (He : endswith Byte.eqb text Frame.terminator = true
               /\ 10 <= len text /\ declared_len text <= MAXFRAME).
  { unfold Frame.parse, declared_len in *.
    destruct (endswith Byte.eqb text Frame.terminator);
      cbn [negb orb] in Hp; [|discriminate].
    destruct (Z.ltb_spec (len text) 10); [discriminate|].
    destruct (Z.gtb_spec (int_from_bytes (firstn 2 text)) MAXFRAME);
      [discriminate|]. auto. }
  destruct He as (He & Hl & Hd).
  destruct (tokenise_ends_empty text He Hl) as [toks Ht].
  assert (Hlen : (3 < length (Frame.tokenise text))%nat).
  { rewrite Ht in *. rewrite length_app. simpl.
    destruct toks as [|a [|b [|c toks]]]; simpl in *; try lia;
      contradiction. }
  rewrite parse_complete in Hp by (unfold len; auto; lia).
  destruct (Frame.fill_kval _ _) as [kv|e] eqn:E; simpl in Hp;
    [|discriminate].
  injection Hp as <-. simpl.
  apply fill_kval_nonempty in E; [assumption|]. left.
  intros Hnil.
  pose proof (length_pad (Frame.tokenise text)) as Hpad.
  destruct (skipn 3 (Frame.pad (Frame.tokenise text)))
    as [|a [|b l]] eqn:Es.
  - apply (f_equal (@length _)) in Es. rewrite length_skipn in Es.
    simpl in Es. lia.
  - apply (f_equal (@length _)) in Es. rewrite length_skipn in Es.
    simpl in Es. unfold Frame.pad in *.
    destruct (Nat.odd (length (Frame.tokenise text) - 3)) eqn:Eo.
    + rewrite length_app in Es. simpl in Es. lia.
    + replace (length (Frame.tokenise text) - 3)%nat with 1%nat in Eo by lia.
      discriminate.
  - simpl in Hnil. discriminate.
Qed.

End Terminator.

(** ** Encoding, then decoding *)

(** C5, on two frames. The encodings of these frames are at most 1400
    bytes long, and decoding them returns a frame that has one more key
    than the frame encoded: the empty key, with the star as its value. *)
Theorem roundtrip_gains_star_key :
  (exists b,
     Frame.__bytes__ pong_frame = Ok b /\ len b <= 1400
     /\ Frame.parse b
        = Ok (mkFrame (lit "alice") (lit "*") (lit "pong") [([], [lit "*"])])
     /\ Frame.parse b <> Ok pong_frame)
  /\ (exists b,
        Frame.__bytes__ message_frame = Ok b /\ len b <= 1400
        /\ Frame.parse b
           = Ok (mkFrame (lit "alice") (lit "bob") (lit "message")
                         [(lit "body", [lit "hi"]); ([], [lit "*"])])
        /\ Frame.parse b <> Ok message_frame).
Proof.
  split; eexists; (split; [reflexivity|]); repeat split; by_compute.
Qed.

(** * Properties of the server *)

Section Dispatch.
Context {T : Text}.
Variable extern : handler -> dest -> BaseFrame -> M unit.

(** Whatever the bytes, [process] raises before it reaches its loop, and
    leaves the world as it was: no handler runs. *)
Lemma process_always_raises (proto : nat) (data : bytes) (w : world) :
  exists e, DCPServer.process extern proto data w = (Raise e, w).
Proof.
  unfold DCPServer.process, bind, lift.
  destruct (Frame.parse data) as [f|e]; simpl; eauto.
Qed.

End Dispatch.

(** C1, on alice's session. Two pong frames arrive back to back while her
    ping is pending.  Whatever the handlers are, none runs: the pending
    flag stays set, and the session gets an internal-error frame and is
    closed.  This holds for all bytes: [process] never reaches its loop. *)
Theorem frames_are_not_dispatched
    (extern : handler -> dest -> BaseFrame -> M unit) :
  (forall proto data w,
      exists e, DCPServer.process extern proto data w = (Raise e, w))
  /\ Frame.parse pong_bytes = Ok (mkFrame (lit "alice") (lit "*") (lit "pong")
                                      [([], [lit "*"])])
  /\ exists b,
       Frame.__bytes__
         (error_frame two_users (lit "alice") (lit "*")
            (lit "Internal server error (This isn't your fault)")) = Ok b
       /\ DCPProtocol.data_received extern 0 (pong_bytes ++ pong_bytes)
            two_users
          = (Ok tt, with_proto 0 (add_call Close)
                      (with_proto 0 (add_call (Write b)) two_users))
       /\ user_timeout (the_user two_users 0) = true.
Proof.
  split; [intros; apply process_always_raises|].
  split; [reflexivity|].
  eexists. split; [reflexivity|]. split; reflexivity.
Qed.

(** C2, on a new session. A frame whose length field says 1500 makes the
    decoder raise the size error; the session then writes an error frame
    that does not carry the decoder's reason, and closes its transport. *)
Theorem parser_error_closes_transport
    (extern : handler -> dest -> BaseFrame -> M unit) :
  declared_len declared_1500 = 1500
  /\ Frame.parse declared_1500
     = Raise (ParserSizeError (lit "Frame is too large for the wire"))
  /\ exists b,
       Frame.__bytes__
         (error_frame fresh (lit "*") (lit "*") (lit "Parser failure")) = Ok b
       /\ (p <- DCPProtocol.connection_made ;;
           DCPProtocol.data_received extern p declared_1500) fresh
          = (Ok tt,
             mkWorld servname (motd fresh) [] []
                     [mkProto [] None [(lit "signon", 0%nat)]
                              [Write b; Close]]
                     [mkTimer 60 (ConnTimeout 0) false]).
Proof.
  split; [reflexivity|]. split; [reflexivity|].
  eexists. split; reflexivity.
Qed.

Section Signon.
Context {T : Text}.

(** [user_enter] never runs to its end: what follows the signon frame
    needs the name [line]. *)
Lemma user_enter_always_raises (proto : nat) (nm gecos : str)
    (acls properties options : list str) (now now' r : Z) (w : world) :
  exists e,
    fst (DCPServer.user_enter proto nm gecos acls properties options
                              now now' r w) = Raise e.
Proof.
  unfold DCPServer.user_enter, bind, gets, modify. cbn beta iota.
  match goal with
  | |- context [dict_get ?k ?d] => destruct (dict_get k d)
  end.
  - unfold cancel, modify, gets, DCPServer.line_in_user_enter, raise.
    cbn beta iota.
    match goal with
    | |- context [User_send ?u ?s ?t ?c ?kv ?w'] =>
        destruct (User_send u s t c kv w') as [[[]|e] w'']
    end; simpl; eauto.
  - simpl. eauto.
Qed.

End Signon.

(** C3, on a new session. [user_enter] for alice writes the signon frame,
    whose keys are name, time, version and options, and then raises
    NameError: no motd frame is written, although the server has a MOTD. *)
Theorem signon_is_not_followed_by_motd :
  let w1 := snd (DCPProtocol.connection_made fresh) in
  let r := DCPServer.user_enter 0 (lit "alice") (lit "Alice") [] [] []
             1700000000 1700000045 4500 w1 in
  motd fresh <> []
  /\ fst r = Raise (NameError (lit "name 'line' is not defined"))
  /\ exists b,
       Frame.__bytes__ (signon_frame fresh (lit "alice") 1700000000) = Ok b
       /\ transport (the_proto (snd r) 0) = [Write b].
Proof.
  split; [discriminate|]. split; [reflexivity|].
  eexists. split; reflexivity.
Qed.

Section Whois.
Context {T : Text}.

(** Once the target names an online user, [cmd_whois] no longer refers to
    the user who asks: two requesters get the same frame written to the
    same session. *)
Lemma whois_ignores_requester (w : world) (line : BaseFrame)
    (u1 u2 t : nat) :
  str_eqb (target line) (lit "*") = false ->
  startswith N.eqb (target line) (lit "=") = false ->
  startswith N.eqb (target line) (lit "#") = false ->
  dict_get (target line) (users w) = Some t ->
  DCPServer.cmd_whois u1 line w = DCPServer.cmd_whois u2 line w.
Proof.
  intros H1 H2 H3 Ht. unfold DCPServer.cmd_whois.
  rewrite H1, H2, H3. cbn [orb]. unfold bind, gets. rewrite Ht.
  reflexivity.
Qed.

End Whois.

(** C4, on two users. alice holds [user:auspex] and asks about bob: the
    reply has no acl key and is written to bob's session, alice's gets
    nothing.  bob holds no ACL and asks about alice: the reply has the acl
    key and is written to alice's session. *)
Theorem whois_answers_the_target :
  User_has_acl alice (lit "user:auspex") = true
  /\ User_has_acl bob (lit "user:auspex") = false
  /\ (exists b,
        Frame.__bytes__
          (mkFrame (lit "=" ++ servname) (lit "bob") (lit "whois")
                   [(lit "handle", [lit "bob"]); (lit "gecos", [lit "Bob"])])
        = Ok b
        /\ DCPServer.cmd_whois 0 whois_bob two_users
           = (Ok tt, with_proto 1 (add_call (Write b)) two_users)
        /\ transport (the_proto (with_proto 1 (add_call (Write b)) two_users) 0)
           = [])
  /\ (exists b,
        Frame.__bytes__
          (mkFrame (lit "=" ++ servname) (lit "alice") (lit "whois")
                   [(lit "handle", [lit "alice"]);
                    (lit "gecos", [lit "Alice"]);
                    (lit "acl", [lit "user:auspex"])])
        = Ok b
        /\ DCPServer.cmd_whois 1 whois_alice two_users
           = (Ok tt, with_proto 0 (add_call (Write b)) two_users)).
Proof.
  split; [reflexivity|]. split; [reflexivity|]. split.
  - eexists. split; [reflexivity|]. split; reflexivity.
  - eexists. split; reflexivity.
Qed.

(** ** Liveness *)

Section Liveness.
Context {T : Text}.

Lemma nth_set_nth {A} (i : nat) (x d : A) (l : list A) :
  (i < length l)%nat -> nth i (set_nth i x l) d = x.
Proof.
  revert i. induction l as [|a l IH]; intros [|i] H; simpl in *;
    try lia; [reflexivity | apply IH; lia].
Qed.

Lemma length_set_nth {A} (i : nat) (x : A) (l : list A) :
  length (set_nth i x l) = length l.
Proof.
  revert i. induction l as [|a l IH]; intros [|i]; simpl; auto.
Qed.

Lemma the_proto_with_proto (p : nat) (f : Proto -> Proto) (w : world) :
  (p < length (protos w))%nat ->
  the_proto (with_proto p f w) p = f (the_proto w p).
Proof. intros H. unfold the_proto, with_proto. simpl. apply nth_set_nth, H. Qed.

Lemma the_user_with_user (u : nat) (f : User -> User) (w : world) :
  (u < length (user_objs w))%nat ->
  the_user (with_user u f w) u = f (the_user w u).
Proof. intros H. unfold the_user, with_user. simpl. apply nth_set_nth, H. Qed.

Lemma in_randint_values (a b r : Z) :
  In r (randint_values a b) <-> a <= r <= b.
Proof.
  unfold randint_values. rewrite in_map_iff. split.
  - intros (i & <- & Hi). apply in_seq in Hi. lia.
  - intros H. exists (Z.to_nat (r - a)). split; [lia|].
    apply in_seq. lia.
Qed.


(** A frame within the size budget is encoded. *)
Lemma bytes_of_small (f : BaseFrame) :
  Frame.__len__ f <= MAXFRAME - 20 ->
  len (join [0%N] (Frame.items f)) + 3 <= 65535 ->
  exists b, Frame.__bytes__ f = Ok b.
Proof.
  intros H1 H2. unfold Frame.__bytes__, int_to_bytes2.
  destruct (Z.gtb_spec (Frame.__len__ f) (MAXFRAME - 20)); [lia|].
  destruct (Z.ltb_spec (len (join [0%N] (Frame.items f)) + 3) 0);
    [unfold len in *; lia|].
  destruct (Z.ltb_spec 65535 (len (join [0%N] (Frame.items f)) + 3));
    [lia|].
  simpl. eauto.
Qed.

Ltac frame_size :=
  unfold error_frame, ping_frame, Frame.__len__, Frame._generic_len,
    Frame.len_kv, Frame.items, MAXFRAME, len in *;
  cbn [length app map lit list_ascii_of_string servname fold_right flat_map
       join fkval source target command];
  repeat match goal with
         | |- context [Z.of_nat ?n >? 0] =>
             change (Z.of_nat n >? 0) with true; cbv iota
         end;
  repeat (rewrite length_app;
          cbn [length app map lit list_ascii_of_string servname]);
  lia.

Lemma error_frame_encoded (w : world) (target command reason : str) :
  name w = servname ->
  len target <= 48 -> len command <= 48 -> len reason <= 100 ->
  exists b, Frame.__bytes__ (error_frame w target command reason) = Ok b.
Proof.
  intros Hn Ht Hc Hr.
  apply bytes_of_small; unfold error_frame; rewrite Hn; frame_size.
Qed.

Lemma ping_frame_encoded (w : world) (target : str) (now : Z) :
  name w = servname ->
  len target <= 48 -> len (str_of_int now) <= 20 ->
  exists b, Frame.__bytes__ (ping_frame w target now) = Ok b.
Proof.
  intros Hn Ht Hc.
  apply bytes_of_small; unfold ping_frame; rewrite Hn; frame_size.
Qed.


End Liveness.

Ltac side_condition :=
  first [ reflexivity
        | by_compute
        | simpl; lia
        | apply in_randint_values; lia ].



Section Closing.
Context {T : Text}.
Variable extern : handler -> dest -> BaseFrame -> M unit.

(** Whatever bytes complete the buffer of a session that has not signed
    on, the session writes one error frame and closes its transport: a
    decoder error goes through a call that passes the reason where
    [fatal] is expected, and a decoded frame makes [process] raise. *)
Lemma complete_input_closes_session (w : world) (p : nat) (data : bytes) :
  (p < length (protos w))%nat ->
  user (the_proto w p) = None ->
  name w = servname ->
  endswith Byte.eqb (buf (the_proto w p) ++ data) [NUL; NUL] = true ->
  exists b,
    DCPProtocol.data_received extern p data w
    = (Ok tt, with_proto p (add_call Close)
                (with_proto p (add_call (Write b)) w)).
Proof.
  intros Hp Hu Hn He.
  unfold DCPProtocol.data_received, bind, gets. rewrite He. cbn [negb].
  unfold DCPProtocol.process_guarded, try_except.
  destruct (process_always_raises extern p (buf (the_proto w p) ++ data) w)
    as [e Hr].
  rewrite Hr. destruct (is_ParserError e).
  - destruct (error_frame_encoded w (lit "*") (lit "*")
                (lit "Parser failure") Hn) as [b Hb]; try by_compute.
    exists b.
    cbv [DCPProto.error DCPProto.send DCPProto._proto_name bind gets modify
         ret lift raise truthy].
    rewrite Hu. unfold error_frame in Hb. rewrite Hb. reflexivity.
  - destruct (error_frame_encoded w (lit "*") (lit "*")
                (lit "Internal server error (This isn't your fault)") Hn)
      as [b Hb]; try by_compute.
    exists b.
    cbv [DCPProto.error DCPProto.send DCPProto._proto_name bind gets modify
         ret lift raise truthy].
    rewrite Hu. unfold error_frame in Hb. rewrite Hb. reflexivity.
Qed.

End Closing.

(** * Further properties of the codec *)

Section DecodedFrames.
Context {T : Text}.

(** What a successful [Frame.parse] went through. *)
Lemma parse_ok_inv (text : bytes) (f : BaseFrame) :
  Frame.parse text = Ok f ->
  endswith Byte.eqb text Frame.terminator = true
  /\ 10 <= len text
  /\ declared_len text <= MAXFRAME
  /\ 3 <= len (Frame.tokenise text)
  /\ source f = lower (decode (nth 0 (Frame.tokenise text) []))
  /\ target f = lower (decode (nth 1 (Frame.tokenise text) []))
  /\ command f = lower (decode (nth 2 (Frame.tokenise text) []))
  /\ Frame.fill_kval (pairs (skipn 3 (Frame.pad (Frame.tokenise text)))) []
     = Ok (fkval f).
Proof.
  unfold Frame.parse, declared_len.
  destruct (endswith Byte.eqb text Frame.terminator);
    cbn [negb orb]; [|discriminate].
  destruct (Z.ltb_spec (len text) 10); [discriminate|].
  destruct (Z.gtb_spec (int_from_bytes (firstn 2 text)) MAXFRAME);
    [discriminate|].
  destruct (Z.ltb_spec (len (Frame.tokenise text)) 3); [discriminate|].
  destruct (Z.gtb_spec (len (Frame.tokenise text)) 3) as [Hgt|Hle].
  - destruct (Frame.fill_kval _ _) as [kv|e] eqn:E; simpl; [|discriminate].
    intros [= <-]. simpl. repeat split; auto.
  - simpl. intros [= <-]. simpl. repeat split; auto.
    assert (Hl : length (Frame.tokenise text) = 3%nat)
      by (unfold len in *; lia).
    unfold Frame.pad. rewrite Hl. simpl.
    destruct (Frame.tokenise text) as [|a [|b [|c [|d l]]]];
      simpl in Hl; try discriminate. reflexivity.
Qed.

Lemma dict_get_In {V} (k : str) (x : V) (d : dict V) :
  dict_get k d = Some x -> In (k, x) d.
Proof.
  induction d as [|[k0 v0] d IH]; simpl; [discriminate|].
  destruct (str_eqb k k0) eqn:E.
  - apply str_eqb_eq in E. subst. intros [= ->]. left. reflexivity.
  - intros H. right. apply IH, H.
Qed.

Lemma dict_get_None_keys {V} (k : str) (d : dict V) :
  dict_get k d = None -> ~ In k (map fst d).
Proof.
  induction d as [|[k0 v0] d IH]; simpl; [tauto|].
  destruct (str_eqb k k0) eqn:E; [discriminate|].
  apply str_eqb_neq in E. intros H [H1 | H1]; [congruence|].
  apply IH; assumption.
Qed.

Lemma dict_set_keys {V} (k : str) (x : V) (d : dict V) :
  map fst (dict_set k x d)
  = if dict_mem k d then map fst d else map fst d ++ [k].
Proof.
  unfold dict_mem. induction d as [|[k0 v0] d IH]; simpl; [reflexivity|].
  destruct (str_eqb k k0) eqn:E; simpl; [reflexivity|].
  rewrite IH. destruct (dict_get k d); reflexivity.
Qed.

Lemma dict_set_Forall {V} (P : str * V -> Prop) (k : str) (x : V)
    (d : dict V) :
  Forall P d -> P (k, x) -> Forall P (dict_set k x d).
Proof.
  intros Hd Hx. induction Hd as [|[k0 v0] d H0 Hd IH]; simpl.
  - constructor; [assumption | constructor].
  - destruct (str_eqb k k0) eqn:E.
    + apply str_eqb_eq in E. subst. constructor; assumption.
    + constructor; assumption.
Qed.

Lemma kval_append_wf (k v : str) (acc : kval) :
  kval_wf acc ->
  str_in v (kval_at k acc) = false ->
  kval_wf (kval_append k v acc).
Proof.
  intros [Hk Hv] Hfresh. unfold kval_append. split.
  - rewrite dict_set_keys. unfold dict_mem.
    destruct (dict_get k acc) eqn:E; [assumption|].
    apply NoDup_app_remove_l with (l := []). simpl.
    apply NoDup_rev in Hk. rewrite <- (rev_involutive (map fst acc ++ [k])).
    apply NoDup_rev. rewrite rev_app_distr. simpl. constructor; [|assumption].
    rewrite <- in_rev. apply dict_get_None_keys, E.
  - apply dict_set_Forall; [assumption|]. simpl. split.
    + destruct (kval_at k acc); discriminate.
    + assert (Hnd : NoDup (kval_at k acc)).
      { unfold kval_at. destruct (dict_get k acc) as [vs|] eqn:E;
          [|constructor].
        apply dict_get_In in E. rewrite Forall_forall in Hv.
        apply (Hv _ E). }
      assert (Hnin : ~ In v (kval_at k acc)).
      { intros Hin. apply str_in_In in Hin. congruence. }
      apply NoDup_rev in Hnd.
      rewrite <- (rev_involutive (kval_at k acc ++ [v])).
      apply NoDup_rev. rewrite rev_app_distr. simpl.
      constructor; [rewrite <- in_rev; assumption | assumption].
Qed.

Lemma fill_kval_wf (kvs : list (bytes * bytes)) (acc kv : kval) :
  kval_wf acc -> Frame.fill_kval kvs acc = Ok kv -> kval_wf kv.
Proof.
  revert acc. induction kvs as [|[k v] r IH]; intros acc Hwf H.
  - injection H as <-. assumption.
  - rewrite fill_kval_cons in H.
    destruct (str_in _ _) eqn:E; [discriminate|].
    apply IH in H; [assumption|]. apply kval_append_wf; assumption.
Qed.

(** X1. Every frame the binary parser returns has a well-formed key/value
    dict: no key occurs twice, every key has at least one value, and no
    value occurs twice under one key. *)
Theorem decoded_kval_is_well_formed (text : bytes) (f : BaseFrame) :
  Frame.parse text = Ok f -> kval_wf (fkval f).
Proof.
  intros H. apply parse_ok_inv in H.
  destruct H as (_ & _ & _ & _ & _ & _ & _ & H).
  apply fill_kval_wf in H; [assumption|].
  split; constructor.
Qed.

Lemma fill_kval_values (kvs : list (bytes * bytes)) (acc kv : kval) :
  Frame.fill_kval kvs acc = Ok kv ->
  forall k, kval_at k kv = kval_at k acc ++ values_of k (decoded kvs).
Proof.
  revert acc. induction kvs as [|[k0 v0] r IH]; intros acc H k.
  - injection H as <-. unfold values_of. simpl. rewrite app_nil_r.
    reflexivity.
  - rewrite fill_kval_cons in H.
    destruct (str_in _ _) eqn:E; [discriminate|].
    rewrite (IH _ H k), kval_at_append. unfold values_of. simpl.
    destruct (str_eqb k (lower (decode k0))) eqn:Ek.
    + apply str_eqb_eq in Ek. subst k. rewrite str_eqb_refl. simpl.
      rewrite <- app_assoc. reflexivity.
    + destruct (str_eqb (lower (decode k0)) k) eqn:Ek'; [|reflexivity].
      apply str_eqb_eq in Ek'. subst k. rewrite str_eqb_refl in Ek.
      discriminate.
Qed.

(** X2. In a frame the binary parser returns, the values of a key are
    the values the key/value section gives to that key (lowercased), in
    the order of the section; a key the section does not hold has no
    value. *)
Theorem decoded_values_follow_the_section (text : bytes) (f : BaseFrame) :
  Frame.parse text = Ok f ->
  forall k, kval_at k (fkval f) = values_of k (kv_section text).
Proof.
  intros H k. apply parse_ok_inv in H.
  destruct H as (_ & _ & _ & _ & _ & _ & _ & H).
  apply (fill_kval_values _ _ H k).
Qed.

End DecodedFrames.

Lemma decoded_kval_is_well_formed_witness :
  Frame.parse one_pair
  = Ok (mkFrame (lit "s") (lit "t") (lit "c")
                [(lit "k", [lit "v"]); ([], [lit "*"])])
  /\ kval_wf [(lit "k", [lit "v"]); ([], [lit "*"])].
Proof.
  assert (H : Frame.parse one_pair
              = Ok (mkFrame (lit "s") (lit "t") (lit "c")
                            [(lit "k", [lit "v"]); ([], [lit "*"])]))
    by reflexivity.
  split; [exact H|].
  exact (@decoded_kval_is_well_formed ascii_text one_pair _ H).
Defined.

Lemma decoded_values_follow_the_section_witness :
  exists f,
    Frame.parse two_values = Ok f
    /\ kv_section two_values
       = [(lit "k", lit "v1"); (lit "k", lit "v2"); ([], lit "*")]
    /\ kval_at (lit "k") (fkval f) = [lit "v1"; lit "v2"].
Proof.
  eexists. split; [reflexivity|]. split; [reflexivity|].
  exact (@decoded_values_follow_the_section ascii_text two_values _ eq_refl
           (lit "k")).
Defined.

Section Acceptance.
Context {T : Text}.

Lemma startswith_app_l {A} (eqb : A -> A -> bool) (a x p : list A) :
  (length p <= length a)%nat ->
  startswith eqb (a ++ x) p = startswith eqb a p.
Proof.
  revert a. induction p as [|b p IH]; intros a H.
  - destruct a; [destruct x|]; reflexivity.
  - destruct a as [|c a]; simpl in H; [lia|].
    simpl. rewrite IH by lia. reflexivity.
Qed.

Lemma endswith_app_r (pre rest s : bytes) :
  (length s <= length rest)%nat ->
  endswith Byte.eqb (pre ++ rest) s = endswith Byte.eqb rest s.
Proof.
  intros H. unfold endswith. rewrite rev_app_distr.
  apply startswith_app_l. rewrite !length_rev. exact H.
Qed.

(** X3. The binary parser reads the length field only to compare it with
    1400 and never reads the byte that follows it: two inputs that differ
    in their first three bytes only, both with a length field of at most
    1400, are decoded alike. *)
Theorem header_bytes_are_not_checked (h1 h2 b h1' h2' b' : byte)
    (rest : bytes) :
  int_from_bytes [h1; h2] <= MAXFRAME ->
  int_from_bytes [h1'; h2'] <= MAXFRAME ->
  Frame.parse (h1 :: h2 :: b :: rest) = Frame.parse (h1' :: h2' :: b' :: rest).
Proof.
  intros H1 H2. unfold Frame.parse.
  change (firstn 2 (h1 :: h2 :: b :: rest)) with [h1; h2].
  change (firstn 2 (h1' :: h2' :: b' :: rest)) with [h1'; h2'].
  change (Frame.tokenise (h1 :: h2 :: b :: rest))
    with (Frame.tokenise (h1' :: h2' :: b' :: rest)).
  change (len (h1 :: h2 :: b :: rest))
    with (len (h1' :: h2' :: b' :: rest)).
  destruct (Z.gtb_spec (int_from_bytes [h1; h2]) MAXFRAME); [lia|].
  destruct (Z.gtb_spec (int_from_bytes [h1'; h2']) MAXFRAME); [lia|].
  destruct (Z.ltb_spec (len (h1' :: h2' :: b' :: rest)) 10) as [Hs|Hs].
  - rewrite !orb_true_r. reflexivity.
  - assert (Hr : (length Frame.terminator <= length rest)%nat)
      by (unfold len in Hs; simpl in *; lia).
    change (h1 :: h2 :: b :: rest) with ([h1; h2; b] ++ rest).
    change (h1' :: h2' :: b' :: rest) with ([h1'; h2'; b'] ++ rest).
    rewrite (endswith_app_r [h1; h2; b] rest Frame.terminator Hr).
    rewrite (endswith_app_r [h1'; h2'; b'] rest Frame.terminator Hr).
    reflexivity.
Qed.

Lemma length_split (sep : byte) (l : bytes) :
  length (split sep l) = S (count_occ Byte.byte_eq_dec l sep).
Proof.
  induction l as [|b l IH]; simpl; [reflexivity|].
  destruct (Byte.eqb b sep) eqn:E.
  - apply Byte.byte_dec_bl in E. subst.
    destruct (Byte.byte_eq_dec sep sep); [|congruence].
    simpl. rewrite IH. reflexivity.
  - destruct (Byte.byte_eq_dec b sep) as [->|_].
    + rewrite (Byte.byte_dec_lb eq_refl) in E. discriminate.
    + pose proof (split_nonempty sep l).
      destruct (split sep l); [contradiction|]. exact IH.
Qed.

(** The tokens of a complete frame and the empty token [tokenise] drops
    are what [split] returns. *)
Lemma tokenise_split (text : bytes) :
  endswith Byte.eqb text Frame.terminator = true ->
  10 <= len text ->
  split NUL (skipn 3 text) = Frame.tokenise text ++ [[]].
Proof.
  intros He Hl. apply endswith_app in He. destruct He as [r ->].
  unfold len in Hl. rewrite length_app in Hl. simpl in Hl.
  unfold Frame.tokenise, Frame.terminator.
  rewrite skipn_app. replace (3 - length r)%nat with 0%nat by lia.
  simpl (skipn 0 _).
  change [NUL; NUL] with ([NUL] ++ [NUL]).
  rewrite app_assoc, !split_snoc_sep.
  rewrite last_last, removelast_last. reflexivity.
Qed.

Lemma length_tokenise (text : bytes) :
  endswith Byte.eqb text Frame.terminator = true ->
  10 <= len text ->
  length (Frame.tokenise text) = nul_count (skipn 3 text).
Proof.
  intros He Hl. pose proof (tokenise_split text He Hl) as H.
  apply (f_equal (@length _)) in H.
  rewrite length_split, length_app in H. cbn [length] in H.
  unfold nul_count. lia.
Qed.

Lemma parse_complete_ge3 (text : bytes) :
  endswith Byte.eqb text Frame.terminator = true ->
  10 <= len text ->
  declared_len text <= MAXFRAME ->
  3 <= len (Frame.tokenise text) ->
  Frame.parse text
  = (kv <- Frame.fill_kval
             (pairs (skipn 3 (Frame.pad (Frame.tokenise text)))) [] ;;
     Ok (mkFrame (lower (decode (nth 0 (Frame.tokenise text) [])))
                 (lower (decode (nth 1 (Frame.tokenise text) [])))
                 (lower (decode (nth 2 (Frame.tokenise text) [])))
                 kv))%result.
Proof.
  intros He Hl Hd Ht.
  destruct (Z.ltb_spec 3 (len (Frame.tokenise text))) as [H|H].
  - apply parse_complete; assumption.
  - assert (Hlen : length (Frame.tokenise text) = 3%nat)
      by (unfold len in *; lia).
    unfold Frame.parse, declared_len in *. rewrite He. cbn [negb orb].
    destruct (Z.ltb_spec (len text) 10); [lia|].
    destruct (Z.gtb_spec (int_from_bytes (firstn 2 text)) MAXFRAME); [lia|].
    destruct (Z.ltb_spec (len (Frame.tokenise text)) 3); [lia|].
    destruct (Z.gtb_spec (len (Frame.tokenise text)) 3); [lia|].
    unfold Frame.pad. rewrite Hlen.
    destruct (Frame.tokenise text) as [|a [|b [|c [|d l]]]];
      simpl in Hlen; try discriminate. reflexivity.
Qed.

(** X4. The binary parser returns a frame exactly for the inputs that end
    with two NUL bytes, are at least 10 bytes long, have a length field of
    at most 1400, hold at least three NUL bytes after their first three
    bytes, and whose key/value section repeats no pair. *)
Theorem parse_accepts_exactly (text : bytes) :
  (exists f, Frame.parse text = Ok f)
  <-> endswith Byte.eqb text Frame.terminator = true
      /\ 10 <= len text
      /\ declared_len text <= MAXFRAME
      /\ (3 <= nul_count (skipn 3 text))%nat
      /\ NoDup (kv_section text).
Proof.
  split.
  - intros [f H]. apply parse_ok_inv in H.
    destruct H as (He & Hl & Hd & Ht & _ & _ & _ & Hk).
    repeat split; try assumption.
    + rewrite <- length_tokenise by assumption. unfold len in Ht. lia.
    + destruct (NoDup_dec pair_eq_dec (kv_section text)) as [Hn|Hn];
        [assumption|].
      unfold kv_section in Hn.
      rewrite fill_kval_dup in Hk by (left; exact Hn). discriminate.
  - intros (He & Hl & Hd & Hc & Hn).
    rewrite <- length_tokenise in Hc by assumption.
    rewrite parse_complete_ge3 by (unfold len; auto; lia).
    destruct (@fill_kval_ok T _ [] Hn) as [kv Hkv].
    { intros p _ Hs. unfold seen in Hs. destruct p. discriminate. }
    unfold kv_section in Hn. rewrite Hkv. simpl. eauto.
Qed.

End Acceptance.

Lemma header_bytes_are_not_checked_witness :
  Frame.parse one_pair_odd_header = Frame.parse one_pair
  /\ declared_len one_pair_odd_header = 1400
  /\ len one_pair_odd_header = 14.
Proof.
  split; [|split; reflexivity].
  apply (@header_bytes_are_not_checked ascii_text); by_compute.
Defined.

(** X5. A decoded frame whose command token is not empty never has an
    empty key/value part: the empty token that the terminator leaves
    behind is read as a key or as a value.  No frame without keys comes
    out of the binary decoder. *)
Theorem decoded_frame_has_a_key {T : Text} (text : bytes) (f : BaseFrame) :
  Frame.parse text = Ok f ->
  nth 2 (Frame.tokenise text) [] <> [] ->
  fkval f <> [].
Proof. apply decoded_kval_nonempty. Qed.

Lemma decoded_frame_has_a_key_witness :
  exists f, Frame.parse pong_bytes = Ok f /\ fkval f <> [].
Proof.
  eexists. split; [reflexivity|].
  apply (@decoded_frame_has_a_key ascii_text pong_bytes _ eq_refl).
  by_compute.
Defined.

(** ** The length field of an encoding *)

Section LengthField.
Context {T : Text}.

Lemma byte_of_Z_to_N (z : Z) :
  0 <= z < 256 -> Z.of_N (Byte.to_N (byte_of_Z z)) = z.
Proof.
  intros Hz. unfold byte_of_Z.
  destruct (Byte.of_N (Z.to_N z)) as [b|] eqn:E.
  - apply Byte.to_of_N in E. rewrite E. lia.
  - apply Byte.of_N_None_iff in E. lia.
Qed.

Lemma int_from_to_bytes2 (n : Z) (l : bytes) :
  int_to_bytes2 n = Ok l -> int_from_bytes l = n /\ 0 <= n <= 65535.
Proof.
  unfold int_to_bytes2.
  destruct (Z.ltb_spec n 0); [discriminate|].
  destruct (Z.ltb_spec 65535 n); [discriminate|].
  simpl. intros [= <-]. split; [|lia].
  unfold int_from_bytes. cbn [fold_left].
  rewrite !byte_of_Z_to_N.
  - pose proof (Z.div_mod n 256). lia.
  - apply Z.mod_pos_bound. lia.
  - split; [apply Z.div_pos; lia | apply Z.div_lt_upper_bound; lia].
Qed.

Lemma len_app {A} (a b : list A) : len (a ++ b) = len a + len b.
Proof. unfold len. rewrite length_app. lia. Qed.

Lemma len_cons {A} (x : A) (l : list A) : len (x :: l) = 1 + len l.
Proof. unfold len. simpl length. lia. Qed.

Lemma len_nonneg {A} (l : list A) : 0 <= len l.
Proof. unfold len. lia. Qed.

Lemma join_cons {A} (sep x y : list A) (l : list (list A)) :
  join sep (x :: y :: l) = x ++ sep ++ join sep (y :: l).
Proof. reflexivity. Qed.

Lemma join_snoc {A} (sep y : list A) (l : list (list A)) :
  l <> [] -> join sep (l ++ [y]) = join sep l ++ sep ++ y.
Proof.
  induction l as [|x l IH]; [congruence|]. intros _.
  destruct l as [|x' l].
  - reflexivity.
  - change ((x :: x' :: l) ++ [y]) with (x :: x' :: (l ++ [y])).
    rewrite !join_cons.
    change (x' :: l ++ [y]) with ((x' :: l) ++ [y]).
    rewrite IH by discriminate. rewrite <- !app_assoc. reflexivity.
Qed.

(** The characters of the joined tokens: every token and the separator
    after it, without the last separator. *)
Lemma len_join_snoc {A} (sep y : list A) (l : list (list A)) :
  len (join sep (l ++ [y]))
  = fold_right (fun x a => len x + len sep + a) (len y) l.
Proof.
  induction l as [|x l IH]; [reflexivity|].
  destruct l as [|x' l].
  - simpl. rewrite !len_app. lia.
  - change ((x :: x' :: l) ++ [y]) with (x :: x' :: (l ++ [y])).
    rewrite join_cons.
    change (x' :: l ++ [y]) with ((x' :: l) ++ [y]).
    rewrite !len_app, IH. cbn [fold_right]. lia.
Qed.

Lemma len_kv_cons (k : str) (v : list str) (kv : kval) :
  Frame.len_kv ((k, v) :: kv)
  = fold_right (fun v2 s2 => len k + len v2 + 2 + s2) 0 v + Frame.len_kv kv.
Proof. reflexivity. Qed.

Lemma len_values_nonneg (k : str) (v : list str) :
  0 <= fold_right (fun v2 s2 => len k + len v2 + 2 + s2) 0 v.
Proof.
  induction v as [|v2 v IHv]; cbn [fold_right]; [lia|].
  pose proof (len_nonneg k). pose proof (len_nonneg v2). lia.
Qed.

Lemma len_kv_nonneg (kv : kval) : 0 <= Frame.len_kv kv.
Proof.
  induction kv as [|[k v] kv IH]; [cbv; discriminate|].
  rewrite len_kv_cons. pose proof (len_values_nonneg k v). lia.
Qed.

Lemma fold_tokens_len_kv (kv : kval) (base : Z) :
  fold_right (fun x a => len x + len [0%N] + a) base
    (flat_map (fun '(k, v) => flat_map (fun v2 => [k; v2]) v) kv)
  = Frame.len_kv kv + base.
Proof.
  induction kv as [|[k v] kv IH]; [reflexivity|].
  change (flat_map (fun '(k, v) => flat_map (fun v2 => [k; v2]) v)
            ((k, v) :: kv))
    with (flat_map (fun v2 => [k; v2]) v
          ++ flat_map (fun '(k, v) => flat_map (fun v2 => [k; v2]) v) kv).
  rewrite fold_right_app. unfold str in *.
  rewrite IH, len_kv_cons, <- Z.add_assoc.
  generalize (Frame.len_kv kv + base). intros z.
  induction v as [|v2 v IHv]; [cbn [flat_map fold_right]; lia|].
  change (flat_map (fun v2 => [k; v2]) (v2 :: v))
    with (k :: v2 :: flat_map (fun v2 => [k; v2]) v).
  cbn [fold_right]. rewrite IHv. change (len [0%N]) with 1. lia.
Qed.

(** The characters of the text [__bytes__] encodes. *)
Lemma len_joined_items (f : BaseFrame) :
  len (join [0%N] (Frame.items f))
  = len (source f) + len (target f) + len (command f) + 4
    + Frame.len_kv (fkval f).
Proof.
  change (Frame.items f) with (tokens_of f ++ [[0%N]]).
  etransitivity; [exact (len_join_snoc [0%N] [0%N] (tokens_of f))|].
  unfold tokens_of. rewrite fold_right_app.
  pose proof (fold_tokens_len_kv (fkval f) (len [0%N])) as E.
  unfold str in *. rewrite E.
  cbn [fold_right]. change (len [0%N]) with 1. lia.
Qed.

(** What the encoder returns for a frame within its budget, whatever the
    frame. *)
Lemma bytes_of_budget (f : BaseFrame) :
  Frame.__len__ f <= MAXFRAME - 20 ->
  exists h1 h2,
    Frame.__bytes__ f
    = Ok (h1 :: h2 :: NUL :: encode (join [0%N] (Frame.items f)))
    /\ int_from_bytes [h1; h2] = len (join [0%N] (Frame.items f)) + 3.
Proof.
  intros H. unfold Frame.__bytes__.
  destruct (Z.gtb_spec (Frame.__len__ f) (MAXFRAME - 20)); [lia|].
  assert (Hn : 0 <= len (join [0%N] (Frame.items f)) + 3 <= 65535).
  { rewrite len_joined_items.
    unfold Frame.__len__, Frame._generic_len, MAXFRAME in H.
    pose proof (len_kv_nonneg (fkval f)).
    pose proof (len_nonneg (source f)). pose proof (len_nonneg (target f)).
    pose proof (len_nonneg (command f)).
    destruct (fkval f) as [|e kv].
    - change (Frame.len_kv []) with 0 in *.
      change (len (@nil (str * list str)) >? 0) with false in H.
      cbv iota in H. lia.
    - rewrite len_cons in H. pose proof (len_nonneg kv).
      destruct (Z.gtb_spec (1 + len kv) 0); lia. }
  destruct (int_to_bytes2 _) as [l|e] eqn:E.
  - pose proof (int_from_to_bytes2 _ E) as [Hl _].
    unfold int_to_bytes2 in E.
    destruct (_ || _); [discriminate|]. injection E as <-.
    eexists. eexists. split; [reflexivity | exact Hl].
  - unfold int_to_bytes2 in E.
    destruct (Z.ltb_spec (len (join [0%N] (Frame.items f)) + 3) 0); [lia|].
    destruct (Z.ltb_spec 65535 (len (join [0%N] (Frame.items f)) + 3));
      [lia | discriminate].
Qed.

(** X6. The length field the encoder writes is the number of characters of
    the frame, counted with the three header bytes; it is [len(frame)] for
    a frame with at least one key and [len(frame) - 1] for a frame without
    keys, and it is never above 1380, so that the decoder's size check
    accepts every encoding. *)
Theorem encoded_length_field (f : BaseFrame) (b : bytes) :
  Frame.__bytes__ f = Ok b ->
  declared_len b
  = len (source f) + len (target f) + len (command f) + 7
    + Frame.len_kv (fkval f)
  /\ declared_len b
     = (if len (fkval f) >? 0 then Frame.__len__ f else Frame.__len__ f - 1)
  /\ declared_len b <= MAXFRAME - 20
  /\ skipn 3 b = encode (join [0%N] (Frame.items f)).
Proof.
  intros H.
  assert (Hb : Frame.__len__ f <= MAXFRAME - 20).
  { unfold Frame.__bytes__ in H.
    destruct (Z.gtb_spec (Frame.__len__ f) (MAXFRAME - 20));
      [discriminate | assumption]. }
  destruct (bytes_of_budget f Hb) as (h1 & h2 & E & Hl).
  rewrite E in H. injection H as <-.
  unfold declared_len. cbn [firstn skipn]. rewrite Hl, len_joined_items.
  assert (Hk : (if len (fkval f) >? 0
                then Frame.__len__ f else Frame.__len__ f - 1)
               = len (source f) + len (target f) + len (command f) + 4
                 + Frame.len_kv (fkval f) + 3).
  { unfold Frame.__len__, Frame._generic_len.
    destruct (fkval f) as [|e kv] eqn:Ek.
    - change (Frame.len_kv []) with 0.
      change (len (@nil (str * list str)) >? 0) with false.
      cbv iota. lia.
    - rewrite len_cons. pose proof (len_nonneg kv).
      destruct (Z.gtb_spec (1 + len kv) 0); lia. }
  split; [lia|]. split; [rewrite Hk; lia|]. split; [|reflexivity].
  destruct (len (fkval f) >? 0); lia.
Qed.

End LengthField.

Lemma encoded_length_field_witness :
  exists b,
    Frame.__bytes__ pong_frame = Ok b
    /\ declared_len b = 17 /\ Frame.__len__ pong_frame = 18
    /\ len b = 17.
Proof.
  eexists. split; [reflexivity|].
  split; [|split; reflexivity].
  apply (proj1 (@encoded_length_field ascii_text pong_frame _ eq_refl)).
Defined.

(** ** Encoding, then decoding: what comes back *)

Section RoundTrip.
Context {T : Text}.

(** Two facts about UTF-8: a text is encoded character by character, and
    U+0000 is encoded as the NUL byte. *)
Hypothesis encode_app : forall a b, encode (a ++ b) = encode a ++ encode b.
Hypothesis encode_nul : encode [0%N] = [NUL].

Lemma encode_join (x : str) (l : list str) :
  encode (join [0%N] (x :: l)) = join [NUL] (map encode (x :: l)).
Proof.
  revert x. induction l as [|y l IH]; intros x; [reflexivity|].
  change (encode (x ++ [0%N] ++ join [0%N] (y :: l))
          = encode x ++ [NUL] ++ join [NUL] (map encode (y :: l))).
  rewrite !encode_app, encode_nul, (IH y). reflexivity.
Qed.

Lemma split_nul_free (x : bytes) : ~ In NUL x -> split NUL x = [x].
Proof.
  induction x as [|b x IH]; intros H; [reflexivity|].
  simpl. destruct (Byte.eqb b NUL) eqn:E.
  - apply Byte.byte_dec_bl in E. subst. exfalso. apply H. left. reflexivity.
  - rewrite IH; [reflexivity|]. intros Hin. apply H. right. exact Hin.
Qed.

Lemma split_app_sep (x rest : bytes) :
  ~ In NUL x -> split NUL (x ++ NUL :: rest) = x :: split NUL rest.
Proof.
  induction x as [|b x IH]; intros H.
  - reflexivity.
  - simpl. destruct (Byte.eqb b NUL) eqn:E.
    + apply Byte.byte_dec_bl in E. subst. exfalso. apply H. left.
      reflexivity.
    + rewrite IH; [reflexivity|]. intros Hin. apply H. right. exact Hin.
Qed.

Lemma split_join (x : bytes) (l : list bytes) :
  Forall (fun t => ~ In NUL t) (x :: l) ->
  split NUL (join [NUL] (x :: l)) = x :: l.
Proof.
  revert x. induction l as [|y l IH]; intros x H.
  - apply split_nul_free. inversion H. assumption.
  - inversion H as [|? ? Hx Hl]. subst.
    change (join [NUL] (x :: y :: l)) with (x ++ NUL :: join [NUL] (y :: l)).
    rewrite split_app_sep by assumption. rewrite (IH y Hl). reflexivity.
Qed.

Lemma startswith_self_app (p x : bytes) : startswith Byte.eqb (p ++ x) p = true.
Proof.
  induction p as [|b p IH]; [destruct x; reflexivity|].
  simpl. rewrite (Byte.byte_dec_lb eq_refl). exact IH.
Qed.

Lemma endswith_snoc (r s : bytes) : endswith Byte.eqb (r ++ s) s = true.
Proof.
  unfold endswith. rewrite rev_app_distr. apply startswith_self_app.
Qed.

Lemma length_flat_tokens (kv : kval) :
  length (flat_map (fun '(k, v) => flat_map (fun v2 => [k; v2]) v) kv)
  = (2 * length (flat_pairs kv))%nat.
Proof.
  unfold flat_pairs. induction kv as [|[k v] kv IH]; [reflexivity|].
  cbn [flat_map fst snd]. rewrite !length_app, IH, length_map.
  assert (length (flat_map (fun v2 : str => [k; v2]) v) = (2 * length v)%nat).
  { clear. induction v as [|v2 v IHv]; [reflexivity|].
    cbn [flat_map length app]. rewrite IHv. lia. }
  lia.
Qed.

Lemma pairs_flat_tokens (kv : kval) :
  pairs (map encode
           (flat_map (fun '(k, v) => flat_map (fun v2 => [k; v2]) v) kv))
  = map enc2 (flat_pairs kv).
Proof.
  unfold flat_pairs. induction kv as [|[k v] kv IH]; [reflexivity|].
  cbn [flat_map fst snd]. rewrite !map_app, <- IH.
  generalize (map encode
                (flat_map (fun '(k, v) => flat_map (fun v2 => [k; v2]) v) kv)).
  intros R. clear IH.
  induction v as [|v2 v IHv]; [reflexivity|].
  cbn [flat_map map app pairs]. rewrite IHv. reflexivity.
Qed.

Lemma fill_step (p : str * str) (r : list (bytes * bytes)) (acc : kval) :
  good p ->
  Frame.fill_kval (enc2 p :: r) acc
  = if str_in (snd p) (kval_at (fst p) acc)
    then Raise duplicate_error
    else Frame.fill_kval r (kval_append (fst p) (snd p) acc).
Proof.
  intros [Hk Hv]. unfold enc2. rewrite fill_kval_cons, Hk, Hv. reflexivity.
Qed.

Lemma dict_get_absent {V} (k : str) (d : dict V) :
  ~ In k (map fst d) -> dict_get k d = None.
Proof.
  induction d as [|[k0 v0] d IH]; simpl; [reflexivity|]. intros H.
  destruct (str_eqb k k0) eqn:E.
  - apply str_eqb_eq in E. subst. exfalso. apply H. left. reflexivity.
  - apply IH. intros Hin. apply H. right. exact Hin.
Qed.

Lemma dict_get_last {V} (k : str) (x : V) (d : dict V) :
  ~ In k (map fst d) -> dict_get k (d ++ [(k, x)]) = Some x.
Proof.
  induction d as [|[k0 v0] d IH]; simpl; intros H.
  - rewrite str_eqb_refl. reflexivity.
  - destruct (str_eqb k k0) eqn:E.
    + apply str_eqb_eq in E. subst. exfalso. apply H. left. reflexivity.
    + apply IH. intros Hin. apply H. right. exact Hin.
Qed.

Lemma dict_set_absent {V} (k : str) (x : V) (d : dict V) :
  ~ In k (map fst d) -> dict_set k x d = d ++ [(k, x)].
Proof.
  induction d as [|[k0 v0] d IH]; simpl; intros H; [reflexivity|].
  destruct (str_eqb k k0) eqn:E.
  - apply str_eqb_eq in E. subst. exfalso. apply H. left. reflexivity.
  - rewrite IH; [reflexivity|]. intros Hin. apply H. right. exact Hin.
Qed.

Lemma dict_set_last {V} (k : str) (x y : V) (d : dict V) :
  ~ In k (map fst d) -> dict_set k y (d ++ [(k, x)]) = d ++ [(k, y)].
Proof.
  induction d as [|[k0 v0] d IH]; simpl; intros H.
  - rewrite str_eqb_refl. reflexivity.
  - destruct (str_eqb k k0) eqn:E.
    + apply str_eqb_eq in E. subst. exfalso. apply H. left. reflexivity.
    + rewrite IH; [reflexivity|]. intros Hin. apply H. right. exact Hin.
Qed.

(** The further values of a key that is the last of the accumulator. *)
Lemma fill_values (k : str) (vs done : list str) (acc : kval)
    (r : list (bytes * bytes)) :
  ~ In k (map fst acc) ->
  NoDup (done ++ vs) ->
  Forall good (map (pair k) vs) ->
  Frame.fill_kval (map enc2 (map (pair k) vs) ++ r) (acc ++ [(k, done)])
  = Frame.fill_kval r (acc ++ [(k, done ++ vs)]).
Proof.
  intros Hk. revert done. induction vs as [|v vs IH]; intros done Hnd Hg.
  - rewrite app_nil_r. reflexivity.
  - cbn [map app]. inversion Hg as [|? ? Hg1 Hg2]. subst.
    rewrite fill_step by assumption. cbn [fst snd].
    unfold kval_append, kval_at. rewrite dict_get_last by assumption.
    assert (Hv : str_in v done = false).
    { destruct (str_in v done) eqn:E; [|reflexivity].
      apply str_in_In in E. apply NoDup_remove_2 in Hnd.
      exfalso. apply Hnd. apply in_or_app. left. exact E. }
    rewrite Hv, dict_set_last by assumption.
    rewrite IH.
    + rewrite <- app_assoc. reflexivity.
    + rewrite <- app_assoc. exact Hnd.
    + assumption.
Qed.

(** The values of a key the accumulator does not hold yet. *)
Lemma fill_entry (k : str) (vs : list str) (acc : kval)
    (r : list (bytes * bytes)) :
  ~ In k (map fst acc) ->
  vs <> [] -> NoDup vs ->
  Forall good (map (pair k) vs) ->
  Frame.fill_kval (map enc2 (map (pair k) vs) ++ r) acc
  = Frame.fill_kval r (acc ++ [(k, vs)]).
Proof.
  intros Hk Hne Hnd Hg. destruct vs as [|v vs]; [congruence|].
  cbn [map app]. inversion Hg as [|? ? Hg1 Hg2]. subst.
  rewrite fill_step by assumption. cbn [fst snd].
  unfold kval_append, kval_at. rewrite dict_get_absent by assumption.
  cbn [str_in existsb app]. rewrite dict_set_absent by assumption.
  apply (fill_values k vs [v] acc r Hk Hnd Hg2).
Qed.

(** The pairs of a well-formed dict rebuild it after the accumulator. *)
Lemma fill_flat_pairs (kv acc : kval) (r : list (bytes * bytes)) :
  NoDup (map fst (acc ++ kv)) ->
  Forall (fun e : str * list str => snd e <> [] /\ NoDup (snd e)) kv ->
  Forall good (flat_pairs kv) ->
  Frame.fill_kval (map enc2 (flat_pairs kv) ++ r) acc
  = Frame.fill_kval r (acc ++ kv).
Proof.
  revert acc. induction kv as [|[k vs] kv IH]; intros acc Hk Hv Hg.
  - rewrite app_nil_r. reflexivity.
  - unfold flat_pairs in *. cbn [flat_map fst snd] in *.
    rewrite map_app, <- app_assoc.
    apply Forall_app in Hg. destruct Hg as [Hg1 Hg2].
    inversion Hv as [|? ? [Hne Hnd] Hv']. subst. cbn [snd] in *.
    rewrite fill_entry; try assumption.
    + rewrite IH; try assumption.
      * rewrite <- app_assoc. reflexivity.
      * rewrite <- app_assoc. exact Hk.
    + rewrite map_app in Hk. cbn [map fst] in Hk.
      apply NoDup_remove_2 in Hk. intros Hin. apply Hk.
      apply in_or_app. left. exact Hin.
Qed.

Lemma joined_len_le (f : BaseFrame) :
  len (join [0%N] (Frame.items f)) + 3 <= Frame.__len__ f.
Proof.
  rewrite len_joined_items. unfold Frame.__len__, Frame._generic_len.
  destruct (fkval f) as [|e kv].
  - change (Frame.len_kv []) with 0.
    change (len (@nil (str * list str)) >? 0) with false. cbv iota. lia.
  - rewrite len_cons. pose proof (len_nonneg kv).
    destruct (Z.gtb_spec (1 + len kv) 0); lia.
Qed.

Lemma pair_tokens (kv : kval) (p : str * str) :
  In p (flat_pairs kv) ->
  In (fst p) (flat_map (fun '(k, v) => flat_map (fun v2 => [k; v2]) v) kv)
  /\ In (snd p) (flat_map (fun '(k, v) => flat_map (fun v2 => [k; v2]) v) kv)
  /\ exists vs, In (fst p, vs) kv.
Proof.
  unfold flat_pairs. intros H. apply in_flat_map in H.
  destruct H as ([k vs] & Hin & Hp). cbn [fst snd] in Hp.
  apply in_map_iff in Hp. destruct Hp as (v & <- & Hv). cbn [fst snd].
  assert (Hx : forall x, In x [k; v] ->
                 In x (flat_map (fun '(k, v) =>
                                   flat_map (fun v2 => [k; v2]) v) kv)).
  { intros x Hx. apply in_flat_map. exists (k, vs). split; [assumption|].
    apply in_flat_map. exists v. split; assumption. }
  split; [apply Hx; left; reflexivity|].
  split; [apply Hx; right; left; reflexivity|].
  exists vs. assumption.
Qed.

(** X7. For a frame whose strings hold no NUL and come back from their
    encoding as they were, whose source, target, command and keys are in
    lower case and whose dict is well formed, the decoder applied to an
    encoding of at least 10 bytes returns the frame with one more value:
    the star, under the empty key.  When the frame already holds that
    value, the decoder raises the duplicate-value error. *)
Theorem decode_of_encode (f : BaseFrame) (b : bytes) :
  Frame.__bytes__ f = Ok b ->
  10 <= len b ->
  Forall (fun s => ~ In NUL (encode s) /\ decode (encode s) = s)
         (tokens_of f) ->
  lower (source f) = source f ->
  lower (target f) = target f ->
  lower (command f) = command f ->
  Forall (fun e : str * list str => lower (fst e) = fst e) (fkval f) ->
  kval_wf (fkval f) ->
  (str_in (decode (blit "*")) (kval_at (lower (decode [])) (fkval f)) = false ->
   Frame.parse b
   = Ok (mkFrame (source f) (target f) (command f)
                 (kval_append (lower (decode [])) (decode (blit "*"))
                              (fkval f))))
  /\ (str_in (decode (blit "*")) (kval_at (lower (decode [])) (fkval f))
      = true ->
      Frame.parse b = Raise duplicate_error).
Proof.
  intros Hb Hlen Htok Hs Ht Hc Hlow [Hkeys Hvals].
  assert (Hbud : Frame.__len__ f <= MAXFRAME - 20).
  { unfold Frame.__bytes__ in Hb.
    destruct (Z.gtb_spec (Frame.__len__ f) (MAXFRAME - 20));
      [discriminate | assumption]. }
  destruct (bytes_of_budget f Hbud) as (h1 & h2 & E & Hl).
  rewrite E in Hb. injection Hb as <-.
  set (flat := flat_map (fun '(k, v) => flat_map (fun v2 => [k; v2]) v)
                        (fkval f)) in *.
  set (toks := map encode (tokens_of f)).
  assert (Hbody : encode (join [0%N] (Frame.items f))
                  = join [NUL] toks ++ [NUL; NUL]).
  { change (Frame.items f)
      with (source f :: (target f :: command f :: flat) ++ [[0%N]]).
    rewrite encode_join. cbn [map]. rewrite map_app. cbn [map].
    rewrite encode_nul.
    change (encode (source f)
              :: (encode (target f) :: encode (command f) :: map encode flat)
                   ++ [[NUL]])
      with (toks ++ [[NUL]]).
    apply (@join_snoc byte [NUL] [NUL] toks). discriminate. }
  set (text := h1 :: h2 :: NUL :: encode (join [0%N] (Frame.items f))) in *.
  assert (He : endswith Byte.eqb text Frame.terminator = true).
  { unfold text. rewrite Hbody.
    change (h1 :: h2 :: NUL :: join [NUL] toks ++ [NUL; NUL])
      with ((h1 :: h2 :: NUL :: join [NUL] toks) ++ [NUL; NUL]).
    apply endswith_snoc. }
  assert (Hd : declared_len text <= MAXFRAME).
  { unfold declared_len, text. cbn [firstn]. rewrite Hl.
    pose proof (joined_len_le f). unfold MAXFRAME in *. lia. }
  assert (Hfree : Forall (fun t => ~ In NUL t) toks).
  { unfold toks. apply Forall_map.
    eapply Forall_impl; [|exact Htok]. intros s [H _]. exact H. }
  assert (Htoks : Frame.tokenise text = toks ++ [[]]).
  { pose proof (tokenise_split text He Hlen) as Hsp.
    unfold text in Hsp at 1. cbn [skipn] in Hsp. rewrite Hbody in Hsp.
    change (join [NUL] toks ++ [NUL; NUL])
      with (join [NUL] toks ++ [NUL] ++ [NUL]) in Hsp.
    rewrite app_assoc, !split_snoc_sep in Hsp.
    unfold toks at 1 in Hsp. unfold tokens_of in Hsp. cbn [map app] in Hsp.
    rewrite split_join in Hsp by exact Hfree.
    apply app_inj_tail in Hsp. destruct Hsp as [Hsp _]. symmetry.
    exact Hsp. }
  assert (Hodd : Nat.odd (length (Frame.tokenise text) - 3) = true).
  { rewrite Htoks, length_app. unfold toks, tokens_of.
    rewrite length_map, length_app. fold flat. unfold flat.
    rewrite length_flat_tokens. cbn [length].
    replace (3 + 2 * length (flat_pairs (fkval f)) + 1 - 3)%nat
      with (S (2 * length (flat_pairs (fkval f)))) by lia.
    rewrite Nat.odd_succ. apply Nat.even_spec. eexists. reflexivity. }
  pose proof (odd_residual_length _ Hodd) as Hgt.
  pose proof (parse_complete text He Hlen Hd ltac:(unfold len; lia)) as Hp.
  rewrite padded_pairs in Hp by exact Hodd.
  rewrite Htoks in Hp.
  replace (last (toks ++ [[]]) []) with (@nil byte) in Hp
    by (symmetry; apply last_last).
  assert (Hrest : removelast (skipn 3 (toks ++ [[]])) = map encode flat).
  { unfold toks, tokens_of. cbn [map app skipn]. fold flat.
    apply removelast_last. }
  rewrite Hrest in Hp. unfold flat in Hp. rewrite pairs_flat_tokens in Hp.
  assert (Hgood : Forall good (flat_pairs (fkval f))).
  { apply Forall_forall. intros p Hin.
    destruct (pair_tokens _ _ Hin) as (Hk & Hv & vs & Hvs).
    rewrite Forall_forall in Htok, Hlow.
    assert (Hk' : In (fst p) (tokens_of f))
      by (unfold tokens_of; apply in_or_app; right; exact Hk).
    assert (Hv' : In (snd p) (tokens_of f))
      by (unfold tokens_of; apply in_or_app; right; exact Hv).
    split.
    - rewrite (proj2 (Htok _ Hk')). apply (Hlow _ Hvs).
    - apply (proj2 (Htok _ Hv')). }
  rewrite (@fill_flat_pairs (fkval f) [] _ Hkeys Hvals Hgood) in Hp.
  cbn [app] in Hp. rewrite fill_kval_cons in Hp.
  assert (Hhdr : forall s, In s [source f; target f; command f] ->
                           decode (encode s) = s).
  { intros s Hin. rewrite Forall_forall in Htok.
    apply (proj2 (Htok s (in_or_app _ _ _ (or_introl Hin)))). }
  unfold toks, tokens_of in Hp. cbn [map app nth] in Hp.
  rewrite !Hhdr in Hp by (simpl; auto). rewrite Hs, Ht, Hc in Hp.
  split; intros Hstar; rewrite Hstar in Hp; exact Hp.
Qed.

End RoundTrip.

Lemma decode_of_encode_witness :
  exists b,
    Frame.__bytes__ message_frame = Ok b
    /\ Frame.parse b
       = Ok (mkFrame (lit "alice") (lit "bob") (lit "message")
                     [(lit "body", [lit "hi"]); ([], [lit "*"])]).
Proof.
  eexists. split; [reflexivity|].
  refine (proj1 (@decode_of_encode ascii_text _ _ message_frame _ eq_refl
                   _ _ _ _ _ _ _) _).
  - intros a b. apply map_app.
  - reflexivity.
  - by_compute.
  - repeat constructor; vm_compute; intuition discriminate.
  - reflexivity.
  - reflexivity.
  - reflexivity.
  - repeat constructor.
  - split; repeat constructor; simpl; intuition discriminate.
  - reflexivity.
Defined.

(** ** A key sent without its value *)

Section KeyWithoutValue.
Context {T : Text}.

Lemma split_sent (toks : list bytes) (rest : bytes) :
  Forall (fun t => ~ In NUL t) toks ->
  split NUL (flat_map (fun t => t ++ [NUL]) toks ++ rest)
  = toks ++ split NUL rest.
Proof.
  induction toks as [|a toks IH]; intros H; [reflexivity|].
  inversion H as [|? ? Ha Hr]; subst.
  cbn [flat_map]. rewrite <- !app_assoc. cbn [app].
  rewrite split_app_sep by exact Ha. rewrite IH by exact Hr. reflexivity.
Qed.

(** The parser's tokens for a frame sent with the tokens [toks]: one empty
    token more. *)
Lemma tokenise_wire (hi lo : byte) (toks : list bytes) :
  Forall (fun t => ~ In NUL t) toks ->
  Frame.tokenise (wire hi lo toks) = toks ++ [[]].
Proof.
  intros H. unfold Frame.tokenise, wire.
  change (skipn 3 ([hi; lo; NUL]
                     ++ flat_map (fun t => t ++ [NUL]) toks ++ [NUL]))
    with (flat_map (fun t => t ++ [NUL]) toks ++ [NUL]).
  rewrite split_sent by exact H.
  change (split NUL [NUL]) with ([[]] ++ [@nil byte]).
  rewrite app_assoc, last_last, removelast_last. reflexivity.
Qed.

Lemma values_of_snoc (k v : str) (ps : list (str * str)) :
  values_of k (ps ++ [(k, v)]) = values_of k ps ++ [v].
Proof.
  unfold values_of. rewrite filter_app, map_app. cbn [filter fst].
  rewrite str_eqb_refl. reflexivity.
Qed.

(** Whenever a frame is sent with an odd number of tokens after the
    command, its last key without a value, the parser counts an even
    number, appends no star, and pairs the last key with the empty token:
    in a frame it returns, the last value of that key is the empty str. *)
Lemma sent_key_without_value (hi lo : byte) (s t c : bytes)
    (kvs : list bytes) :
  Forall (fun x => ~ In NUL x) (s :: t :: c :: kvs) ->
  Nat.odd (length kvs) = true ->
  Frame.pad (Frame.tokenise (wire hi lo (s :: t :: c :: kvs)))
  = s :: t :: c :: kvs ++ [[]]
  /\ kv_section (wire hi lo (s :: t :: c :: kvs))
     = decoded (pairs (removelast kvs))
         ++ [(lower (decode (last kvs [])), decode [])]
  /\ forall f,
       Frame.parse (wire hi lo (s :: t :: c :: kvs)) = Ok f ->
       exists vs,
         kval_at (lower (decode (last kvs []))) (fkval f)
         = vs ++ [decode []].
Proof.
  intros Hn Hodd.
  assert (Ht : Frame.tokenise (wire hi lo (s :: t :: c :: kvs))
               = s :: t :: c :: kvs ++ [[]])
    by exact (tokenise_wire hi lo Hn).
  assert (Hp : Frame.pad (Frame.tokenise (wire hi lo (s :: t :: c :: kvs)))
               = s :: t :: c :: kvs ++ [[]]).
  { rewrite Ht. unfold Frame.pad. cbn [length Nat.sub].
    rewrite length_app. cbn [length].
    rewrite Nat.sub_0_r, Nat.add_1_r, Nat.odd_succ, <- Nat.negb_odd, Hodd.
    reflexivity. }
  assert (Hs : kv_section (wire hi lo (s :: t :: c :: kvs))
               = decoded (pairs (removelast kvs))
                   ++ [(lower (decode (last kvs [])), decode [])]).
  { unfold kv_section, decoded. rewrite Hp. cbn [skipn].
    pose proof (@pairs_snoc_odd bytes kvs [] [] Hodd) as E.
    etransitivity; [exact (f_equal (map _) E)|].
    rewrite map_app. reflexivity. }
  split; [exact Hp|]. split; [exact Hs|].
  intros f Hf.
  destruct (@parse_ok_inv T _ _ Hf) as (_ & _ & _ & _ & _ & _ & _ & Hfill).
  exists (values_of (lower (decode (last kvs [])))
            (decoded (pairs (removelast kvs)))).
  rewrite (@fill_kval_values T _ _ _ Hfill). cbn [kval_at app].
  fold (kv_section (wire hi lo (s :: t :: c :: kvs))).
  rewrite Hs. apply values_of_snoc.
Qed.

End KeyWithoutValue.

(** C8. The frame s, t, c, k sends one token after the command, the key k
    without a value; its length field is right.  The parser keeps the
    empty token the terminator leaves, counts two tokens after the
    command, appends no star, and returns a frame in which k has the empty
    value: the star is not among the values of k. *)
Theorem key_without_value_gets_no_star :
  declared_len lone_key = len lone_key
  /\ lone_key = wire x00 x0c [blit "s"; blit "t"; blit "c"; blit "k"]
  /\ Frame.tokenise lone_key = [blit "s"; blit "t"; blit "c"; blit "k"; []]
  /\ Frame.pad (Frame.tokenise lone_key) = Frame.tokenise lone_key
  /\ exists f,
       Frame.parse lone_key = Ok f
       /\ fkval f = [(lit "k", [[]])]
       /\ kval_at (lit "k") (fkval f) = [[]]
       /\ ~ In (lit "*") (kval_at (lit "k") (fkval f)).
Proof.
  split; [reflexivity|]. split; [reflexivity|]. split; [reflexivity|].
  split; [reflexivity|].
  eexists. split; [reflexivity|]. split; [reflexivity|].
  split; [reflexivity|]. cbn. intros [H|[]]. discriminate H.
Qed.

(** ** The JSON decoder and its terminator *)

Section JsonTerminator.
Context {T : Text} {J : Json}.

(** Two facts about the builtins: a final NUL byte is decoded as a final
    U+0000, and [json.loads] rejects a text that ends in U+0000, which is
    neither part of a JSON value nor JSON whitespace. *)
Hypothesis decode_nul : forall b, exists s, decode (b ++ [NUL]) = s ++ [0%N].
Hypothesis loads_nul : forall s, exists m, json_loads (s ++ [0%N]) = inl m.

(** X8. The JSON decoder never returns a frame: the text it hands to
    [json.loads] still ends with the terminator.  An input of 20 to 1400
    bytes that ends with the terminator gets the size error. *)
Theorem json_decoder_returns_no_frame (text : bytes) :
  (forall f, JSONFrame.parse text <> Ok f)
  /\ (endswith Byte.eqb text JSONFrame.terminator = true ->
      20 <= len text <= 1400 ->
      exists m, JSONFrame.parse text = Raise (ParserSizeError m)).
Proof.
  assert (Hmain : endswith Byte.eqb text JSONFrame.terminator = true ->
                  exists m, json_loads (decode text) = inl m).
  { intros He. apply endswith_app in He. destruct He as [r ->].
    unfold JSONFrame.terminator.
    destruct (decode_nul r) as [s ->]. apply loads_nul. }
  split.
  - intros f. unfold JSONFrame.parse.
    destruct (endswith Byte.eqb text JSONFrame.terminator) eqn:He;
      cbn [negb orb]; [|discriminate].
    destruct (len text <? 10); [discriminate|].
    destruct (len text <? 20); [discriminate|].
    destruct (len text >? MAXFRAME); [discriminate|].
    destruct (Hmain eq_refl) as [m ->]. discriminate.
  - intros He Hl. unfold JSONFrame.parse. rewrite He. cbn [negb orb].
    destruct (Z.ltb_spec (len text) 10); [lia|].
    destruct (Z.ltb_spec (len text) 20); [lia|].
    destruct (Z.gtb_spec (len text) MAXFRAME); [unfold MAXFRAME in *; lia|].
    destruct (Hmain He) as [m ->]. eauto.
Qed.

End JsonTerminator.

Lemma json_decoder_returns_no_frame_witness :
  exists m, JSONFrame.parse not_json = Raise (ParserSizeError m).
Proof.
  refine (proj2 (@json_decoder_returns_no_frame ascii_text json_no_value
                   _ _ not_json) _ _).
  - intros b. exists (ascii_decode b). apply map_app.
  - intros s. eexists. reflexivity.
  - reflexivity.
  - split; by_compute.
Defined.

(** * Further properties of the server *)

Section Sending.
Context {T : Text}.

Lemma proto_name_pure (e : endpoint) (w : world) :
  exists r, DCPProto._proto_name e w = (r, w).
Proof. destruct e; eexists; reflexivity. Qed.

Lemma send_outcome (self : nat) (source target : endpoint) (command : str)
    (kv : kval) (w : world) :
  (exists s t b,
      DCPProto._proto_name source w = (Ok s, w)
      /\ DCPProto._proto_name target w = (Ok t, w)
      /\ Frame.__bytes__ (mkFrame s t command kv) = Ok b
      /\ DCPProto.send self source target command kv w
         = (Ok tt, with_proto self (add_call (Write b)) w))
  \/ (exists e, DCPProto.send self source target command kv w = (Raise e, w)).
Proof.
  unfold DCPProto.send, bind, lift, modify.
  destruct (proto_name_pure source w) as [[s|e] Hs]; rewrite Hs;
    [|right; eauto].
  destruct (proto_name_pure target w) as [[t|e] Ht]; rewrite Ht;
    [|right; eauto].
  destruct (Frame.__bytes__ (mkFrame s t command kv)) as [b|e] eqn:Hb;
    [|right; eauto].
  left. exists s, t, b. auto.
Qed.

(** X9. [send] either writes one frame, the encoding of the frame it
    built, to its own session and changes nothing else, or raises and
    leaves everything as it was: nothing is written when the frame is
    refused by the encoder. *)
Theorem send_writes_one_frame_or_nothing (self : nat)
    (source target : endpoint) (command : str) (kv : kval) (w : world) :
  (exists s t b,
      DCPProto._proto_name source w = (Ok s, w)
      /\ DCPProto._proto_name target w = (Ok t, w)
      /\ Frame.__bytes__ (mkFrame s t command kv) = Ok b
      /\ DCPProto.send self source target command kv w
         = (Ok tt, with_proto self (add_call (Write b)) w))
  \/ (exists e, DCPProto.send self source target command kv w = (Raise e, w)).
Proof. apply send_outcome. Qed.

(** X10. [error] writes its frame before it closes: it either writes one
    frame and, when [fatal] is true, closes the transport after it, or
    raises and leaves the session as it was.  It never closes a transport
    to which it has not written. *)
Theorem error_writes_before_it_closes (self : nat) (command reason : str)
    (fatal extargs : arg) (w : world) :
  (exists b,
      DCPProto.error self command reason fatal extargs w
      = (Ok tt,
         if truthy fatal
         then with_proto self (add_call Close)
                (with_proto self (add_call (Write b)) w)
         else with_proto self (add_call (Write b)) w))
  \/ (exists e,
         DCPProto.error self command reason fatal extargs w = (Raise e, w)).
Proof.
  unfold DCPProto.error.
  assert (Hsend : forall kv,
    (exists b,
        (DCPProto.send self EServer
           (match user (the_proto w self) with
            | Some u => EUser u
            | None => ENone
            end) (lit "error") kv ;;;
         (if truthy fatal
          then modify (with_proto self (add_call Close))
          else ret tt)) w
        = (Ok tt,
           if truthy fatal
           then with_proto self (add_call Close)
                  (with_proto self (add_call (Write b)) w)
           else with_proto self (add_call (Write b)) w))
    \/ (exists e,
           (DCPProto.send self EServer
              (match user (the_proto w self) with
               | Some u => EUser u
               | None => ENone
               end) (lit "error") kv ;;;
            (if truthy fatal
             then modify (with_proto self (add_call Close))
             else ret tt)) w
           = (Raise e, w))).
  { intros kv. unfold bind.
    destruct (send_outcome self EServer
                (match user (the_proto w self) with
                 | Some u => EUser u
                 | None => ENone
                 end) (lit "error") kv w)
      as [(s & t & b & _ & _ & _ & Hs) | [e Hs]]; rewrite Hs;
      [|right; eauto].
    left. exists b. destruct (truthy fatal); reflexivity. }
  destruct extargs as [[|]| |d]; cbn [truthy].
  - right. eexists. reflexivity.
  - apply Hsend.
  - apply Hsend.
  - destruct (negb (Nat.eqb (length d) 0)); apply Hsend.
Qed.

End Sending.

(** ** The body of the dispatch loop *)

Section Dispatching.
Context {T : Text}.
Variable extern : handler -> dest -> BaseFrame -> M unit.

Lemma proto_error_nonfatal (w : world) (p : nat) (c r : str) :
  name w = servname ->
  len (session_target w p) <= 48 -> len c <= 48 -> len r <= 100 ->
  exists b,
    Frame.__bytes__ (error_frame w (session_target w p) c r) = Ok b
    /\ DCPProto.error p c r (ABool false) ANone w
       = (Ok tt, with_proto p (add_call (Write b)) w).
Proof.
  intros Hn Ht Hc Hr.
  destruct (error_frame_encoded w (session_target w p) c r Hn Ht Hc Hr)
    as [b Hb].
  exists b. split; [exact Hb|].
  cbv [DCPProto.error DCPProto.send DCPProto._proto_name bind gets modify
       ret lift raise truthy].
  unfold error_frame, session_target in Hb.
  destruct (user (the_proto w p)); rewrite Hb; reflexivity.
Qed.

Lemma proto_error_fatal (w : world) (p : nat) (c r : str) :
  name w = servname ->
  len (session_target w p) <= 48 -> len c <= 48 -> len r <= 100 ->
  exists b,
    Frame.__bytes__ (error_frame w (session_target w p) c r) = Ok b
    /\ DCPProto.error p c r (ABool true) ANone w
       = (Ok tt, with_proto p (add_call Close)
                   (with_proto p (add_call (Write b)) w)).
Proof.
  intros Hn Ht Hc Hr.
  destruct (error_frame_encoded w (session_target w p) c r Hn Ht Hc Hr)
    as [b Hb].
  exists b. split; [exact Hb|].
  cbv [DCPProto.error DCPProto.send DCPProto._proto_name bind gets modify
       ret lift raise truthy].
  unfold error_frame, session_target in Hb.
  destruct (user (the_proto w p)); rewrite Hb; reflexivity.
Qed.

Ltac guard_tests :=
  cbv [annotation UNREG SIGNON];
  try change (negb (Z.land 1 2 =? 0)) with false;
  try change (negb (Z.land 1 1 =? 0)) with true;
  try change (negb (Z.land 2 2 =? 0)) with true;
  cbv iota.

Lemma server_error_session (d : dest) (c r : str) (fatal extargs : arg)
    (w : world) :
  DCPServer.error d c r fatal extargs w
  = DCPProto.error (dest_session w d) c r fatal extargs w.
Proof. destruct d; reflexivity. Qed.

(** A non-fatal error either fits the encoder and is written, or does not
    and raises the encoder's size error with nothing written. *)
Lemma proto_error_by_size (w : world) (p : nat) (c r : str) :
  (Frame.__len__ (error_frame w (session_target w p) c r) <= MAXFRAME - 20 ->
   exists b,
     Frame.__bytes__ (error_frame w (session_target w p) c r) = Ok b
     /\ DCPProto.error p c r (ABool false) ANone w
        = (Ok tt, with_proto p (add_call (Write b)) w))
  /\ (MAXFRAME - 20 < Frame.__len__ (error_frame w (session_target w p) c r) ->
      DCPProto.error p c r (ABool false) ANone w
      = (Raise (ParserSizeError (lit "Frame is too large")), w)).
Proof.
  split; intros H.
  - assert (Hx : exists b,
               Frame.__bytes__ (error_frame w (session_target w p) c r)
               = Ok b)
      by (destruct (bytes_of_budget _ H) as (h1 & h2 & Hb & _); eauto).
    destruct Hx as [b Hb]. exists b. split; [exact Hb|].
    cbv [DCPProto.error DCPProto.send DCPProto._proto_name bind gets modify
         ret lift raise truthy].
    unfold error_frame, session_target in Hb.
    destruct (user (the_proto w p)); rewrite Hb; reflexivity.
  - assert (Hb : Frame.__bytes__ (error_frame w (session_target w p) c r)
                 = Raise (ParserSizeError (lit "Frame is too large"))).
    { unfold Frame.__bytes__.
      destruct (Z.gtb_spec
                  (Frame.__len__ (error_frame w (session_target w p) c r))
                  (MAXFRAME - 20)); [reflexivity | lia]. }
    cbv [DCPProto.error DCPProto.send DCPProto._proto_name bind gets modify
         ret lift raise truthy].
    unfold error_frame, session_target in Hb.
    destruct (user (the_proto w p)); rewrite Hb; reflexivity.
Qed.

Lemma error_frame_len (w : world) (tgt c r : str) :
  name w = servname ->
  len tgt <= 48 -> len c <= 48 -> len r <= 100 ->
  Frame.__len__ (error_frame w tgt c r) <= MAXFRAME - 20.
Proof.
  intros Hn Ht Hc Hr. unfold error_frame. rewrite Hn.
  unfold Frame.__len__, Frame._generic_len, Frame.len_kv, MAXFRAME, len in *.
  cbn [length app map lit list_ascii_of_string servname fold_right
       fkval source target command].
  repeat match goal with
         | |- context [Z.of_nat ?n >? 0] =>
             change (Z.of_nat n >? 0) with true; cbv iota
         end.
  repeat (rewrite length_app;
          cbn [length app map lit list_ascii_of_string servname]).
  lia.
Qed.

(** X11. A frame whose command, hyphens read as underscores, names no
    handler runs no handler and stops the loop over the frames.  When the
    error frame [No such command], which repeats the command, is within
    the encoder's limit of 1380, it is written to the session: the error
    is not fatal and the transport stays open.  When it is not, nothing is
    written and the encoder's size error comes out of [process].  On the
    configured server the frame is within the limit for a target and a
    command of at most 48 characters each. *)
Theorem unknown_command_is_refused (w : world) (p : nat)
    (line : BaseFrame) :
  getattr (lit "cmd_" ++ replace 45%N 95%N (command line)) = None ->
  let reply :=
    error_frame w (session_target w p) (command line)
                (lit "No such command") in
  (Frame.__len__ reply <= MAXFRAME - 20 ->
   exists b,
     Frame.__bytes__ reply = Ok b
     /\ DCPServer.process_line extern p line w
        = (Ok false, with_proto p (add_call (Write b)) w))
  /\ (MAXFRAME - 20 < Frame.__len__ reply ->
      DCPServer.process_line extern p line w
      = (Raise (ParserSizeError (lit "Frame is too large")), w))
  /\ (name w = servname ->
      len (session_target w p) <= 48 ->
      len (command line) <= 48 ->
      Frame.__len__ reply <= MAXFRAME - 20).
Proof.
  intros Hg reply. subst reply.
  destruct (proto_error_by_size w p (command line) (lit "No such command"))
    as [Hfit Hbig].
  assert (Hrun : DCPServer.process_line extern p line w
                 = (r <- DCPProto.error p (command line)
                           (lit "No such command") (ABool false) ANone ;;
                    ret false) w).
  { unfold DCPServer.process_line. rewrite Hg.
    unfold bind. rewrite server_error_session. reflexivity. }
  split; [|split].
  - intros H. destruct (Hfit H) as [b [Hb He]].
    exists b. split; [exact Hb|].
    rewrite Hrun. unfold bind. rewrite He. reflexivity.
  - intros H. rewrite Hrun. unfold bind. rewrite (Hbig H). reflexivity.
  - intros Hn Ht Hc. apply error_frame_len; try assumption. by_compute.
Qed.

(** X12. The registration guard.  A handler that requires signon is not
    run for a session without a user: the session gets the error [You are
    not registered].  The handlers of signon and register are not run for
    a session that has a user: it gets the error [This command is only
    usable before registration].  Neither error is fatal, and the loop
    over the frames stops. *)
Theorem registration_guard (w : world) (p : nat) (line : BaseFrame)
    (func : handler) :
  getattr (lit "cmd_" ++ replace 45%N 95%N (command line)) = Some func ->
  proto_or_user func w p = None ->
  name w = servname ->
  len (session_target w p) <= 48 ->
  len (command line) <= 48 ->
  exists b,
    Frame.__bytes__
      (error_frame w (session_target w p) (command line)
         (match user (the_proto w p) with
          | None => lit "You are not registered"
          | Some _ => lit "This command is only usable before registration"
          end)) = Ok b
    /\ DCPServer.process_line extern p line w
       = (Ok false, with_proto p (add_call (Write b)) w).
Proof.
  intros Hg Hpu Hn Ht Hc.
  assert (He : forall r, len r <= 100 ->
             exists b,
               Frame.__bytes__
                 (error_frame w (session_target w p) (command line) r) = Ok b
               /\ DCPServer.error (DProto p) (command line) r (ABool false)
                                  ANone w
                  = (Ok tt, with_proto p (add_call (Write b)) w)).
  { intros r Hr. rewrite server_error_session.
    apply proto_error_nonfatal; assumption. }
  unfold DCPServer.process_line. rewrite Hg.
  unfold proto_or_user in Hpu. unfold bind at 1, gets at 1.
  destruct (user (the_proto w p)) as [u|] eqn:Hu.
  - destruct func; cbn in Hpu; try discriminate;
      (destruct (He (lit "This command is only usable before registration"))
         as [b [Hb Hr]]; [by_compute|];
       exists b; split; [exact Hb|];
       guard_tests;
       unfold bind; rewrite Hr; reflexivity).
  - destruct func; cbn in Hpu; try discriminate;
      (destruct (He (lit "You are not registered")) as [b [Hb Hr]];
         [by_compute|];
       exists b; split; [exact Hb|];
       guard_tests;
       unfold bind; rewrite Hr; reflexivity).
Qed.

(** X13. A frame whose command names a handler, sent on a session that is
    in the state the handler requires, runs that handler: on the user of
    the session for a handler that requires signon, on the session itself
    for signon and register.  When the handler returns, the loop goes on
    with the state the handler left. *)
Theorem handler_is_run (w w' : world) (p : nat) (line : BaseFrame)
    (func : handler) (d : dest) :
  getattr (lit "cmd_" ++ replace 45%N 95%N (command line)) = Some func ->
  proto_or_user func w p = Some d ->
  DCPServer.call extern func d line w = (Ok tt, w') ->
  DCPServer.process_line extern p line w = (Ok true, w').
Proof.
  intros Hg Hpu Hcall.
  unfold DCPServer.process_line. rewrite Hg.
  unfold proto_or_user in Hpu. unfold bind at 1, gets at 1.
  destruct (user (the_proto w p)) as [u|] eqn:Hu;
    destruct func; cbn in Hpu; try discriminate;
    injection Hpu as <-;
    guard_tests;
    unfold bind, DCPServer.guarded_call, try_except;
    rewrite Hcall; reflexivity.
Qed.

(** X14. What happens when a handler raises.  A [UserError] or a
    [GroupError] is not reported: the branch that catches it raises
    [NameError], because server.py does not import [traceback].  Any
    other exception is answered with the fatal error [Internal server
    error], written to the session of the handler's argument, whose
    transport is closed; the loop goes on. *)
Theorem handler_exception (w w' : world) (p : nat) (line : BaseFrame)
    (func : handler) (d : dest) (e : exn) :
  getattr (lit "cmd_" ++ replace 45%N 95%N (command line)) = Some func ->
  proto_or_user func w p = Some d ->
  DCPServer.call extern func d line w = (Raise e, w') ->
  (is_UserError_or_GroupError e = true ->
   DCPServer.process_line extern p line w
   = (Raise (NameError (lit "name 'traceback' is not defined")), w'))
  /\ (is_UserError_or_GroupError e = false ->
      name w' = servname ->
      len (session_target w' (dest_session w' d)) <= 48 ->
      len (command line) <= 48 ->
      exists b,
        Frame.__bytes__
          (error_frame w' (session_target w' (dest_session w' d))
             (command line)
             (lit "Internal server error (this isn't your fault)")) = Ok b
        /\ DCPServer.process_line extern p line w
           = (Ok true,
              with_proto (dest_session w' d) (add_call Close)
                (with_proto (dest_session w' d) (add_call (Write b)) w'))).
Proof.
  intros Hg Hpu Hcall.
  assert (Hline : DCPServer.process_line extern p line w
                  = (DCPServer.guarded_call extern func d line ;;;
                     ret true) w).
  { unfold DCPServer.process_line. rewrite Hg.
    unfold proto_or_user in Hpu. unfold bind at 1, gets at 1.
    destruct (user (the_proto w p)) as [u|] eqn:Hu;
      destruct func; cbn in Hpu; try discriminate;
      injection Hpu as <-; guard_tests; reflexivity. }
  rewrite Hline. unfold bind, DCPServer.guarded_call, try_except.
  rewrite Hcall. split.
  - intros He. rewrite He. reflexivity.
  - intros He Hn Ht Hc. rewrite He.
    destruct (proto_error_fatal w' (dest_session w' d) (command line)
                (lit "Internal server error (this isn't your fault)")
                Hn Ht Hc) as [b [Hb Hr]]; [by_compute|].
    exists b. split; [exact Hb|].
    rewrite server_error_session, Hr. reflexivity.
Qed.

End Dispatching.

Lemma unknown_command_is_refused_witness :
  (exists b,
      Frame.__bytes__
        (error_frame two_users (lit "alice") (lit "frobnicate")
                     (lit "No such command")) = Ok b
      /\ DCPServer.process_line idle_handlers 0 frobnicate_line two_users
         = (Ok false, with_proto 0 (add_call (Write b)) two_users))
  /\ DCPServer.process_line idle_handlers 0 long_command_line two_users
     = (Raise (ParserSizeError (lit "Frame is too large")), two_users).
Proof.
  split.
  - apply (proj1 (@unknown_command_is_refused ascii_text idle_handlers
                    two_users 0%nat frobnicate_line eq_refl)).
    by_compute.
  - apply (proj1 (proj2 (@unknown_command_is_refused ascii_text
                           idle_handlers two_users 0%nat long_command_line
                           eq_refl))).
    by_compute.
Defined.

Lemma registration_guard_witness :
  (exists b,
      Frame.__bytes__
        (error_frame one_session (lit "*") (lit "group-enter")
                     (lit "You are not registered")) = Ok b
      /\ DCPServer.process_line idle_handlers 0 group_enter_line one_session
         = (Ok false, with_proto 0 (add_call (Write b)) one_session))
  /\ (exists b,
        Frame.__bytes__
          (error_frame two_users (lit "alice") (lit "signon")
             (lit "This command is only usable before registration")) = Ok b
        /\ DCPServer.process_line idle_handlers 0 signon_line two_users
           = (Ok false, with_proto 0 (add_call (Write b)) two_users)).
Proof.
  split.
  - apply (@registration_guard ascii_text idle_handlers one_session 0%nat
             group_enter_line GroupEnter); side_condition.
  - apply (@registration_guard ascii_text idle_handlers two_users 0%nat
             signon_line Signon); side_condition.
Defined.

Lemma handler_is_run_witness :
  getattr (lit "cmd_group_enter") = Some GroupEnter
  /\ DCPServer.process_line idle_handlers 0 group_enter_line two_users
     = (Ok true, two_users).
Proof.
  split; [reflexivity|].
  apply (@handler_is_run ascii_text idle_handlers two_users two_users 0%nat
           group_enter_line GroupEnter (DUser 0)); reflexivity.
Defined.

Lemma handler_exception_witness :
  DCPServer.process_line (failing_handlers (GroupError (lit "no such group")))
    0 group_enter_line two_users
  = (Raise (NameError (lit "name 'traceback' is not defined")), two_users)
  /\ exists b,
       Frame.__bytes__
         (error_frame two_users (lit "alice") (lit "group-enter")
            (lit "Internal server error (this isn't your fault)")) = Ok b
       /\ DCPServer.process_line (failing_handlers (KeyError (lit "'#lobby'")))
            0 group_enter_line two_users
          = (Ok true,
             with_proto 0 (add_call Close)
               (with_proto 0 (add_call (Write b)) two_users)).
Proof.
  split.
  - apply (proj1 (@handler_exception ascii_text
                    (failing_handlers (GroupError (lit "no such group")))
                    two_users two_users 0%nat group_enter_line GroupEnter
                    (DUser 0) (GroupError (lit "no such group"))
                    eq_refl eq_refl eq_refl)).
    reflexivity.
  - apply (proj2 (@handler_exception ascii_text
                    (failing_handlers (KeyError (lit "'#lobby'")))
                    two_users two_users 0%nat group_enter_line GroupEnter
                    (DUser 0) (KeyError (lit "'#lobby'"))
                    eq_refl eq_refl eq_refl)); side_condition.
Defined.

(** ** The read buffer *)

Section Buffer.
Context {T : Text}.
Variable extern : handler -> dest -> BaseFrame -> M unit.

Lemma find_first_none (sep l : bytes) :
  ~ holds sep l -> find_first Byte.eqb sep l = None.
Proof.
  induction l as [|x l IH]; intros H.
  - destruct sep; [|reflexivity].
    exfalso. apply H. exists [], []. reflexivity.
  - cbn [find_first].
    destruct (startswith Byte.eqb (x :: l) sep) eqn:E.
    + exfalso. apply H. apply startswith_app in E. destruct E as [r E].
      exists [], r. exact E.
    + rewrite IH; [reflexivity|]. intros (a & b & ->). apply H.
      exists (x :: a), b. reflexivity.
Qed.

Lemma find_first_some (sep l pre post : bytes) :
  sep <> [] ->
  find_first Byte.eqb sep l = Some (pre, post) ->
  l = pre ++ sep ++ post /\ ~ holds sep pre.
Proof.
  intros Hsep.
  revert pre post. induction l as [|x l IH]; intros pre post.
  - destruct sep; [contradiction|discriminate].
  - cbn [find_first].
    destruct (startswith Byte.eqb (x :: l) sep) eqn:E.
    + intros [= <- <-]. apply startswith_app in E. destruct E as [r E].
      split.
      * rewrite E. cbn [app].
        rewrite skipn_app, skipn_all, Nat.sub_diag. reflexivity.
      * intros (a & b & Hab). destruct a; [|discriminate].
        destruct sep; [contradiction|discriminate].
    + destruct (find_first Byte.eqb sep l) as [[pre' post']|] eqn:F;
        [|discriminate].
      intros [= <- <-]. destruct (IH _ _ eq_refl) as [Hl Hn]. split.
      * rewrite Hl at 1. reflexivity.
      * intros (a & b & Hab). destruct a as [|y a].
        -- simpl in Hab.
           assert (Hs : startswith Byte.eqb (x :: l) sep = true).
           { rewrite Hl. change (x :: pre' ++ sep ++ post')
               with ((x :: pre') ++ sep ++ post').
             rewrite Hab, <- app_assoc. apply startswith_self_app. }
           congruence.
        -- injection Hab as -> Hab. apply Hn. exists a, b. exact Hab.
Qed.

Lemma find_first_eq (sep l : bytes) :
  find_first Byte.eqb sep l
  = if startswith Byte.eqb l sep then Some ([], skipn (length sep) l)
    else match l with
         | [] => None
         | a :: r =>
             match find_first Byte.eqb sep r with
             | Some (pre, post) => Some (a :: pre, post)
             | None => None
             end
         end.
Proof. destruct l; reflexivity. Qed.

Lemma find_first_holds (sep l : bytes) :
  holds sep l -> find_first Byte.eqb sep l <> None.
Proof.
  intros (a & b & ->). induction a as [|y a IH].
  - rewrite find_first_eq. cbn [app]. rewrite startswith_self_app.
    discriminate.
  - rewrite find_first_eq.
    destruct (startswith Byte.eqb ((y :: a) ++ sep ++ b) sep);
      [discriminate|].
    cbn [app].
    destruct (find_first Byte.eqb sep (a ++ sep ++ b)) as [[pre post]|];
      [discriminate | exact IH].
Qed.

Lemma holds_rev (sep l : bytes) : holds (rev sep) (rev l) -> holds sep l.
Proof.
  intros (a & b & H). exists (rev b), (rev a).
  rewrite <- (rev_involutive l), H, !rev_app_distr, rev_involutive.
  rewrite app_assoc. reflexivity.
Qed.

(** [rpartition] without the separator, and with it. *)
Lemma rpartition_none (sep l : bytes) :
  ~ holds sep l -> rpartition sep l = ([], [], l).
Proof.
  intros H. unfold rpartition. rewrite find_first_none; [reflexivity|].
  intros Hr. apply H, holds_rev, Hr.
Qed.

Lemma rpartition_some (sep l : bytes) :
  sep <> [] ->
  holds sep l ->
  exists h t, rpartition sep l = (h, sep, t)
              /\ l = h ++ sep ++ t /\ ~ holds sep t.
Proof.
  intros Hsep H. unfold rpartition.
  destruct (find_first Byte.eqb (rev sep) (rev l)) as [[pre post]|] eqn:F.
  - assert (Hr : rev sep <> [])
      by (intros E; apply Hsep; rewrite <- (rev_involutive sep), E;
          reflexivity).
    destruct (@find_first_some _ _ _ _ Hr F) as [Hl Hn].
    exists (rev post), (rev pre). split; [reflexivity|]. split.
    + rewrite <- (rev_involutive l), Hl, !rev_app_distr, rev_involutive.
      rewrite app_assoc. reflexivity.
    + intros Ht. apply Hn. apply holds_rev.
      rewrite !rev_involutive. exact Ht.
  - exfalso. apply (@find_first_holds (rev sep) (rev l)); [|exact F].
    destruct H as (a & b & ->). exists (rev b), (rev a).
    rewrite !rev_app_distr, app_assoc. reflexivity.
Qed.

Lemma endswith_holds (l s : bytes) :
  endswith Byte.eqb l s = true -> holds s l.
Proof.
  intros H. apply endswith_app in H. destruct H as [r ->].
  exists r, []. rewrite app_nil_r. reflexivity.
Qed.

(** X15. Bytes that arrive without a terminator are not kept: when the
    buffer and the new bytes together hold no two consecutive NUL bytes,
    [data_received] leaves the buffer empty, writes nothing and calls no
    handler. *)
Theorem unterminated_input_is_dropped (w : world) (p : nat) (data : bytes) :
  (p < length (protos w))%nat ->
  ~ holds [NUL; NUL] (buf (the_proto w p) ++ data) ->
  exists w',
    DCPProtocol.data_received extern p data w = (Ok tt, w')
    /\ buf (the_proto w' p) = []
    /\ transport (the_proto w' p) = transport (the_proto w p)
    /\ user_objs w' = user_objs w.
Proof.
  intros Hp Hn.
  unfold DCPProtocol.data_received, bind, gets.
  destruct (endswith Byte.eqb (buf (the_proto w p) ++ data) [NUL; NUL])
    eqn:He.
  - exfalso. apply Hn, endswith_holds, He.
  - cbn [negb]. rewrite (rpartition_none Hn). unfold modify.
    eexists. split; [reflexivity|].
    assert (Hp' : (p < length (protos
                     (with_proto p (set_buf (buf (the_proto w p) ++ data))
                        w)))%nat)
      by (cbn [with_proto protos]; rewrite length_set_nth; exact Hp).
    rewrite (the_proto_with_proto (set_buf []) _ Hp').
    rewrite (the_proto_with_proto _ w Hp). repeat split.
Qed.

Lemma process_guarded_closes (w : world) (p : nat) (data : bytes) :
  user (the_proto w p) = None ->
  name w = servname ->
  exists b,
    DCPProtocol.process_guarded extern p data w
    = (Ok tt, with_proto p (add_call Close)
                (with_proto p (add_call (Write b)) w)).
Proof.
  intros Hu Hn. unfold DCPProtocol.process_guarded, try_except.
  destruct (process_always_raises extern p data w) as [e Hr].
  rewrite Hr. destruct (is_ParserError e).
  - destruct (error_frame_encoded w (lit "*") (lit "*")
                (lit "Parser failure") Hn) as [b Hb]; try by_compute.
    exists b.
    cbv [DCPProto.error DCPProto.send DCPProto._proto_name bind gets modify
         ret lift raise truthy].
    rewrite Hu. unfold error_frame in Hb. rewrite Hb. reflexivity.
  - destruct (error_frame_encoded w (lit "*") (lit "*")
                (lit "Internal server error (This isn't your fault)") Hn)
      as [b Hb]; try by_compute.
    exists b.
    cbv [DCPProto.error DCPProto.send DCPProto._proto_name bind gets modify
         ret lift raise truthy].
    rewrite Hu. unfold error_frame in Hb. rewrite Hb. reflexivity.
Qed.

(** X16. What the buffer of a session that has not signed on holds after
    a delivery with a terminator.  When the buffer and the new bytes end
    with the terminator, the buffer is left as it was: bytes buffered
    before stay there and are prepended again to the next delivery.
    Otherwise the buffer becomes what follows the last terminator. *)
Theorem buffer_after_terminated_input (w : world) (p : nat) (data : bytes) :
  (p < length (protos w))%nat ->
  user (the_proto w p) = None ->
  name w = servname ->
  holds [NUL; NUL] (buf (the_proto w p) ++ data) ->
  exists w',
    DCPProtocol.data_received extern p data w = (Ok tt, w')
    /\ (endswith Byte.eqb (buf (the_proto w p) ++ data) [NUL; NUL] = true ->
        buf (the_proto w' p) = buf (the_proto w p))
    /\ (endswith Byte.eqb (buf (the_proto w p) ++ data) [NUL; NUL] = false ->
        exists h t,
          buf (the_proto w p) ++ data = h ++ [NUL; NUL] ++ t
          /\ ~ holds [NUL; NUL] t
          /\ buf (the_proto w' p) = t).
Proof.
  intros Hp Hu Hn Hh.
  unfold DCPProtocol.data_received, bind, gets.
  destruct (endswith Byte.eqb (buf (the_proto w p) ++ data) [NUL; NUL])
    eqn:He; cbn [negb].
  - destruct (process_guarded_closes w p (buf (the_proto w p) ++ data)
                Hu Hn) as [b ->].
    eexists. split; [reflexivity|]. split; [|discriminate]. intros _.
    assert (Hp' : (p < length (protos
                     (with_proto p (add_call (Write b)) w)))%nat)
      by (cbn [with_proto protos]; rewrite length_set_nth; exact Hp).
    rewrite (the_proto_with_proto _ _ Hp').
    rewrite (the_proto_with_proto _ w Hp). reflexivity.
  - assert (Hsep : [NUL; NUL] <> []) by discriminate.
    destruct (@rpartition_some _ _ Hsep Hh) as (h & t & -> & Hl & Ht).
    unfold modify.
    set (w1 := with_proto p (set_buf t) w).
    assert (Hp1 : (p < length (protos w1))%nat)
      by (cbn [w1 with_proto protos]; rewrite length_set_nth; exact Hp).
    assert (Hb1 : the_proto w1 p = set_buf t (the_proto w p))
      by exact (the_proto_with_proto (set_buf t) w Hp).
    assert (Hu1 : user (the_proto w1 p) = None) by (rewrite Hb1; exact Hu).
    destruct (process_guarded_closes w1 p (h ++ [NUL; NUL]) Hu1 Hn)
      as [b Hg].
    cbn [app] in Hg |- *. rewrite Hg.
    eexists. split; [reflexivity|]. split; [discriminate|]. intros _.
    exists h, t. split; [exact Hl|]. split; [exact Ht|].
    assert (Hp' : (p < length (protos
                     (with_proto p (add_call (Write b)) w1)))%nat)
      by (cbn [with_proto protos]; rewrite length_set_nth; exact Hp1).
    rewrite (the_proto_with_proto _ _ Hp').
    rewrite (the_proto_with_proto _ w1 Hp1), Hb1. reflexivity.
Qed.

End Buffer.

Lemma not_holds_by_search (sep l : bytes) :
  find_first Byte.eqb sep l = None -> ~ holds sep l.
Proof. intros E H. exact (find_first_holds H E). Qed.

Lemma unterminated_input_is_dropped_witness :
  exists w',
    DCPProtocol.data_received idle_handlers 0 half_frame one_session
    = (Ok tt, w')
    /\ buf (the_proto w' 0) = []
    /\ transport (the_proto w' 0) = transport (the_proto one_session 0)
    /\ user_objs w' = user_objs one_session.
Proof.
  apply (@unterminated_input_is_dropped ascii_text idle_handlers
           one_session 0%nat half_frame).
  - vm_compute. lia.
  - apply not_holds_by_search. vm_compute. reflexivity.
Defined.

Lemma buffer_after_terminated_input_witness :
  exists w',
    DCPProtocol.data_received idle_handlers 0 frame_and_a_half one_session
    = (Ok tt, w')
    /\ (endswith Byte.eqb
          (buf (the_proto one_session 0) ++ frame_and_a_half) [NUL; NUL]
        = true ->
        buf (the_proto w' 0) = buf (the_proto one_session 0))
    /\ (endswith Byte.eqb
          (buf (the_proto one_session 0) ++ frame_and_a_half) [NUL; NUL]
        = false ->
        exists h t,
          buf (the_proto one_session 0) ++ frame_and_a_half
          = h ++ [NUL; NUL] ++ t
          /\ ~ holds [NUL; NUL] t
          /\ buf (the_proto w' 0) = t).
Proof.
  apply (@buffer_after_terminated_input ascii_text idle_handlers
           one_session 0%nat frame_and_a_half).
  - vm_compute. lia.
  - reflexivity.
  - reflexivity.
  - exists (removelast (removelast pong_bytes)), (blit "half").
    vm_compute. reflexivity.
Defined.

(** ** The signon timer *)

Section SignonTimer.
Context {T : Text}.

Lemma dict_get_del_other {V} (k k' : str) (d : dict V) :
  k' <> k -> dict_get k' (dict_del k d) = dict_get k' d.
Proof.
  intros Hk. induction d as [|[k0 v0] d IH]; [reflexivity|].
  cbn [dict_del dict_get].
  destruct (str_eqb k k0) eqn:E.
  - apply str_eqb_eq in E. subst k0.
    apply str_eqb_neq in Hk. rewrite Hk. reflexivity.
  - cbn [dict_get]. rewrite IH. reflexivity.
Qed.

(** X17. When the signon timer of a session fires: a session that has not
    signed on is sent the fatal error [Timed out], written before the
    transport is closed; a session that has signed on is neither written
    to nor closed, and its other timers stay registered. *)
Theorem signon_timer_closes_only_unregistered (w : world) (p : nat) :
  name w = servname ->
  (p < length (protos w))%nat ->
  (user (the_proto w p) = None ->
   exists b,
     Frame.__bytes__ (error_frame w (lit "*") (lit "*") (lit "Timed out"))
     = Ok b
     /\ DCPServer.conn_timeout p w
        = (Ok tt, with_proto p (add_call Close)
                    (with_proto p (add_call (Write b)) w)))
  /\ (user (the_proto w p) <> None ->
      exists w',
        DCPServer.conn_timeout p w = (Ok tt, w')
        /\ transport (the_proto w' p) = transport (the_proto w p)
        /\ user (the_proto w' p) = user (the_proto w p)
        /\ forall k, k <> lit "signon" ->
             dict_get k (callbacks (the_proto w' p))
             = dict_get k (callbacks (the_proto w p))).
Proof.
  intros Hn Hp. split; intros Hu.
  - assert (Ht : session_target w p = lit "*")
      by (unfold session_target; rewrite Hu; reflexivity).
    destruct (proto_error_fatal w p (lit "*") (lit "Timed out") Hn)
      as [b [Hb He]]; try (rewrite Ht); try by_compute.
    rewrite Ht in Hb. exists b. split; [exact Hb|].
    unfold DCPServer.conn_timeout, bind, gets. rewrite Hu.
    rewrite server_error_session. cbn [dest_session]. exact He.
  - unfold DCPServer.conn_timeout, bind, gets, modify.
    destruct (user (the_proto w p)) as [u|] eqn:E; [|contradiction].
    eexists. split; [reflexivity|].
    rewrite (the_proto_with_proto _ w Hp).
    cbn [set_callbacks transport user callbacks]. rewrite E.
    repeat split. intros k Hk. apply dict_get_del_other. exact Hk.
Qed.

End SignonTimer.

Lemma signon_timer_closes_only_unregistered_witness :
  (exists b,
     Frame.__bytes__
       (error_frame one_session (lit "*") (lit "*") (lit "Timed out"))
     = Ok b
     /\ DCPServer.conn_timeout 0 one_session
        = (Ok tt, with_proto 0 (add_call Close)
                    (with_proto 0 (add_call (Write b)) one_session)))
  /\ (exists w',
        DCPServer.conn_timeout 1 two_users = (Ok tt, w')
        /\ transport (the_proto w' 1) = transport (the_proto two_users 1)
        /\ user (the_proto w' 1) = user (the_proto two_users 1)
        /\ forall k, k <> lit "signon" ->
             dict_get k (callbacks (the_proto w' 1))
             = dict_get k (callbacks (the_proto two_users 1))).
Proof.
  assert (H0 : (0 < length (protos one_session))%nat) by (vm_compute; lia).
  assert (H1 : (1 < length (protos two_users))%nat) by (vm_compute; lia).
  split.
  - apply (proj1 (@signon_timer_closes_only_unregistered ascii_text
                    one_session 0%nat eq_refl H0)).
    reflexivity.
  - apply (proj2 (@signon_timer_closes_only_unregistered ascii_text
                    two_users 1%nat eq_refl H1)).
    discriminate.
Defined.

(** ** The message of the day *)

Section MotdBlocks.
Variable rstrip : str -> str.

Lemma motd_line_len (line : str) :
  1 <= len (motd_line rstrip line) <= 200.
Proof.
  unfold motd_line. destruct (rstrip line) as [|c r].
  - vm_compute. split; discriminate.
  - destruct (Z.gtb_spec (len (c :: r)) 200) as [H|H].
    + unfold len in *. rewrite length_firstn. lia.
    + rewrite len_cons in *. pose proof (len_nonneg r). lia.
Qed.

Lemma motd_loop_cons (baselen : Z) (c : N) (l : str) (r : list str)
    (curlen : Z) (curframe : list str) (motd : list (list str)) :
  motd_loop rstrip baselen ((c :: l) :: r) curlen curframe motd
  = if len (motd_line rstrip (c :: l)) + 6 + curlen >? MAXFRAME
    then motd_loop rstrip baselen r
           (baselen + (len (motd_line rstrip (c :: l)) + 6))
           ([] ++ [motd_line rstrip (c :: l)]) (motd ++ [curframe])
    else motd_loop rstrip baselen r
           (curlen + (len (motd_line rstrip (c :: l)) + 6))
           (curframe ++ [motd_line rstrip (c :: l)]) motd.
Proof.
  cbn [motd_loop].
  destruct (len (motd_line rstrip (c :: l)) + 6 + curlen >? MAXFRAME);
    reflexivity.
Qed.




Lemma block_cost_app (a b : list str) :
  block_cost (a ++ b) = block_cost a + block_cost b.
Proof.
  induction a as [|x a IH]; [reflexivity|].
  cbn [app]. unfold block_cost in *. cbn [fold_right]. rewrite IH. lia.
Qed.

Lemma motd_loop_blocks (baselen : Z) (lines : list str) (curlen : Z)
    (curframe : list str) (motd : list (list str)) :
  baselen + 206 <= MAXFRAME ->
  curlen = baselen + block_cost curframe ->
  block_ok baselen curframe ->
  Forall (block_ok baselen) motd ->
  Forall (fun b => b <> []) motd ->
  Forall (block_ok baselen)
    (motd_loop rstrip baselen lines curlen curframe motd)
  /\ (curframe ++ until_blank lines <> [] ->
      Forall (fun b => b <> [])
        (motd_loop rstrip baselen lines curlen curframe motd)).
Proof.
  intros Hb. revert curlen curframe motd.
  assert (Hend : forall curframe motd,
             block_ok baselen curframe ->
             Forall (block_ok baselen) motd ->
             Forall (fun b : list str => b <> []) motd ->
             Forall (block_ok baselen) (motd ++ [curframe])
             /\ (curframe ++ [] <> [] ->
                 Forall (fun b : list str => b <> [])
                   (motd ++ [curframe]))).
  { intros curframe motd Hc Hm Hne. split.
    - apply Forall_app. split; [exact Hm|]. constructor; [exact Hc|constructor].
    - rewrite app_nil_r. intros Hn. apply Forall_app. split; [exact Hne|].
      constructor; [exact Hn|constructor]. }
  induction lines as [|[|c l] r IH];
    intros curlen curframe motd Hcur Hc Hm Hne.
  - cbn [motd_loop until_blank]. apply Hend; assumption.
  - cbn [motd_loop until_blank]. apply Hend; assumption.
  - rewrite motd_loop_cons. cbn [until_blank].
    pose proof (motd_line_len (c :: l)) as Hl.
    set (line := motd_line rstrip (c :: l)) in *.
    assert (Hcost : block_cost [line] = len line + 6)
      by (unfold block_cost; cbn [fold_right]; lia).
    destruct (Z.gtb_spec (len line + 6 + curlen) MAXFRAME) as [Hov|Hov].
    + assert (Hcf : curframe <> []).
      { intros ->. change (block_cost []) with 0 in Hcur. lia. }
      destruct (IH (baselen + (len line + 6)) ([] ++ [line])
                  (motd ++ [curframe])) as [H1 H2].
      * cbn [app]. rewrite Hcost. reflexivity.
      * cbn [app]. split; [rewrite Hcost; lia|].
        constructor; [exact Hl|constructor].
      * apply Forall_app. split; [exact Hm|].
        constructor; [exact Hc|constructor].
      * apply Forall_app. split; [exact Hne|].
        constructor; [exact Hcf|constructor].
      * split; [exact H1|]. intros _. apply H2. discriminate.
    + destruct (IH (curlen + (len line + 6)) (curframe ++ [line]) motd)
        as [H1 H2].
      * rewrite block_cost_app, Hcost. lia.
      * split; [rewrite block_cost_app, Hcost; lia|].
        apply Forall_app. split; [exact (proj2 Hc)|].
        constructor; [exact Hl|constructor].
      * exact Hm.
      * exact Hne.
      * split; [exact H1|]. intros _. apply H2.
        destruct curframe; discriminate.
Qed.

Lemma load_motd_blocks (name : str) (lines : list str) :
  len name + 128 + 206 <= MAXFRAME ->
  Forall (fun block =>
            len name + 128 + block_cost block <= MAXFRAME
            /\ Forall (fun line => 1 <= len line <= 200) block)
    (load_motd rstrip name (Some lines))
  /\ (until_blank lines <> [] ->
      Forall (fun block => block <> [])
        (load_motd rstrip name (Some lines))).
Proof.
  intros H. unfold load_motd.
  apply (@motd_loop_blocks (len name + 128) lines (len name + 128) [] []).
  - exact H.
  - change (block_cost []) with 0. lia.
  - split; [change (block_cost []) with 0; unfold MAXFRAME in *; lia|].
    constructor.
  - constructor.
  - constructor.
Qed.

(** X19. Every block of the message of the day stays within the count
    that [__init__] keeps: the length of the server name, 128, and for
    each line its length and 6 add up to at most MAXFRAME; each line has
    between 1 and 200 characters; and no block is empty unless the file
    starts with an empty line or has none.  This holds for a server name
    of at most 1066 characters. *)
Theorem motd_blocks_fit (name : str) (lines : list str) :
  len name + 128 + 206 <= MAXFRAME ->
  Forall (fun block =>
            len name + 128 + block_cost block <= MAXFRAME
            /\ Forall (fun line => 1 <= len line <= 200) block)
    (load_motd rstrip name (Some lines))
  /\ (until_blank lines <> [] ->
      Forall (fun block => block <> [])
        (load_motd rstrip name (Some lines))).
Proof. apply load_motd_blocks. Qed.

End MotdBlocks.


Lemma motd_blocks_fit_witness :
  Forall (fun block =>
            len servname + 128 + block_cost block <= MAXFRAME
            /\ Forall (fun line => 1 <= len line <= 200) block)
    (load_motd rstrip_ascii servname (Some motd_txt))
  /\ (until_blank motd_txt <> [] ->
      Forall (fun block => block <> [])
        (load_motd rstrip_ascii servname (Some motd_txt))).
Proof.
  apply (@motd_blocks_fit rstrip_ascii servname motd_txt).
  vm_compute. discriminate.
Defined.

Section MotdSent.
Context {T : Text}.

Lemma for_each_ext {A} (l : list A) (f g : A -> M unit) :
  (forall x, f x = g x) -> for_each l f = for_each l g.
Proof.
  intros H. induction l as [|x l IH]; [reflexivity|].
  cbn [for_each]. rewrite H, IH. reflexivity.
Qed.

Lemma user_send_encoded (u : nat) (c : str) (kv : kval) (w : world) :
  Frame.__len__
    (mkFrame (lit "=" ++ name w) (user_name (the_user w u)) c kv)
  <= MAXFRAME - 20 ->
  exists b,
    Frame.__bytes__
      (mkFrame (lit "=" ++ name w) (user_name (the_user w u)) c kv) = Ok b
    /\ User_send u EServer (EUser u) c kv w
       = (Ok tt, with_proto (user_proto (the_user w u))
                   (add_call (Write b)) w).
Proof.
  intros H. destruct (bytes_of_budget _ H) as (h1 & h2 & Hb & _).
  eexists. split; [exact Hb|].
  cbv [User_send DCPProto.send DCPProto._proto_name bind gets modify lift].
  rewrite Hb. reflexivity.
Qed.

(** A run of frames sent to one user, all within the encoder's budget. *)
Lemma user_send_all (u : nat) (c : str) (kvs : list kval) (w : world) :
  (user_proto (the_user w u) < length (protos w))%nat ->
  Forall (fun kv =>
            Frame.__len__
              (mkFrame (lit "=" ++ name w) (user_name (the_user w u)) c kv)
            <= MAXFRAME - 20) kvs ->
  exists bs w',
    for_each kvs (User_send u EServer (EUser u) c) w = (Ok tt, w')
    /\ Forall2 (fun kv b =>
                  Frame.__bytes__
                    (mkFrame (lit "=" ++ name w)
                             (user_name (the_user w u)) c kv) = Ok b)
         kvs bs
    /\ transport (the_proto w' (user_proto (the_user w u)))
       = transport (the_proto w (user_proto (the_user w u))) ++ map Write bs
    /\ name w' = name w /\ motd w' = motd w /\ users w' = users w
    /\ user_objs w' = user_objs w
    /\ length (protos w') = length (protos w).
Proof.
  revert w. induction kvs as [|kv kvs IH]; intros w Hp Hall.
  - exists [], w. cbn [for_each map]. rewrite app_nil_r.
    repeat split. constructor.
  - inversion Hall as [|? ? Hkv Hrest]; subst.
    destruct (user_send_encoded u c kv w Hkv) as [b [Hb Hs]].
    set (p := user_proto (the_user w u)) in *.
    set (w1 := with_proto p (add_call (Write b)) w) in *.
    assert (Hu1 : the_user w1 u = the_user w u) by reflexivity.
    assert (Hn1 : name w1 = name w) by reflexivity.
    assert (Hl1 : length (protos w1) = length (protos w))
      by (cbn [w1 with_proto protos]; apply length_set_nth).
    destruct (IH w1) as (bs & w' & Hf & Hbs & Htr & Hn & Hm & Hus & Huo & Hl).
    + rewrite Hu1, Hl1. exact Hp.
    + rewrite Hu1, Hn1. exact Hrest.
    + exists (b :: bs), w'. cbn [for_each]. unfold bind at 1. rewrite Hs.
      fold w1. rewrite Hf. split; [reflexivity|].
      rewrite Hu1, Hn1 in *. fold p in Htr, Hbs |- *.
      split; [constructor; assumption|].
      split.
      * rewrite Htr. unfold w1.
        rewrite (the_proto_with_proto _ w Hp). cbn [add_call transport map].
        rewrite <- app_assoc. reflexivity.
      * repeat split; try assumption. rewrite Hl. exact Hl1.
Qed.

Lemma len_lit_app (a : string) (s : str) :
  len (lit a ++ s) = len (lit a) + len s.
Proof. apply len_app. Qed.

Lemma block_len_kv (k : str) (block : list str) :
  len k = 4 ->
  fold_right (fun v2 s2 => len k + len v2 + 2 + s2) 0 block
  = block_cost block.
Proof.
  intros Hk. unfold block_cost.
  induction block as [|l block IH]; cbn [fold_right]; [reflexivity|].
  rewrite IH. lia.
Qed.

Lemma motd_frame_len (w : world) (tgt : str) (ib : nat * list str) :
  Frame.__len__
    (mkFrame (lit "=" ++ name w) tgt (lit "motd") (motd_kval w ib))
  = len (name w) + len tgt + block_cost (snd ib)
    + len (str_of_int (Z.of_nat (fst ib) + 1))
    + len (str_of_int (len (motd w))) + 37.
Proof.
  unfold Frame.__len__, Frame._generic_len, motd_kval.
  cbn [source target command fkval].
  change (len [(lit "text", snd ib); (lit "multipart", [lit "*"]);
               (lit "part", [str_of_int (Z.of_nat (fst ib) + 1)]);
               (lit "total", [str_of_int (len (motd w))])] >? 0) with true.
  cbv iota. rewrite !len_kv_cons.
  rewrite (@block_len_kv (lit "text") (snd ib) eq_refl).
  change (Frame.len_kv []) with 0. cbn [fold_right].
  rewrite len_lit_app.
  change (len (lit "=")) with 1. change (len (lit "motd")) with 4.
  change (len (lit "multipart")) with 9. change (len (lit "*")) with 1.
  change (len (lit "part")) with 4. change (len (lit "total")) with 5.
  lia.
Qed.

(** X20. A server whose message of the day was packed by [__init__]
    sends it whole: for a user with a handle of at most 48 characters,
    [cmd_motd] raises nothing and writes to the user's session one frame
    per block, in order (one frame with no key when there is no
    motd.txt), each one the encoding of the frame of its block.  The count
    of [__init__] leaves the encoder one byte of room when the part and
    the total are written with 11 digits. *)
Theorem motd_is_sent_whole (rstrip : str -> str) (file : option (list str))
    (w : world) (u : nat) (line : BaseFrame) :
  motd w = load_motd rstrip (name w) file ->
  len (name w) + 128 + 206 <= MAXFRAME ->
  len (user_name (the_user w u)) <= 48 ->
  (user_proto (the_user w u) < length (protos w))%nat ->
  (forall i, (i <= length (motd w))%nat ->
             len (str_of_int (Z.of_nat i)) <= 11) ->
  exists bs w',
    DCPServer.cmd_motd u line w = (Ok tt, w')
    /\ Forall2 (fun f b => Frame.__bytes__ f = Ok b)
         (motd_frames w (user_name (the_user w u))) bs
    /\ transport (the_proto w' (user_proto (the_user w u)))
       = transport (the_proto w (user_proto (the_user w u))) ++ map Write bs
    /\ user_objs w' = user_objs w.
Proof.
  intros Hm Hname Hu Hp Hd.
  unfold DCPServer.cmd_motd, motd_frames, bind, gets.
  remember (motd w) as m eqn:Em in |- *. destruct m as [|b0 m0].
  - destruct (user_send_encoded u (lit "motd") [] w) as [b [Hb Hs]].
    { unfold Frame.__len__, Frame._generic_len.
      cbn [source target command fkval].
      change (len (@nil (str * list str)) >? 0) with false. cbv iota.
      rewrite len_lit_app. change (len (lit "=")) with 1.
      change (len (lit "motd")) with 4. unfold MAXFRAME in *. lia. }
    exists [b], (with_proto (user_proto (the_user w u))
                   (add_call (Write b)) w).
    split; [exact Hs|]. split; [constructor; [exact Hb|constructor]|].
    split; [|reflexivity].
    rewrite (the_proto_with_proto _ w Hp). reflexivity.
  - cbv iota zeta. rewrite Em.
    assert (Hblocks : Forall (block_ok (len (name w) + 128)) (motd w)).
    { rewrite Hm. destruct file as [lines|]; [|constructor].
      apply (load_motd_blocks rstrip (name w) lines Hname). }
    rewrite (@for_each_ext _ (enumerate (motd w)) _
               (fun ib => User_send u EServer (EUser u) (lit "motd")
                            (motd_kval w ib)))
      by (intros [i block]; reflexivity).
    assert (Hfe : forall (l : list (nat * list str)) (f : _ -> kval),
               for_each l (fun ib => User_send u EServer (EUser u)
                                       (lit "motd") (f ib))
               = for_each (map f l)
                   (User_send u EServer (EUser u) (lit "motd"))).
    { intros l f. induction l as [|x l IH]; [reflexivity|].
      cbn [for_each map]. rewrite IH. reflexivity. }
    rewrite Hfe.
    destruct (@user_send_all u (lit "motd")
                (map (motd_kval w) (enumerate (motd w))) w Hp)
      as (bs & w' & Hf & Hbs & Htr & _ & _ & _ & Huo & _).
    { apply Forall_map. apply Forall_forall. intros [i block] Hin.
      rewrite motd_frame_len. cbn [fst snd].
      unfold enumerate in Hin.
      pose proof (in_combine_l _ _ _ _ Hin) as Hi.
      pose proof (in_combine_r _ _ _ _ Hin) as Hbk.
      apply in_seq in Hi.
      rewrite Forall_forall in Hblocks.
      destruct (Hblocks block Hbk) as [Hcost _].
      assert (H1 : len (str_of_int (Z.of_nat i + 1)) <= 11).
      { replace (Z.of_nat i + 1) with (Z.of_nat (S i)) by lia.
        apply Hd. lia. }
      assert (H2 : len (str_of_int (len (motd w))) <= 11)
        by (apply Hd; lia).
      unfold MAXFRAME in *. lia. }
    exists bs, w'. split; [exact Hf|]. split; [|split; assumption].
    clear - Hbs. revert Hbs. generalize (enumerate (motd w)).
    intros l. revert bs. induction l as [|x l IH]; intros bs H;
      inversion H; subst; constructor; auto.
Qed.

End MotdSent.

Lemma motd_is_sent_whole_witness :
  exists bs w',
    DCPServer.cmd_motd 0 signon_line motd_server = (Ok tt, w')
    /\ Forall2 (fun f b => Frame.__bytes__ f = Ok b)
         (motd_frames motd_server (user_name (the_user motd_server 0))) bs
    /\ transport (the_proto w' (user_proto (the_user motd_server 0)))
       = transport (the_proto motd_server
                      (user_proto (the_user motd_server 0)))
         ++ map Write bs
    /\ user_objs w' = user_objs motd_server.
Proof.
  apply (@motd_is_sent_whole ascii_text rstrip_ascii (Some motd_txt)
           motd_server 0%nat signon_line).
  - reflexivity.
  - vm_compute. discriminate.
  - vm_compute. discriminate.
  - vm_compute. lia.
  - intros [|[|i]] Hi; [by_compute | by_compute |].
    exfalso. vm_compute in Hi. lia.
Defined.

(** ** Ping and pong *)

Section PingPong.
Context {T : Text}.

(** A tick that finds the flag clear. *)
Lemma tick_sends_ping (w : world) (u : nat) (now r : Z) :
  (u < length (user_objs w))%nat ->
  (user_proto (the_user w u) < length (protos w))%nat ->
  name w = servname ->
  len (user_name (the_user w u)) <= 48 ->
  len (str_of_int now) <= 20 ->
  user_timeout (the_user w u) = false ->
  exists b w',
    Frame.__bytes__ (ping_frame w (user_name (the_user w u)) now) = Ok b
    /\ DCPServer.ping_timeout u now r w = (Ok tt, w')
    /\ the_user w' u = set_timeout true (the_user w u)
    /\ transport (the_proto w' (user_proto (the_user w u)))
       = transport (the_proto w (user_proto (the_user w u))) ++ [Write b]
    /\ user (the_proto w' (user_proto (the_user w u)))
       = user (the_proto w (user_proto (the_user w u)))
    /\ name w' = name w
    /\ length (user_objs w') = length (user_objs w)
    /\ length (protos w') = length (protos w).
Proof.
  intros Hu Hp Hn Hl Hnow Ht.
  destruct (ping_frame_encoded w (user_name (the_user w u)) now Hn Hl Hnow)
    as [b Hb].
  exists b.
  set (p := user_proto (the_user w u)) in *.
  set (w1 := with_proto p (add_call (Write b)) w).
  set (w2 := with_user u (set_timeout true) w1).
  set (w3 := add_timer (mkTimer (Qmake r 100) (PingTimeout u) false) w2).
  assert (Hu3 : the_user w3 u = set_timeout true (the_user w u))
    by exact (the_user_with_user (set_timeout true) w1 Hu).
  assert (Hp1 : the_proto w3 p = add_call (Write b) (the_proto w p))
    by exact (the_proto_with_proto (add_call (Write b)) w Hp).
  assert (Hp3 : (p < length (protos w3))%nat)
    by (cbn [w3 w2 w1 add_timer with_user with_proto protos];
        rewrite length_set_nth; exact Hp).
  exists (with_proto p
            (fun pr => set_callbacks
                         (dict_set (lit "ping") (length (timers w))
                                   (callbacks pr)) pr) w3).
  split; [exact Hb|]. split.
  - cbv [DCPServer.ping_timeout User_send DCPProto.send
         DCPProto._proto_name bind gets modify ret lift raise call_later].
    rewrite Ht. fold p. unfold ping_frame in Hb. rewrite Hb.
    fold w1. fold w2. fold w3. rewrite Hu3. reflexivity.
  - rewrite the_proto_with_proto by exact Hp3. rewrite Hp1.
    cbn [transport callbacks set_callbacks add_call user].
    change (the_user (with_proto p _ w3) u) with (the_user w3 u).
    rewrite Hu3.
    cbn [with_proto w3 w2 w1 add_timer with_user user_objs protos name].
    rewrite !length_set_nth. repeat split; reflexivity.
Qed.

(** A tick that finds the flag set. *)
Lemma tick_closes (w : world) (u : nat) (now r : Z) :
  user (the_proto w (user_proto (the_user w u))) = Some u ->
  name w = servname ->
  len (user_name (the_user w u)) <= 48 ->
  user_timeout (the_user w u) = true ->
  exists b,
    Frame.__bytes__
      (error_frame w (user_name (the_user w u)) (lit "ping")
                   (lit "Ping timeout")) = Ok b
    /\ DCPServer.ping_timeout u now r w
       = (Ok tt, with_proto (user_proto (the_user w u)) (add_call Close)
                   (with_proto (user_proto (the_user w u))
                      (add_call (Write b)) w)).
Proof.
  intros Hpu Hn Hl Ht.
  destruct (error_frame_encoded w (user_name (the_user w u)) (lit "ping")
              (lit "Ping timeout") Hn Hl) as [b Hb];
    [by_compute | by_compute |].
  exists b. split; [exact Hb|].
  cbv [DCPServer.ping_timeout DCPServer.error DCPProto.error DCPProto.send
       DCPProto._proto_name bind gets modify ret lift raise truthy].
  rewrite Ht, Hpu. unfold error_frame in Hb. rewrite Hb. reflexivity.
Qed.

(** X21. A pong between two ticks of the ping timer keeps the session
    open, and its absence closes it.  For a registered user whose flag is
    clear: tick, pong, tick writes two ping frames and nothing else; tick,
    tick writes a ping frame, then the error [Ping timeout], then closes
    the transport.  The pong frame itself is not looked at. *)
Theorem pong_between_ticks (w : world) (u : nat) (now now' r r' : Z)
    (line : BaseFrame) :
  (u < length (user_objs w))%nat ->
  (user_proto (the_user w u) < length (protos w))%nat ->
  user (the_proto w (user_proto (the_user w u))) = Some u ->
  name w = servname ->
  len (user_name (the_user w u)) <= 48 ->
  len (str_of_int now) <= 20 ->
  len (str_of_int now') <= 20 ->
  user_timeout (the_user w u) = false ->
  let usr := the_user w u in
  let p := user_proto usr in
  (exists b b' w',
      Frame.__bytes__ (ping_frame w (user_name usr) now) = Ok b
      /\ Frame.__bytes__ (ping_frame w (user_name usr) now') = Ok b'
      /\ (DCPServer.ping_timeout u now r ;;;
          DCPServer.cmd_pong u line ;;;
          DCPServer.ping_timeout u now' r') w = (Ok tt, w')
      /\ transport (the_proto w' p)
         = transport (the_proto w p) ++ [Write b; Write b'])
  /\ (exists b e w',
         Frame.__bytes__ (ping_frame w (user_name usr) now) = Ok b
         /\ Frame.__bytes__
              (error_frame w (user_name usr) (lit "ping")
                           (lit "Ping timeout")) = Ok e
         /\ (DCPServer.ping_timeout u now r ;;;
             DCPServer.ping_timeout u now' r') w = (Ok tt, w')
         /\ transport (the_proto w' p)
            = transport (the_proto w p) ++ [Write b; Write e; Close]).
Proof.
  intros Hu Hp Hpu Hn Hl Hnow Hnow' Ht usr p. subst usr p.
  destruct (@tick_sends_ping w u now r Hu Hp Hn Hl Hnow Ht)
    as (b & w1 & Hb & H1 & Hu1 & Ht1 & Hpu1 & Hn1 & Hlu1 & Hlp1).
  set (p := user_proto (the_user w u)) in *.
  assert (Hname1 : user_name (the_user w1 u) = user_name (the_user w u))
    by (rewrite Hu1; reflexivity).
  assert (Hproto1 : user_proto (the_user w1 u) = p)
    by (rewrite Hu1; reflexivity).
  split.
  - set (w2 := with_user u (set_timeout false) w1).
    assert (Hu2 : the_user w2 u = set_timeout false (the_user w1 u))
      by (apply the_user_with_user; rewrite Hlu1; exact Hu).
    assert (Hproto2 : user_proto (the_user w2 u) = p)
      by (rewrite Hu2; exact Hproto1).
    destruct (@tick_sends_ping w2 u now' r') as
      (b' & w3 & Hb' & H3 & _ & Ht3 & _).
    + cbn [w2 with_user user_objs]. rewrite length_set_nth, Hlu1. exact Hu.
    + rewrite Hproto2. cbn [w2 with_user protos]. rewrite Hlp1. exact Hp.
    + cbn [w2 with_user name]. rewrite Hn1. exact Hn.
    + rewrite Hu2. cbn [set_timeout user_name]. rewrite Hname1. exact Hl.
    + exact Hnow'.
    + rewrite Hu2. reflexivity.
    + exists b, b', w3. split; [exact Hb|]. split.
      * rewrite Hu2 in Hb'. cbn [set_timeout user_name] in Hb'.
        rewrite Hname1 in Hb'. unfold ping_frame in *.
        change (name w2) with (name w1) in Hb'. rewrite Hn1 in Hb'.
        exact Hb'.
      * split.
        -- unfold bind. rewrite H1. unfold DCPServer.cmd_pong, modify.
           fold w2. exact H3.
        -- rewrite Hproto2 in Ht3. rewrite Ht3.
           change (the_proto w2 p) with (the_proto w1 p).
           rewrite Ht1, <- app_assoc. reflexivity.
  - destruct (@tick_closes w1 u now' r') as (e & He & H2).
    + rewrite Hproto1, Hpu1. exact Hpu.
    + rewrite Hn1. exact Hn.
    + rewrite Hname1. exact Hl.
    + rewrite Hu1. reflexivity.
    + rewrite Hproto1, Hname1 in *.
      exists b, e. eexists. split; [exact Hb|]. split.
      * unfold error_frame in *. rewrite Hn1 in He. exact He.
      * split; [unfold bind; rewrite H1; exact H2|].
        assert (Hp' : (p < length (protos
                         (with_proto p (add_call (Write e)) w1)))%nat)
          by (cbn [with_proto protos]; rewrite length_set_nth, Hlp1;
              exact Hp).
        rewrite (the_proto_with_proto _ _ Hp').
        rewrite the_proto_with_proto by (rewrite Hlp1; exact Hp).
        cbn [add_call transport]. rewrite Ht1, <- !app_assoc. reflexivity.
Qed.

End PingPong.

Lemma pong_between_ticks_witness :
  (exists b b' w',
      Frame.__bytes__ (ping_frame two_users (lit "bob") 1700000045) = Ok b
      /\ Frame.__bytes__ (ping_frame two_users (lit "bob") 1700000095)
         = Ok b'
      /\ (DCPServer.ping_timeout 1 1700000045 4500 ;;;
          DCPServer.cmd_pong 1 pong_frame ;;;
          DCPServer.ping_timeout 1 1700000095 6000) two_users = (Ok tt, w')
      /\ transport (the_proto w' 1)
         = transport (the_proto two_users 1) ++ [Write b; Write b'])
  /\ (exists b e w',
         Frame.__bytes__ (ping_frame two_users (lit "bob") 1700000045)
         = Ok b
         /\ Frame.__bytes__
              (error_frame two_users (lit "bob") (lit "ping")
                           (lit "Ping timeout")) = Ok e
         /\ (DCPServer.ping_timeout 1 1700000045 4500 ;;;
             DCPServer.ping_timeout 1 1700000095 6000) two_users
            = (Ok tt, w')
         /\ transport (the_proto w' 1)
            = transport (the_proto two_users 1)
              ++ [Write b; Write e; Close]).
Proof.
  apply (@pong_between_ticks ascii_text two_users 1%nat 1700000045
           1700000095 4500 6000 pong_frame); side_condition.
Defined.

(** ** Leaving *)

Section Exit.
Variable member_del : Group -> nat -> M unit.
Variable repr : str -> str.

Lemma nth_set_nth_other {A} (i j : nat) (x d : A) (l : list A) :
  i <> j -> nth i (set_nth j x l) d = nth i l d.
Proof.
  revert i j. induction l as [|a l IH]; intros [|i] [|j] H;
    cbn [set_nth nth]; try reflexivity; [contradiction | apply IH; lia].
Qed.

Lemma cancel_all_keeps (cbs : list nat) (ts : list timer) (i : nat) :
  ~ In i cbs -> nth i (cancel_all cbs ts) no_timer = nth i ts no_timer.
Proof.
  revert ts. induction cbs as [|c cbs IH]; intros ts H; [reflexivity|].
  cbn [cancel_all fold_left]. fold (cancel_all cbs).
  rewrite IH by (intros Hin; apply H; right; exact Hin).
  apply nth_set_nth_other. intros ->. apply H. left. reflexivity.
Qed.

Lemma length_cancel_all (cbs : list nat) (ts : list timer) :
  length (cancel_all cbs ts) = length ts.
Proof.
  revert ts. induction cbs as [|c cbs IH]; intros ts; [reflexivity|].
  cbn [cancel_all fold_left]. fold (cancel_all cbs).
  rewrite IH. apply length_set_nth.
Qed.

Lemma cancel_all_stays (cbs : list nat) (ts : list timer) (i : nat) :
  cancelled (nth i ts no_timer) = true ->
  cancelled (nth i (cancel_all cbs ts) no_timer) = true.
Proof.
  revert ts. induction cbs as [|c cbs IH]; intros ts H; [exact H|].
  cbn [cancel_all fold_left]. fold (cancel_all cbs). apply IH.
  destruct (Nat.eq_dec i c) as [->|Hne].
  - destruct (Nat.lt_ge_cases c (length ts)) as [Hlt|Hge].
    + rewrite nth_set_nth by exact Hlt. reflexivity.
    + rewrite nth_overflow by (rewrite length_set_nth; exact Hge).
      reflexivity.
  - rewrite nth_set_nth_other by exact Hne. exact H.
Qed.

Lemma cancel_all_cancels (cbs : list nat) (ts : list timer) (cb : nat) :
  In cb cbs -> cancelled (nth cb (cancel_all cbs ts) no_timer) = true.
Proof.
  revert ts. induction cbs as [|c cbs IH]; intros ts H; [contradiction|].
  cbn [cancel_all fold_left]. fold (cancel_all cbs).
  destruct (Nat.eq_dec cb c) as [->|Hne].
  - apply cancel_all_stays.
    destruct (Nat.lt_ge_cases c (length ts)) as [Hlt|Hge].
    + rewrite nth_set_nth by exact Hlt. reflexivity.
    + rewrite nth_overflow by (rewrite length_set_nth; exact Hge).
      reflexivity.
  - apply IH. destruct H as [H|H]; [congruence | exact H].
Qed.

Lemma for_each_cancel (cbs : list nat) (w : world) :
  for_each cbs cancel w
  = (Ok tt, mkWorld (name w) (motd w) (users w) (user_objs w) (protos w)
                    (cancel_all cbs (timers w))).
Proof.
  revert w. induction cbs as [|c cbs IH]; intros w.
  - destruct w; reflexivity.
  - cbn [for_each]. unfold bind, cancel at 1, modify. rewrite IH.
    reflexivity.
Qed.

(** X22. When the connection of a user who is in no group is lost: the
    handle is removed from the server's users and [cancel] is called on
    every timer of the session, the other timers being left alone; the
    session and the user object stay as they were.  When the handle is
    not among the users, KeyError is raised and no timer is cancelled. *)
Theorem connection_lost_releases (w : world) (p u : nat) :
  user (the_proto w p) = Some u ->
  user_groups (the_user w u) = [] ->
  let nm := user_name (the_user w u) in
  let cbs := map snd (callbacks (the_proto w (user_proto (the_user w u)))) in
  (dict_get nm (users w) = None ->
   connection_lost member_del repr p w = (Raise (KeyError (repr nm)), w))
  /\ (dict_get nm (users w) <> None ->
      exists w',
        connection_lost member_del repr p w = (Ok tt, w')
        /\ users w' = dict_del nm (users w)
        /\ protos w' = protos w
        /\ user_objs w' = user_objs w
        /\ length (timers w') = length (timers w)
        /\ (forall cb, In cb cbs ->
              cancelled (nth cb (timers w') no_timer) = true)
        /\ (forall i, ~ In i cbs ->
              nth i (timers w') no_timer = nth i (timers w) no_timer)).
Proof.
  intros Hu Hg nm cbs. subst nm cbs.
  unfold connection_lost, bind, gets. rewrite Hu.
  unfold user_exit, bind, gets, modify. split.
  - intros Hn. rewrite Hn. reflexivity.
  - intros Hn.
    destruct (dict_get (user_name (the_user w u)) (users w)) as [x|];
      [|contradiction].
    change (the_user (mkWorld _ _ _ (user_objs w) _ _) u)
      with (the_user w u).
    rewrite Hg. cbn [for_each]. unfold ret.
    rewrite for_each_cancel. eexists. split; [reflexivity|].
    cbn [users protos user_objs timers].
    split; [reflexivity|]. split; [reflexivity|]. split; [reflexivity|].
    split; [apply length_cancel_all|]. split.
    + intros cb Hin. apply cancel_all_cancels. exact Hin.
    + intros i Hin. apply cancel_all_keeps. exact Hin.
Qed.

End Exit.

Lemma connection_lost_releases_witness :
  connection_lost no_member_del repr_plain 1 bob_gone
  = (Raise (KeyError (lit "'bob'")), bob_gone)
  /\ exists w',
       connection_lost no_member_del repr_plain 1 two_users = (Ok tt, w')
       /\ users w' = [(lit "alice", 0%nat)]
       /\ protos w' = protos two_users
       /\ user_objs w' = user_objs two_users
       /\ length (timers w') = 2%nat
       /\ (forall cb, In cb [1%nat] ->
             cancelled (nth cb (timers w') no_timer) = true)
       /\ (forall i, ~ In i [1%nat] ->
             nth i (timers w') no_timer = nth i (timers two_users) no_timer).
Proof.
  split.
  - apply (proj1 (@connection_lost_releases no_member_del repr_plain
                    bob_gone 1%nat 1%nat eq_refl eq_refl)).
    reflexivity.
  - apply (proj2 (@connection_lost_releases no_member_del repr_plain
                    two_users 1%nat 1%nat eq_refl eq_refl)).
    discriminate.
Defined.

(** ** Refusals of whois *)

Section WhoisRefusals.
Context {T : Text}.

(** X23. [cmd_whois] refuses two kinds of target with an error that is
    not fatal, written to the session of the user who asked: the target
    [*] and targets that start with [=] or [#] with [No valid target],
    any other target that is no handle of a user with [No such user].
    The transport stays open and nothing else changes. *)
Theorem whois_refuses (w : world) (u : nat) (line : BaseFrame) :
  name w = servname ->
  len (session_target w (user_proto (the_user w u))) <= 48 ->
  len (command line) <= 48 ->
  let p := user_proto (the_user w u) in
  let special :=
    str_eqb (target line) (lit "*")
    || startswith N.eqb (target line) (lit "=")
    || startswith N.eqb (target line) (lit "#") in
  (special = true ->
   exists b,
     Frame.__bytes__
       (error_frame w (session_target w p) (command line)
                    (lit "No valid target")) = Ok b
     /\ DCPServer.cmd_whois u line w
        = (Ok tt, with_proto p (add_call (Write b)) w))
  /\ (special = false ->
      dict_get (target line) (users w) = None ->
      exists b,
        Frame.__bytes__
          (error_frame w (session_target w p) (command line)
                       (lit "No such user")) = Ok b
        /\ DCPServer.cmd_whois u line w
           = (Ok tt, with_proto p (add_call (Write b)) w)).
Proof.
  intros Hn Ht Hc p special. subst p special. split.
  - intros Hs.
    destruct (proto_error_nonfatal w (user_proto (the_user w u))
                (command line) (lit "No valid target") Hn Ht Hc)
      as [b [Hb He]]; [by_compute|].
    exists b. split; [exact Hb|].
    unfold DCPServer.cmd_whois. rewrite Hs.
    rewrite server_error_session. exact He.
  - intros Hs Hg.
    destruct (proto_error_nonfatal w (user_proto (the_user w u))
                (command line) (lit "No such user") Hn Ht Hc)
      as [b [Hb He]]; [by_compute|].
    exists b. split; [exact Hb|].
    unfold DCPServer.cmd_whois. rewrite Hs.
    unfold bind, gets. rewrite Hg.
    rewrite server_error_session. exact He.
Qed.

End WhoisRefusals.

Lemma whois_refuses_witness :
  (exists b,
     Frame.__bytes__
       (error_frame two_users (lit "alice") (lit "whois")
                    (lit "No valid target")) = Ok b
     /\ DCPServer.cmd_whois 0 whois_lobby two_users
        = (Ok tt, with_proto 0 (add_call (Write b)) two_users))
  /\ (exists b,
        Frame.__bytes__
          (error_frame two_users (lit "alice") (lit "whois")
                       (lit "No such user")) = Ok b
        /\ DCPServer.cmd_whois 0 whois_carol two_users
           = (Ok tt, with_proto 0 (add_call (Write b)) two_users)).
Proof.
  assert (Ht : len (session_target two_users
                      (user_proto (the_user two_users 0))) <= 48)
    by by_compute.
  assert (Hc : len (lit "whois") <= 48) by by_compute.
  split.
  - apply (proj1 (@whois_refuses ascii_text two_users 0%nat whois_lobby
                    eq_refl Ht Hc)).
    reflexivity.
  - apply (proj2 (@whois_refuses ascii_text two_users 0%nat whois_carol
                    eq_refl Ht Hc)); reflexivity.
Defined.

(** ** What a signon leaves behind *)

Section HalfRegistered.
Context {T : Text}.

Lemma signon_frame_encoded (w : world) (tgt : str) (now : Z) :
  name w = servname ->
  len tgt <= 48 -> len (str_of_int now) <= 20 ->
  exists b, Frame.__bytes__ (signon_frame w tgt now) = Ok b.
Proof.
  intros Hn Ht Hc.
  apply bytes_of_small; unfold signon_frame; rewrite Hn;
    unfold Frame.__len__, Frame._generic_len, Frame.len_kv, Frame.items,
      MAXFRAME, len in *;
    cbn [length app map lit list_ascii_of_string servname fold_right
         flat_map join fkval source target command];
    repeat match goal with
           | |- context [Z.of_nat ?n >? 0] =>
               change (Z.of_nat n >? 0) with true; cbv iota
           end;
    repeat (rewrite length_app;
            cbn [length app map lit list_ascii_of_string servname]);
    lia.
Qed.

(** X24. [user_enter] raises NameError after the signon frame, and what it
    did before stays done: the handle belongs to the new user, the session
    refers to it, the signon timer is cancelled and forgotten, and the
    signon frame is written.  What comes after is not done: no timer is
    added, so the user is never pinged and never timed out. *)
Theorem user_enter_stops_half_way (w : world) (proto cb : nat)
    (nm gecos : str) (acls properties options : list str) (now now' r : Z) :
  (proto < length (protos w))%nat ->
  dict_get (lit "signon") (callbacks (the_proto w proto)) = Some cb ->
  name w = servname ->
  len nm <= 48 ->
  len (str_of_int now) <= 20 ->
  let u := length (user_objs w) in
  exists b w',
    Frame.__bytes__ (signon_frame w nm now) = Ok b
    /\ DCPServer.user_enter proto nm gecos acls properties options
                            now now' r w
       = (Raise (NameError (lit "name 'line' is not defined")), w')
    /\ dict_get nm (users w') = Some u
    /\ the_user w' u = mkUser proto nm gecos acls properties options [] false
    /\ user (the_proto w' proto) = Some u
    /\ transport (the_proto w' proto)
       = transport (the_proto w proto) ++ [Write b]
    /\ callbacks (the_proto w' proto)
       = dict_del (lit "signon") (callbacks (the_proto w proto))
    /\ length (timers w') = length (timers w)
    /\ ((cb < length (timers w))%nat ->
        cancelled (nth cb (timers w') no_timer) = true).
Proof.
  intros Hp Hcb Hn Hl Hnow u.
  destruct (signon_frame_encoded w nm now Hn Hl Hnow) as [b Hb].
  exists b.
  set (usr := mkUser proto nm gecos acls properties options [] false).
  set (w1 := mkWorld (name w) (motd w) (dict_set nm u (users w))
                     (user_objs w ++ [usr]) (protos w) (timers w)).
  set (w2 := with_proto proto (set_user (Some u)) w1).
  set (t := nth cb (timers w2) no_timer).
  set (w3 := mkWorld (name w2) (motd w2) (users w2) (user_objs w2)
                     (protos w2)
                     (set_nth cb (mkTimer (delay t) (act t) true)
                              (timers w2))).
  set (w4 := with_proto proto
               (fun pr => set_callbacks
                            (dict_del (lit "signon") (callbacks pr)) pr) w3).
  set (w5 := with_proto proto (add_call (Write b)) w4).
  assert (Hu : forall w', user_objs w' = user_objs w ++ [usr] ->
                          the_user w' u = usr).
  { intros w' E. unfold the_user. rewrite E. subst u.
    rewrite app_nth2, Nat.sub_diag by lia. reflexivity. }
  assert (Hp2 : the_proto w2 proto = set_user (Some u) (the_proto w proto))
    by exact (the_proto_with_proto (set_user (Some u)) w1 Hp).
  assert (Hl2 : (proto < length (protos w2))%nat)
    by (cbn [w2 with_proto protos]; rewrite length_set_nth; exact Hp).
  assert (Hp4 : the_proto w4 proto
                = set_callbacks
                    (dict_del (lit "signon") (callbacks (the_proto w proto)))
                    (set_user (Some u) (the_proto w proto))).
  { unfold w4. rewrite (the_proto_with_proto _ w3 Hl2).
    change (the_proto w3 proto) with (the_proto w2 proto).
    rewrite Hp2. reflexivity. }
  assert (Hl4 : (proto < length (protos w4))%nat)
    by (cbn [w4 with_proto protos]; rewrite length_set_nth; exact Hl2).
  assert (Hp5 : the_proto w5 proto
                = add_call (Write b) (the_proto w4 proto))
    by exact (the_proto_with_proto (add_call (Write b)) w4 Hl4).
  exists w5. split; [exact Hb|]. split.
  - unfold DCPServer.user_enter, bind, gets, modify.
    fold u. fold usr. fold w1. fold w2. rewrite Hp2.
    cbn [set_user callbacks]. rewrite Hcb.
    unfold cancel, modify. fold t. fold w3. fold w4.
    change (name w4) with (name w).
    cbv [User_send DCPProto.send DCPProto._proto_name bind gets modify lift].
    rewrite (Hu w4 eq_refl). cbn [user_proto user_name usr].
    change (name w4) with (name w).
    unfold signon_frame in Hb. rewrite Hb. reflexivity.
  - rewrite Hp5, Hp4, (Hu w5 eq_refl).
    cbn [add_call set_callbacks set_user user transport callbacks].
    split.
    { change (users w5) with (dict_set nm u (users w)).
      rewrite dict_get_set, str_eqb_refl. reflexivity. }
    repeat split.
    + change (timers w5) with (set_nth cb (mkTimer (delay t) (act t) true)
                                       (timers w)).
      apply length_set_nth.
    + intros Hcbl.
      change (timers w5) with (set_nth cb (mkTimer (delay t) (act t) true)
                                       (timers w)).
      rewrite nth_set_nth by exact Hcbl. reflexivity.
Qed.

End HalfRegistered.

Lemma user_enter_stops_half_way_witness :
  exists b w',
    Frame.__bytes__ (signon_frame one_session (lit "alice") 1700000000)
    = Ok b
    /\ DCPServer.user_enter 0 (lit "alice") (lit "Alice") [] [] []
         1700000000 1700000045 4500 one_session
       = (Raise (NameError (lit "name 'line' is not defined")), w')
    /\ dict_get (lit "alice") (users w') = Some 0%nat
    /\ the_user w' 0 = mkUser 0 (lit "alice") (lit "Alice") [] [] [] [] false
    /\ user (the_proto w' 0) = Some 0%nat
    /\ transport (the_proto w' 0)
       = transport (the_proto one_session 0) ++ [Write b]
    /\ callbacks (the_proto w' 0)
       = dict_del (lit "signon") (callbacks (the_proto one_session 0))
    /\ length (timers w') = length (timers one_session)
    /\ ((0 < length (timers one_session))%nat ->
        cancelled (nth 0 (timers w') no_timer) = true).
Proof.
  apply (@user_enter_stops_half_way ascii_text one_session 0%nat 0%nat
           (lit "alice") (lit "Alice") [] [] [] 1700000000 1700000045 4500);
    side_condition.
Defined.
